(** * Discord-video-stream: the audio stream and the playStream session

    A shallow embedding of

    - [AudioStream] (mute, volume, [_sendFrame]) and the controller
      calls that reach it,
    - the tail of [playStream] in [src/media/newApi.ts]: the burst
      controller, the cleanup list and the completion promise, and
    - [prepareStream] in the same file: the merge of the options, the
      calls that build the ffmpeg command and the exit promise,

    followed by the properties of the specification that concern them
    and by further properties of the same code.

    JavaScript numbers are IEEE 754 binary64 values, so they are the
    primitive [float]s of the prover; [Buffer]s are lists of bytes; the
    Opus codec and the UDP transport are external and stay abstract
    (Section variables); event handlers are transitions of a state
    machine whose state holds what the closures of [playStream] capture. *)

From Stdlib Require Import ZArith List Bool Lia Floats String Permutation Sorted.
From coqutil Require Import Byte.
Import ListNotations.

Local Open Scope Z_scope.

(** ** JavaScript numbers *)

Module JS.

Local Open Scope float_scope.

(** [Math.min(x, y)]: NaN if either argument is NaN, and -0 counts as
    smaller than +0. *)
Definition Math_min (x y : float) : float :=
  if is_nan x || is_nan y then nan
  else if x <? y then x
  else if y <? x then y
  else if get_sign x then x else y.

(** [Math.max(x, y)]: NaN if either argument is NaN, and +0 counts as
    larger than -0. *)
Definition Math_max (x y : float) : float :=
  if is_nan x || is_nan y then nan
  else if y <? x then x
  else if x <? y then y
  else if get_sign x then y else x.

(** The number whose value is the integer [z]; exact for |z| < 2^53. *)
Definition of_Z (z : Z) : float :=
  if (z <? 0)%Z then - of_uint63 (Uint63.of_Z (- z)) else of_uint63 (Uint63.of_Z z).

(** [Math.floor(x)]: the largest integer not above [x]; NaN, the
    infinities and the zeros are returned as they are.  A finite
    binary64 value is [(-1)^s * m * 2^e] with [m < 2^53]. *)
Definition Math_floor (x : float) : float :=
  match Prim2SF x with
  | S754_finite s m e =>
      if (0 <=? e)%Z then x
      else of_Z (Z.shiftl (cond_Zopp s (Zpos m)) e)
  | _ => x
  end.

(** The integer part of a number, rounding towards zero; NaN and the
    infinities give 0 (the first step of [ToUint8] and [ToUint32]). *)
Definition truncate (x : float) : Z :=
  match Prim2SF x with
  | S754_finite s m e => cond_Zopp s (Z.shiftl (Zpos m) e)
  | _ => 0%Z
  end.

Definition ToUint8 (x : float) : Z := (truncate x mod 2 ^ 8)%Z.
Definition ToUint32 (x : float) : Z := (truncate x mod 2 ^ 32)%Z.

(** [x !== y] on numbers. *)
Definition strict_neq (x y : float) : bool := negb (x =? y).

(** The four ways [Math.max(-32768, Math.min(32767, y))] can go:
    [Clamped y r] relates [y] to the result [r]. *)
Inductive Clamped (y : float) : float -> Prop :=
| clamp_nan : is_nan y = true -> Clamped y nan
| clamp_high : (32767 <? y) = true -> Clamped y 32767
| clamp_low : (y <? -32768) = true -> Clamped y (-32768)
| clamp_keep : is_nan y = false -> (32767 <? y) = false ->
               (y <? -32768) = false -> Clamped y y.

End JS.

(** ** Node.js buffers *)

Inductive JsError : Type :=
| ERR_OUT_OF_RANGE
| ERR_BUFFER_OUT_OF_BOUNDS
| ExternalError (tag : string).

Definition Buffer : Type := list byte.

Module Buf.

(** [buf[i]], [undefined] out of range. *)
Definition get (buf : Buffer) (i : nat) : option byte := nth_error buf i.

(** [buf[i] = n] for a number already reduced by [ToUint8]; a store out
    of range is ignored by a typed array. *)
Fixpoint set (buf : Buffer) (i : nat) (b : byte) : Buffer :=
  match buf, i with
  | [], _ => []
  | _ :: tl, O => b :: tl
  | hd :: tl, S j => hd :: set tl j b
  end.

(** The signed 16-bit value of two bytes, low byte first. *)
Definition int16LE (first last : byte) : Z :=
  let val := byte.unsigned first + byte.unsigned last * 2 ^ 8 in
  if Z.testbit val 15 then val - 2 ^ 16 else val.

(** [boundsError(offset, buf.length - 2)] for an integer offset: a
    buffer shorter than two bytes is out of bounds, in a longer one the
    offset is out of range. *)
Definition boundsError (buf : Buffer) : JsError :=
  if (List.length buf <? 2)%nat then ERR_BUFFER_OUT_OF_BOUNDS else ERR_OUT_OF_RANGE.

(** [buf.readInt16LE(offset)]: both bytes must exist; the 16-bit value
    is sign-extended. *)
Definition readInt16LE (buf : Buffer) (offset : nat) : JsError + Z :=
  match get buf offset, get buf (offset + 1) with
  | Some first, Some last => inr (int16LE first last)
  | _, _ => inl (boundsError buf)
  end.

(** [buf.writeInt16LE(value, offset)]: [checkInt] refuses a value above
    [0x7fff] or below [-0x8000] (a NaN passes both comparisons), then
    both bytes must exist; [buf[offset] = value] stores the low byte
    and [buf[offset + 1] = value >>> 8] the high one. *)
Definition writeInt16LE (buf : Buffer) (value : float) (offset : nat) : JsError + Buffer :=
  if (32767 <? value)%float || (value <? -32768)%float then inl ERR_OUT_OF_RANGE
  else
    match get buf offset, get buf (offset + 1) with
    | Some _, Some _ =>
        let lo := byte.of_Z (JS.ToUint8 value) in
        let hi := byte.of_Z (Z.shiftr (JS.ToUint32 value) 8) in
        inr (set (set buf offset lo) (offset + 1) hi)
    | _, _ => inl (boundsError buf)
    end.

(** The 16-bit samples that a buffer of interleaved PCM data holds. *)
Fixpoint samples (buf : Buffer) : list Z :=
  match buf with
  | first :: last :: rest => int16LE first last :: samples rest
  | _ => []
  end.

End Buf.

(** ** AudioStream *)

(** What [_sendFrame] does to its collaborators, in program order. *)
Inductive Call : Type :=
| OpusDecode (frame : Buffer)
| OpusEncode (pcm : Buffer) (frameSize : Z)
| ConsoleError (prefix : string) (error : JsError)
| SendAudioFrame (frame : Buffer) (frametime : float)
| EmitPts (pts : float).

Definition is_send (c : Call) : bool :=
  match c with SendAudioFrame _ _ => true | _ => false end.

Definition is_codec (c : Call) : bool :=
  match c with OpusDecode _ | OpusEncode _ _ => true | _ => false end.

Definition is_log (c : Call) : bool :=
  match c with ConsoleError _ _ => true | _ => false end.

Module AudioStream.
Section Collaborators.

(** The OpusScript instance and the UDP transport are external: a call
    takes the collaborator's state and either throws or returns. *)
Variable Opus : Type.
Variable opus_decode : Opus -> Buffer -> Opus * (JsError + Buffer).
Variable opus_encode : Opus -> Buffer -> Z -> Opus * (JsError + Buffer).
Variable Udp : Type.
Variable sendAudioFrame : Udp -> Buffer -> float -> Udp * option JsError.

Record t : Type := mk {
  _isMuted : bool;
  _volume : float;
  _opusEncoder : Opus
}.

(** [constructor(udp, noSleep = false, initialMuted = false)]; the
    volume field is initialised to 1.0. *)
Definition create (opus : Opus) (initialMuted : bool) : t :=
  {| _isMuted := initialMuted; _volume := 1%float; _opusEncoder := opus |}.

Definition mute (this : t) : t :=
  {| _isMuted := true; _volume := _volume this; _opusEncoder := _opusEncoder this |}.

Definition unmute (this : t) : t :=
  {| _isMuted := false; _volume := _volume this; _opusEncoder := _opusEncoder this |}.

Definition isMuted (this : t) : bool := _isMuted this.

Definition setVolume (this : t) (volume : float) : t :=
  {| _isMuted := _isMuted this;
     _volume := if (volume <? 0)%float then 0%float else JS.Math_min volume 2%float;
     _opusEncoder := _opusEncoder this |}.

Definition getVolume (this : t) : float := _volume this.

(** [Math.max(-32768, Math.min(32767, Math.floor(sample * volume)))] *)
Definition newSample (volume : float) (sample : Z) : float :=
  JS.Math_max (-32768)%float
    (JS.Math_min 32767%float (JS.Math_floor (JS.of_Z sample * volume)%float)).

(** What the loop leaves in place of a sample: the 16-bit integer that
    [writeInt16LE] stores for [newSample]. *)
Definition storedSample (volume : float) (sample : Z) : Z :=
  JS.truncate (newSample volume sample).

(** The two bytes that replace a sample whose bytes are [first] and
    [last], and the whole buffer after the loop, two bytes at a time
    (a byte left over at the end is not reached). *)
Definition lowByte (volume : float) (first last : byte) : byte :=
  byte.of_Z (JS.ToUint8 (newSample volume (Buf.int16LE first last))).

Definition highByte (volume : float) (first last : byte) : byte :=
  byte.of_Z (Z.shiftr (JS.ToUint32 (newSample volume (Buf.int16LE first last))) 8).

Fixpoint scaledPcm (volume : float) (pcm : Buffer) : Buffer :=
  match pcm with
  | first :: last :: rest =>
      lowByte volume first last :: highByte volume first last :: scaledPcm volume rest
  | _ => pcm
  end.

(** One iteration of the loop over the decoded PCM data. *)
Definition scaleAt (volume : float) (pcmData : Buffer) (i : nat) : JsError + Buffer :=
  match Buf.readInt16LE pcmData i with
  | inl e => inl e
  | inr sample => Buf.writeInt16LE pcmData (newSample volume sample) i
  end.

(** The offsets [0, 2, 4, ...] below [len] that the loop visits; the
    length of a buffer never changes. *)
Definition offsets (len : nat) : list nat :=
  map (fun k => 2 * k)%nat (seq 0 (Nat.div2 (S len))).

(** [for (let i = 0; i < pcmData.length; i += 2) ...]: the first
    exception ends the loop. *)
Definition scaleSamples (volume : float) (pcmData : Buffer) : JsError + Buffer :=
  fold_left
    (fun acc i => match acc with inl e => inl e | inr buf => scaleAt volume buf i end)
    (offsets (List.length pcmData)) (inr pcmData).

(** The [try] block: decode, scale in place, encode with frame size
    960.  Returns the codec state, the calls made and what the block
    produced or threw. *)
Definition processFrame (this : t) (frame : Buffer)
  : Opus * list Call * (JsError + Buffer) :=
  let (o1, decoded) := opus_decode (_opusEncoder this) frame in
  match decoded with
  | inl e => (o1, [OpusDecode frame], inl e)
  | inr pcmData =>
      match scaleSamples (_volume this) pcmData with
      | inl e => (o1, [OpusDecode frame], inl e)
      | inr scaled =>
          let (o2, encoded) := opus_encode o1 scaled 960 in
          (o2, [OpusDecode frame; OpusEncode scaled 960], encoded)
      end
  end.

(** The ways the [try] block throws [e]: in [decode], in the loop, or
    in [encode]. *)
Inductive ProcessingFault (this : t) (frame : Buffer) (e : JsError) : Prop :=
| decode_throws (o : Opus) :
    opus_decode (_opusEncoder this) frame = (o, inl e) ->
    ProcessingFault this frame e
| scaling_throws (o : Opus) (pcmData : Buffer) :
    opus_decode (_opusEncoder this) frame = (o, inr pcmData) ->
    scaleSamples (_volume this) pcmData = inl e ->
    ProcessingFault this frame e
| encode_throws (o1 o2 : Opus) (pcmData scaled : Buffer) :
    opus_decode (_opusEncoder this) frame = (o1, inr pcmData) ->
    scaleSamples (_volume this) pcmData = inr scaled ->
    opus_encode o1 scaled 960 = (o2, inl e) ->
    ProcessingFault this frame e.

Record Outcome : Type := {
  stream : t;
  transport : Udp;
  calls : list Call;
  thrown : option JsError
}.

Definition with_opus (this : t) (o : Opus) : t :=
  {| _isMuted := _isMuted this; _volume := _volume this; _opusEncoder := o |}.

Definition _sendFrame (this : t) (udp : Udp) (frame : Buffer) (frametime : float)
  : Outcome :=
  if _isMuted this then
    {| stream := this; transport := udp; calls := []; thrown := None |}
  else
    let '(this1, log, processedFrame) :=
      if JS.strict_neq (_volume this) 1%float then
        match processFrame this frame with
        | (o, log, inr processed) => (with_opus this o, log, processed)
        | (o, log, inl error) =>
            (with_opus this o,
             log ++ [ConsoleError "[AudioStream] Error processing audio frame:"%string error],
             frame)
        end
      else (this, [], frame) in
    let (udp1, failure) := sendAudioFrame udp processedFrame frametime in
    {| stream := this1; transport := udp1;
       calls := log ++ [SendAudioFrame processedFrame frametime];
       thrown := failure |}.

(** *** The paced stream around [_sendFrame] *)

Inductive StreamState : Type := Active | Finished | Errored.

Record Paced : Type := {
  state : StreamState;
  virtual_clock : float;
  audio : t
}.

(** Modelled from the spec: the base class [BaseMediaStream] (its
    [_write], clock and terminal states) is not among the sources.
    Section 4.1, steps 4 to 7: the payload is dispatched through the
    role's send hook; after a successful dispatch the virtual clock
    advances by the frametime and a [pts] notification is emitted; a
    dispatch failure moves the stream to [Errored]; a stream in a
    terminal state accepts no further frame.  The pacing delay and the
    partner wait (steps 2 and 3) are real-time suspensions and have no
    counterpart here. *)
Definition dispatch (p : Paced) (udp : Udp) (payload : Buffer) (pts frametime : float)
  : Paced * Udp * list Call :=
  match state p with
  | Active =>
      let o := _sendFrame (audio p) udp payload frametime in
      match thrown o with
      | None =>
          ({| state := Active;
              virtual_clock := (virtual_clock p + frametime)%float;
              audio := stream o |},
           transport o, calls o ++ [EmitPts pts])
      | Some _ =>
          ({| state := Errored; virtual_clock := virtual_clock p; audio := stream o |},
           transport o, calls o)
      end
  | _ => (p, udp, [])
  end.

End Collaborators.

Arguments mk {Opus}.
Arguments Build_Paced {Opus}.
Arguments _isMuted {Opus}.
Arguments _volume {Opus}.
Arguments _opusEncoder {Opus}.
Arguments create {Opus}.
Arguments mute {Opus}.
Arguments unmute {Opus}.
Arguments isMuted {Opus}.
Arguments setVolume {Opus}.
Arguments getVolume {Opus}.
Arguments with_opus {Opus}.
Arguments stream {Opus Udp}.
Arguments transport {Opus Udp}.
Arguments calls {Opus Udp}.
Arguments thrown {Opus Udp}.
Arguments state {Opus}.
Arguments virtual_clock {Opus}.
Arguments audio {Opus}.

End AudioStream.

(** Stand-ins for the collaborators, to run the model on examples: a
    codec whose PCM data is the frame itself and which counts its calls,
    one whose decoder always throws, and a transport that records what
    it is given. *)
Module Demo.

Definition decode (n : nat) (frame : Buffer) : nat * (JsError + Buffer) :=
  (S n, inr frame).

Definition encode (n : nat) (pcm : Buffer) (frameSize : Z) : nat * (JsError + Buffer) :=
  (S n, inr pcm).

Definition broken_decode (n : nat) (frame : Buffer) : nat * (JsError + Buffer) :=
  (S n, inl (ExternalError "corrupted stream")).

Definition send (sent : list Buffer) (frame : Buffer) (frametime : float)
  : list Buffer * option JsError :=
  (frame :: sent, None).

Definition sendFrame := AudioStream._sendFrame nat decode encode (list Buffer) send.
Definition sendFrame_broken := AudioStream._sendFrame nat broken_decode encode (list Buffer) send.

Definition stream (muted : bool) (volume : float) : AudioStream.t nat :=
  AudioStream.mk muted volume O.

(** Three samples, low byte first: 20000, -32768 and -1. *)
Definition frame : Buffer :=
  [Byte.x20; Byte.x4e; Byte.x00; Byte.x80; Byte.xff; Byte.xff].

End Demo.

(** ** playStream *)

Module PlayStream.

(** *** Values, signals and promises *)

(** Rejection reasons and errors as far as [!==] tells them apart:
    [undefined], numbers, the [AbortError] that [abort()] makes when it
    is given no reason, and object references. *)
Inductive Value : Type :=
| VUndefined
| VNumber (x : float)
| VAbortError
| VObject (ref : nat).

Definition strict_eq (a b : Value) : bool :=
  match a, b with
  | VUndefined, VUndefined => true
  | VNumber x, VNumber y => (x =? y)%float
  | VAbortError, VAbortError => true
  | VObject r, VObject r' => Nat.eqb r r'
  | _, _ => false
  end.

(** An [AbortSignal] is idle, with [reason] undefined, until it is
    aborted; then [aborted] is true and [reason] is set for good. *)
Inductive AbortSignal : Type :=
| Idle
| AbortedWith (why : Value).

Definition aborted (sig : AbortSignal) : bool :=
  match sig with Idle => false | AbortedWith _ => true end.

Definition reason (sig : AbortSignal) : Value :=
  match sig with Idle => VUndefined | AbortedWith why => why end.

(** [cancelSignal?.aborted] and [cancelSignal?.reason] *)
Definition opt_aborted (g : option AbortSignal) : bool :=
  match g with Some sig => aborted sig | None => false end.

Definition opt_reason (g : option AbortSignal) : Value :=
  match g with Some sig => reason sig | None => VUndefined end.

Inductive Promise : Type :=
| Pending
| Fulfilled
| Rejected (err : Value).

(** [resolve()] and [reject(err)] settle a pending promise and do
    nothing to a settled one. *)
Definition resolve (p : Promise) : Promise :=
  match p with Pending => Fulfilled | _ => p end.

Definition reject (p : Promise) (err : Value) : Promise :=
  match p with Pending => Rejected err | _ => p end.

(** *** The functions pushed on [cleanupFuncs] *)

Inductive CleanupFunc : Type :=
| StopTransport     (* stopStream(); setSpeaking(false); setVideoAttributes(false) *)
| FreeDecoder       (* logger.debug("Freeing decoder"); decoder.free() *)
| DetachPreview.    (* video.stream.off("data", updatePreview) *)

Definition CleanupFunc_eqb (a b : CleanupFunc) : bool :=
  match a, b with
  | StopTransport, StopTransport | FreeDecoder, FreeDecoder
  | DetachPreview, DetachPreview => true
  | _, _ => false
  end.

(** *** What a session does, in program order *)

Inductive Effect : Type :=
| Invoke (f : CleanupFunc)          (* [f()] in the loop of [cleanup] *)
| CreateStream                      (* streamer.createStream() *)
| StopStream                        (* streamer.stopStream() *)
| Delay (ms : Z)
| SetPacketizer
| SetSpeaking (on : bool)           (* udp.mediaConnection.setSpeaking *)
| SetVideoAttributes (on : bool)    (* udp.mediaConnection.setVideoAttributes *)
| ConsoleLog (msg : string)
| OnPts                             (* vStream.on("pts", stopBurst) *)
| OffPts                            (* vStream.off("pts", stopBurst) *)
| LoggerDebug (msg : string)
| DecoderFree                       (* decoder.free() *)
| OnData                            (* video.stream.on("data", updatePreview) *)
| OffData                           (* video.stream.off("data", updatePreview) *)
| LoggerWarn (msg : string)
| LoggerError (err : Value).

Definition Effect_eqb (a b : Effect) : bool :=
  match a, b with
  | CreateStream, CreateStream | StopStream, StopStream
  | SetPacketizer, SetPacketizer | OnPts, OnPts | OffPts, OffPts
  | DecoderFree, DecoderFree | OnData, OnData | OffData, OffData => true
  | Delay x, Delay y => Z.eqb x y
  | SetSpeaking x, SetSpeaking y | SetVideoAttributes x, SetVideoAttributes y => Bool.eqb x y
  | ConsoleLog x, ConsoleLog y | LoggerDebug x, LoggerDebug y
  | LoggerWarn x, LoggerWarn y => String.eqb x y
  | LoggerError x, LoggerError y => strict_eq x y
  | Invoke f, Invoke g => CleanupFunc_eqb f g
  | _, _ => false
  end.

(** How many times an effect occurs in a log. *)
Definition occurrences (e : Effect) (log : list Effect) : nat :=
  List.length (filter (Effect_eqb e) log).

(** [stopStream = () => console.log("Aborted")]; the assignment of
    [streamer.stopStream()] is commented out in the source. *)
Definition stopStream : list Effect := [ConsoleLog "Aborted"].

(** The body of each cleanup function. *)
Definition body (f : CleanupFunc) : list Effect :=
  match f with
  | StopTransport => stopStream ++ [SetSpeaking false; SetVideoAttributes false]
  | FreeDecoder => [LoggerDebug "Freeing decoder"; DecoderFree]
  | DetachPreview => [OffData]
  end.

(** [f()] *)
Definition call (f : CleanupFunc) : list Effect := Invoke f :: body f.

(** *** Options *)

Record Options : Type := {
  type : option string;
  readrateInitialBurst : option float;
  streamPreview : option bool
}.

(** Modelled from the spec: [isFiniteNonZero] comes from [utils.ts],
    which is not among the sources; by its name, its type guard
    ([n is number]) and its use next to [> 0] it holds of the numbers
    that are neither [undefined], nor zero, nor NaN, nor infinite (the
    burst is "enabled only when a finite ... duration is
    configured"). *)
Definition isFiniteNonZero (n : option float) : bool :=
  match n with
  | None => false
  | Some x => negb (is_zero x) && is_finite x
  end.

Record MergedOptions : Type := {
  m_type : string;
  m_readrateInitialBurst : option float;
  m_streamPreview : bool
}.

Definition mergeOptions (opts : Options) : MergedOptions :=
  {| m_type := match type opts with Some t => t | None => "go-live"%string end;
     m_readrateInitialBurst :=
       match readrateInitialBurst opts with
       | Some x =>
           if isFiniteNonZero (Some x) && (0 <? x)%float then Some x else None
       | None => None
       end;
     m_streamPreview := match streamPreview opts with Some b => b | None => false end |}.

(** *** The session *)

(** The two pacing switches of a stream ([BaseMediaStream]). *)
Record StreamFlags : Type := {
  sync : bool;
  noSleep : bool
}.

(** The [once] listeners that are still attached. *)
Record Listeners : Type := {
  onAbort : bool;        (* cancelSignal "abort", { once: true } *)
  onFinish : bool;       (* vStream.once("finish") *)
  onVideoError : bool;   (* vStream.once("error") *)
  onAudioError : bool    (* audio.stream.once("error") *)
}.

Record Session : Type := {
  cancelSignal : option AbortSignal;
  vStream : StreamFlags;
  audioStreamInstance : option StreamFlags;
  stopBurst : option float;          (* [Some burstTime] while subscribed to "pts" *)
  previewPending : bool;             (* the preview task awaits [createDecoder] *)
  cleanupFuncs : list CleanupFunc;
  cleanedUp : bool;
  listeners : Listeners;
  streamPromise : Promise;           (* the promise built by [new Promise] *)
  done : Promise                     (* the one returned: [.catch(...)] of it *)
}.

(** What [playStream] finds when it is called, and what happens to
    the signal while it waits.  The constructors of [VideoStream] and
    [BaseMediaStream] are not among the sources: the switches a new
    stream starts with are inputs. *)
Record Env : Type := {
  env_cancelSignal : option AbortSignal;  (* the signal as it is at the call *)
  voiceConnection : bool;
  video : bool;                      (* the demuxer found a video stream *)
  audio : bool;                      (* the demuxer found an audio stream *)
  existingUdp : bool;
  new_VideoStream : StreamFlags;     (* the flags [new VideoStream(udp)] starts with *)
  new_AudioStream : StreamFlags;     (* the flags [new AudioStream(udp, false, m)] starts with *)
  abortWhileDemuxing : option Value; (* [abort(r)] during [await demux(input)] *)
  abortWhileConnecting : option Value
                                     (* [abort(r)] during [await createStream()]
                                        or [await delay(250)] *)
}.

(** [abort(r)] sets the reason [r], or an [AbortError] when [r] is
    [undefined]. *)
Definition abortReason (r : Value) : Value :=
  match r with VUndefined => VAbortError | _ => r end.

(** The signal after its controller may have aborted: a signal aborts
    once and keeps its reason. *)
Definition fire (g : option AbortSignal) (abort : option Value) : option AbortSignal :=
  match g, abort with
  | Some Idle, Some r => Some (AbortedWith (abortReason r))
  | _, _ => g
  end.

(** The signal when [demux] has returned, and when the transport is
    ready and the listeners are attached. *)
Definition signalAfterDemux (env : Env) : option AbortSignal :=
  fire (env_cancelSignal env) (abortWhileDemuxing env).

Definition signalAtReturn (env : Env) : option AbortSignal :=
  fire (signalAfterDemux env) (abortWhileConnecting env).

Inductive Thrown : Type :=
| ThrowReason (reason : Value)       (* cancelSignal.throwIfAborted() *)
| ThrowError (msg : string).

(** [playStream], from its preconditions to the promise it returns.
    The result is the session as it stands when the function returns,
    with the calls made on the transport so far.  The signal is read
    where the code reads it: by the two [throwIfAborted], before and
    after [await demux(input)], and then by the listeners only; a
    signal that fires while [playStream] awaits the transport does not
    stop the setup, and the session is returned with its "abort"
    listener attached to a signal that has already fired.  The sizes
    and the frame rate of the merged options, which only go into
    [setVideoAttributes], are left out. *)
Definition playStream (env : Env) (options : Options) : Thrown + (Session * list Effect) :=
  if opt_aborted (env_cancelSignal env) then
    inl (ThrowReason (opt_reason (env_cancelSignal env)))
  else if negb (voiceConnection env) then
    inl (ThrowError "Bot is not connected to a voice channel")
  else if opt_aborted (signalAfterDemux env) then
    inl (ThrowReason (opt_reason (signalAfterDemux env)))
  else if negb (video env) then
    inl (ThrowError "No video stream in media")
  else
    let mergedOptions := mergeOptions options in
    let transportSetup :=
      (if existingUdp env
       then [SetSpeaking false; SetVideoAttributes false; Delay 250]
       else [CreateStream])
      ++ [SetPacketizer; SetSpeaking true; SetVideoAttributes true] in
    let burst :=
      if audio env then m_readrateInitialBurst mergedOptions else None in
    let inBurst := match burst with Some _ => true | None => false end in
    let vFlags :=
      if inBurst then {| sync := false; noSleep := true |} else new_VideoStream env in
    let aFlags :=
      if audio env then
        Some (if inBurst
              then {| sync := sync (new_AudioStream env); noSleep := true |}
              else new_AudioStream env)
      else None in
    inr ({| cancelSignal := signalAtReturn env;
            vStream := vFlags;
            audioStreamInstance := aFlags;
            stopBurst := burst;
            previewPending :=
              m_streamPreview mergedOptions && String.eqb (m_type mergedOptions) "go-live";
            cleanupFuncs := [StopTransport];
            cleanedUp := false;
            listeners :=
              {| onAbort := match env_cancelSignal env with Some _ => true | None => false end;
                 onFinish := true;
                 onVideoError := true;
                 onAudioError := audio env |};
            streamPromise := Pending;
            done := Pending |},
         transportSetup ++ (if inBurst then [OnPts] else [])).

(** *** Event handlers *)

Definition with_cancelSignal (s : Session) (g : option AbortSignal) : Session :=
  {| cancelSignal := g; vStream := vStream s;
     audioStreamInstance := audioStreamInstance s; stopBurst := stopBurst s;
     previewPending := previewPending s; cleanupFuncs := cleanupFuncs s;
     cleanedUp := cleanedUp s; listeners := listeners s;
     streamPromise := streamPromise s; done := done s |}.

Definition with_burst (s : Session) (v : StreamFlags) (a : option StreamFlags)
    (sb : option float) : Session :=
  {| cancelSignal := cancelSignal s; vStream := v;
     audioStreamInstance := a; stopBurst := sb;
     previewPending := previewPending s; cleanupFuncs := cleanupFuncs s;
     cleanedUp := cleanedUp s; listeners := listeners s;
     streamPromise := streamPromise s; done := done s |}.

Definition with_preview (s : Session) (pending : bool) (fs : list CleanupFunc) : Session :=
  {| cancelSignal := cancelSignal s; vStream := vStream s;
     audioStreamInstance := audioStreamInstance s; stopBurst := stopBurst s;
     previewPending := pending; cleanupFuncs := fs;
     cleanedUp := cleanedUp s; listeners := listeners s;
     streamPromise := streamPromise s; done := done s |}.

Definition with_cleanedUp (s : Session) (b : bool) : Session :=
  {| cancelSignal := cancelSignal s; vStream := vStream s;
     audioStreamInstance := audioStreamInstance s; stopBurst := stopBurst s;
     previewPending := previewPending s; cleanupFuncs := cleanupFuncs s;
     cleanedUp := b; listeners := listeners s;
     streamPromise := streamPromise s; done := done s |}.

Definition with_listeners (s : Session) (l : Listeners) : Session :=
  {| cancelSignal := cancelSignal s; vStream := vStream s;
     audioStreamInstance := audioStreamInstance s; stopBurst := stopBurst s;
     previewPending := previewPending s; cleanupFuncs := cleanupFuncs s;
     cleanedUp := cleanedUp s; listeners := l;
     streamPromise := streamPromise s; done := done s |}.

Definition with_streamPromise (s : Session) (p : Promise) : Session :=
  {| cancelSignal := cancelSignal s; vStream := vStream s;
     audioStreamInstance := audioStreamInstance s; stopBurst := stopBurst s;
     previewPending := previewPending s; cleanupFuncs := cleanupFuncs s;
     cleanedUp := cleanedUp s; listeners := listeners s;
     streamPromise := p; done := done s |}.

Definition with_done (s : Session) (p : Promise) : Session :=
  {| cancelSignal := cancelSignal s; vStream := vStream s;
     audioStreamInstance := audioStreamInstance s; stopBurst := stopBurst s;
     previewPending := previewPending s; cleanupFuncs := cleanupFuncs s;
     cleanedUp := cleanedUp s; listeners := listeners s;
     streamPromise := streamPromise s; done := p |}.

(** [cleanup]: guarded by the [cleanedUp] flag, calls every function
    of the list in order. *)
Definition cleanup (s : Session) : Session * list Effect :=
  if cleanedUp s then (s, [])
  else (with_cleanedUp s true, flat_map call (cleanupFuncs s)).

(** The "abort" listener: [cleanup(); reject(cancelSignal.reason)] *)
Definition abortListener (s : Session) : Session * list Effect :=
  let (s1, log) := cleanup s in
  (with_streamPromise s1 (reject (streamPromise s1) (opt_reason (cancelSignal s1))), log).

(** The "finish" listener of the video stream. *)
Definition finishListener (s : Session) : Session * list Effect :=
  if opt_aborted (cancelSignal s) then (s, [])
  else
    let (s1, log) := cleanup s in
    (with_streamPromise s1 (resolve (streamPromise s1)), log).

(** The "error" listeners of the video stream and of the audio source. *)
Definition errorListener (s : Session) (err : Value) : Session * list Effect :=
  if opt_aborted (cancelSignal s) then (s, [])
  else
    let (s1, log) := cleanup s in
    (with_streamPromise s1 (reject (streamPromise s1) err), log).

(** The "pts" listener [stopBurst] installed for the burst time [burstTime]. *)
Definition stopBurstListener (s : Session) (burstTime pts : float)
  : Session * list Effect :=
  if (pts <? burstTime * 1000)%float then (s, [])
  else
    (with_burst s
       {| sync := true;
          noSleep := match audioStreamInstance s with
                     | Some _ => false
                     | None => noSleep (vStream s)
                     end |}
       (match audioStreamInstance s with
        | Some a => Some {| sync := sync a; noSleep := false |}
        | None => None
        end)
       None,
     [OffPts]).

(** The handler passed to [.catch]: logs unless the signal is aborted,
    rethrows unless the error is the signal's reason. *)
Definition catchHandler (g : option AbortSignal) (err : Value) : Promise * list Effect :=
  ((if negb (strict_eq err (opt_reason g)) then Rejected err else Fulfilled),
   (if negb (opt_aborted g) then [LoggerError err] else [])).

(** The reaction of the returned promise once [streamPromise] is
    settled: a job that runs when the turn ends, after every listener
    of the turn, and reads the signal as it is then. *)
Definition microtask (s : Session) : Session * list Effect :=
  match done s, streamPromise s with
  | Pending, Fulfilled => (with_done s Fulfilled, [])
  | Pending, Rejected err =>
      let (p, log) := catchHandler (cancelSignal s) err in
      (with_done s p, log)
  | _, _ => (s, [])
  end.

(** *** Events *)

Inductive Event : Type :=
| Abort (reason : Value)      (* the controller of [cancelSignal] aborts *)
| VideoFinish                 (* [vStream] emits "finish" *)
| VideoError (err : Value)    (* [vStream] emits "error" *)
| AudioError (err : Value)    (* [audio.stream] emits "error" *)
| Pts (pts : float)           (* [vStream] emits "pts" *)
| DecoderReady (ok : bool)    (* [createDecoder] settles in the preview task *)
| AudioStreamError (err : Value)
                              (* [audioStreamInstance] emits "error": [playStream]
                                 attaches no listener to it *)
| EndOfTurn.                  (* the call stack is empty: the promise jobs run *)

Definition detach_abort (l : Listeners) : Listeners :=
  {| onAbort := false; onFinish := onFinish l;
     onVideoError := onVideoError l; onAudioError := onAudioError l |}.

Definition detach_finish (l : Listeners) : Listeners :=
  {| onAbort := onAbort l; onFinish := false;
     onVideoError := onVideoError l; onAudioError := onAudioError l |}.

Definition detach_videoError (l : Listeners) : Listeners :=
  {| onAbort := onAbort l; onFinish := onFinish l;
     onVideoError := false; onAudioError := onAudioError l |}.

Definition detach_audioError (l : Listeners) : Listeners :=
  {| onAbort := onAbort l; onFinish := onFinish l;
     onVideoError := onVideoError l; onAudioError := false |}.

(** The listeners that an event reaches; a [once] listener is detached
    before it runs.  An [AbortSignal] aborts once. *)
Definition deliver (s : Session) (ev : Event) : Session * list Effect :=
  match ev with
  | Abort r =>
      match cancelSignal s with
      | Some sig =>
          if aborted sig then (s, [])
          else
            let s1 := with_cancelSignal s (Some (AbortedWith (abortReason r))) in
            if onAbort (listeners s1)
            then abortListener (with_listeners s1 (detach_abort (listeners s1)))
            else (s1, [])
      | None => (s, [])
      end
  | VideoFinish =>
      if onFinish (listeners s)
      then finishListener (with_listeners s (detach_finish (listeners s)))
      else (s, [])
  | VideoError err =>
      if onVideoError (listeners s)
      then errorListener (with_listeners s (detach_videoError (listeners s))) err
      else (s, [])
  | AudioError err =>
      if onAudioError (listeners s)
      then errorListener (with_listeners s (detach_audioError (listeners s))) err
      else (s, [])
  | Pts pts =>
      match stopBurst s with
      | Some burstTime => stopBurstListener s burstTime pts
      | None => (s, [])
      end
  | DecoderReady ok =>
      if previewPending s then
        if ok
        then (with_preview s false (cleanupFuncs s ++ [FreeDecoder; DetachPreview]), [OnData])
        else (with_preview s false (cleanupFuncs s),
              [LoggerWarn "Failed to initialize decoder. Stream preview will be disabled"])
      else (s, [])
  | AudioStreamError _ => (s, [])
  | EndOfTurn => (s, [])
  end.

(** One event: its listeners run to completion; the reaction of the
    returned promise waits for the end of the turn, so that several
    events of one turn are all delivered before it runs. *)
Definition step (s : Session) (ev : Event) : Session * list Effect :=
  match ev with
  | EndOfTurn => microtask s
  | _ => deliver s ev
  end.

Fixpoint run (s : Session) (evs : list Event) : Session * list Effect :=
  match evs with
  | [] => (s, [])
  | ev :: rest =>
      let (s1, log1) := step s ev in
      let (s2, log2) := run s1 rest in
      (s2, log1 ++ log2)
  end.

Definition final (s : Session) (evs : list Event) : Session := fst (run s evs).
Definition effects (s : Session) (evs : list Event) : list Effect := snd (run s evs).

(** The events that are no terminal trigger. *)
Definition quiet (ev : Event) : bool :=
  match ev with
  | Pts _ | DecoderReady _ | AudioStreamError _ | EndOfTurn => true
  | _ => false
  end.

(** The terminal triggers a session listens to.  A session whose
    signal fired before the listeners were attached has none: its
    "abort" event is not dispatched again and its other listeners
    return at once. *)
Definition trigger (env : Env) (ev : Event) : bool :=
  negb (opt_aborted (signalAtReturn env))
  && match ev with
     | Abort _ => match env_cancelSignal env with Some _ => true | None => false end
     | VideoFinish | VideoError _ => true
     | AudioError _ => audio env
     | _ => false
     end.

(** The events of one turn: whatever is delivered before the jobs run. *)
Definition sameTurn (ev : Event) : bool :=
  match ev with EndOfTurn => false | _ => true end.

(** The signal after a sequence of events. *)
Definition signalAfter (g : option AbortSignal) (evs : list Event) : option AbortSignal :=
  fold_left (fun sig ev => match ev with Abort r => fire sig (Some r) | _ => sig end)
    evs g.

(** *** Vocabulary of the properties *)

(** The effects that only cleanup functions have. *)
Definition is_teardown (e : Effect) : bool :=
  match e with
  | Invoke _ | StopStream | ConsoleLog _ | SetSpeaking false
  | SetVideoAttributes false | LoggerDebug _ | DecoderFree | OffData => true
  | _ => false
  end.

Definition teardown (log : list Effect) : list Effect := filter is_teardown log.

(** The list of cleanup functions is the one registered by the
    promise executor, followed by those of the preview task once its
    decoder is ready. *)
Definition registered (s : Session) : Prop :=
  cleanupFuncs s = [StopTransport]
  \/ (previewPending s = false
      /\ cleanupFuncs s = [StopTransport; FreeDecoder; DetachPreview]).

(** The listeners [playStream] attaches. *)
Definition armed (env : Env) : Listeners :=
  {| onAbort := match env_cancelSignal env with Some _ => true | None => false end;
     onFinish := true;
     onVideoError := true;
     onAudioError := audio env |}.

(** A session that no terminal trigger has reached yet. *)
Definition pristine (env : Env) (s : Session) : Prop :=
  cancelSignal s = env_cancelSignal env
  /\ opt_aborted (cancelSignal s) = false
  /\ cleanedUp s = false
  /\ listeners s = armed env
  /\ streamPromise s = Pending
  /\ done s = Pending.

(** The pacing switches and the subscription of [stopBurst]. *)
Definition burstView (s : Session) : StreamFlags * option StreamFlags * option float :=
  (vStream s, audioStreamInstance s, stopBurst s).

(** An event that is not a "pts" notification at or past the
    threshold of the burst time [T]. *)
Definition below (T : float) (ev : Event) : bool :=
  match ev with
  | Pts pts => (pts <? T * 1000)%float
  | _ => true
  end.

(** Example inputs. *)
Definition freshFlags : StreamFlags := {| sync := true; noSleep := false |}.

Definition demoEnv (withAudio : bool) : Env :=
  {| env_cancelSignal := Some Idle;
     voiceConnection := true;
     video := true;
     audio := withAudio;
     existingUdp := false;
     new_VideoStream := freshFlags;
     new_AudioStream := freshFlags;
     abortWhileDemuxing := None;
     abortWhileConnecting := None |}.

(** The same call, but the signal fires with reason [why] while
    [playStream] awaits the transport. *)
Definition lateEnv (why : Value) : Env :=
  {| env_cancelSignal := Some Idle;
     voiceConnection := true;
     video := true;
     audio := true;
     existingUdp := false;
     new_VideoStream := freshFlags;
     new_AudioStream := freshFlags;
     abortWhileDemuxing := None;
     abortWhileConnecting := Some why |}.

Definition demoOptions : Options :=
  {| type := None; readrateInitialBurst := Some 5%float; streamPreview := Some true |}.

Definition demoSetup (withAudio : bool) : list Effect :=
  [CreateStream; SetPacketizer; SetSpeaking true; SetVideoAttributes true]
  ++ (if withAudio then [OnPts] else []).

Definition demoSession (withAudio : bool) : Session :=
  {| cancelSignal := Some Idle;
     vStream := if withAudio then {| sync := false; noSleep := true |} else freshFlags;
     audioStreamInstance :=
       if withAudio then Some {| sync := true; noSleep := true |} else None;
     stopBurst := if withAudio then Some 5%float else None;
     previewPending := true;
     cleanupFuncs := [StopTransport];
     cleanedUp := false;
     listeners := armed (demoEnv withAudio);
     streamPromise := Pending;
     done := Pending |}.

Definition lateSession (why : Value) : Session :=
  with_cancelSignal (demoSession true) (Some (AbortedWith (abortReason why))).

(** *** Proof automation: case analysis of one step *)

Ltac unfold_step :=
  unfold step, deliver, abortListener, finishListener, errorListener,
    stopBurstListener, cleanup, microtask, catchHandler, resolve, reject.

Ltac split_cases :=
  repeat (cbn [fst snd cancelSignal vStream audioStreamInstance stopBurst
               previewPending cleanupFuncs cleanedUp listeners streamPromise done
               with_cancelSignal with_burst with_preview with_cleanedUp
               with_listeners with_streamPromise with_done
               onAbort onFinish onVideoError onAudioError
               detach_abort detach_finish detach_videoError detach_audioError
               resolve reject opt_aborted opt_reason aborted reason abortReason] in *;
          match goal with
          | |- context [match ?x with _ => _ end] =>
              lazymatch x with
              | context [match _ with _ => _ end] => fail
              | _ => destruct x eqn:?
              end
          end).

Ltac step_cases := unfold_step; split_cases.

End PlayStream.


(** ** The audio controller *)

(** [playStream] hands the [AudioStream] out as an [AudioController]:
    the calls a user can make on it, and a history of such calls. *)
Module AudioController.

Inductive Request : Type :=
| Mute
| Unmute
| SetVolume (volume : float).

Definition handle {Opus : Type} (this : AudioStream.t Opus) (r : Request)
  : AudioStream.t Opus :=
  match r with
  | Mute => AudioStream.mute this
  | Unmute => AudioStream.unmute this
  | SetVolume volume => AudioStream.setVolume this volume
  end.

Definition handleAll {Opus : Type} (this : AudioStream.t Opus) (rs : list Request)
  : AudioStream.t Opus :=
  fold_left handle rs this.

Definition is_setVolume (r : Request) : bool :=
  match r with SetVolume _ => true | _ => false end.

(** A request that does not pass NaN to [setVolume]. *)
Definition is_number (r : Request) : bool :=
  match r with SetVolume volume => negb (is_nan volume) | _ => true end.

(** A number that is a zero or NaN. *)
Definition zero_or_nan (y : float) : Prop :=
  Prim2SF y = S754_nan \/ exists s, Prim2SF y = S754_zero s.

End AudioController.

(** ** Reading a session's trace *)

Module SessionLog.

Import PlayStream.



(** The calls of [logger.error]. *)
Definition is_LoggerError (e : Effect) : bool :=
  match e with LoggerError _ => true | _ => false end.

(** The calls of [setSpeaking] and [setVideoAttributes], and the flag
    that the last call of each kind left on the connection, if any. *)
Definition is_flag (e : Effect) : bool :=
  match e with SetSpeaking _ | SetVideoAttributes _ => true | _ => false end.

Definition lastFlag (select : Effect -> option bool) (log : list Effect) : option bool :=
  fold_left (fun flag e => match select e with Some on => Some on | None => flag end)
    log None.

Definition speaking : list Effect -> option bool :=
  lastFlag (fun e => match e with SetSpeaking on => Some on | _ => None end).

Definition videoAttributes : list Effect -> option bool :=
  lastFlag (fun e => match e with SetVideoAttributes on => Some on | _ => None end).

(** Whether [playStream] arms the burst: there is an audio stream and
    the configured duration passes the test [> 0] of [mergeOptions]. *)
Definition burstRequested (env : Env) (options : Options) : bool :=
  audio env
  && match readrateInitialBurst options with
     | Some burstTime => (0 <? burstTime)%float
     | None => false
     end.

End SessionLog.

(** ** prepareStream *)

Module PrepareStream.

(** *** Strings, numbers and objects *)

(** [s.startsWith(p)] and [s.includes(p)] *)
Definition startsWith (s p : string) : bool := String.prefix p s.

Definition includes (s p : string) : bool :=
  match String.index 0 p s with Some _ => true | None => false end.

(** A number in a condition: zero and NaN are falsy. *)
Definition truthy (x : float) : bool := negb (is_zero x || is_nan x).

(** [Math.round(x)]: the integer nearest to [x], a tie going up; a
    result of zero keeps the sign of [x]. *)
Definition Math_round (x : float) : float :=
  match Prim2SF x with
  | S754_finite s m e =>
      if 0 <=? e then x
      else
        let n := Z.shiftl (2 * cond_Zopp s (Zpos m) + 2 ^ (- e)) (e - 1) in
        if (n =? 0) && s then neg_zero else JS.of_Z n
  | _ => x
  end.

(** An object whose keys are header names, as the list of its
    properties in the order they were created. *)
Definition Headers : Type := list (string * string).

(** [obj[k] = v] *)
Fixpoint assign (obj : Headers) (k v : string) : Headers :=
  match obj with
  | [] => [(k, v)]
  | (k', v') :: rest =>
      if String.eqb k k' then (k', v) :: rest else (k', v') :: assign rest k v
  end.

(** [obj[k]] *)
Fixpoint valueOf (obj : Headers) (k : string) : option string :=
  match obj with
  | [] => None
  | (k', v) :: rest => if String.eqb k k' then Some v else valueOf rest k
  end.

(** The decimal digits of [s] read as a number, after the digits
    already read. *)
Fixpoint digits (s : string) (acc : N) : option N :=
  match s with
  | EmptyString => Some acc
  | String c rest =>
      let n := Ascii.N_of_ascii c in
      if ((48 <=? n) && (n <=? 57))%N then digits rest (10 * acc + (n - 48))%N else None
  end.

(** A key that is an array index: the canonical decimal form of an
    integer from 0 to 2^32 - 2. *)
Definition arrayIndex (k : string) : option N :=
  match k with
  | EmptyString => None
  | String c rest =>
      match digits k 0 with
      | Some n =>
          if (n <? 2 ^ 32 - 1)%N
             && (negb (Ascii.N_of_ascii c =? 48)%N || String.eqb rest ""%string)
          then Some n else None
      | None => None
      end
  end.

Definition isArrayIndex (k : string) : bool :=
  match arrayIndex k with Some _ => true | None => false end.

(** A property of index [i] put in its place among the properties
    sorted by index. *)
Fixpoint place (i : N) (kv : string * string) (sorted : Headers) : Headers :=
  match sorted with
  | [] => [kv]
  | kv' :: rest =>
      match arrayIndex (fst kv') with
      | Some j => if (i <=? j)%N then kv :: sorted else kv' :: place i kv rest
      | None => kv :: sorted
      end
  end.

Fixpoint indexProperties (obj : Headers) : Headers :=
  match obj with
  | [] => []
  | kv :: rest =>
      match arrayIndex (fst kv) with
      | Some i => place i kv (indexProperties rest)
      | None => indexProperties rest
      end
  end.

Definition namedProperties (obj : Headers) : Headers :=
  filter (fun kv => negb (isArrayIndex (fst kv))) obj.

(** [Object.entries(obj)], which is also the order in which a spread
    reads [obj]: the properties whose key is an array index by
    ascending index, then the other properties in the order they were
    created. *)
Definition Object_entries (obj : Headers) : Headers :=
  indexProperties obj ++ namedProperties obj.

(** Ascending order of the keys that are array indices. *)
Definition indexOrder (k k' : string) : Prop :=
  match arrayIndex k, arrayIndex k' with
  | Some i, Some j => (i <= j)%N
  | _, _ => False
  end.

(** The properties of one key. *)
Definition hasKey (name : string) (kv : string * string) : bool :=
  String.eqb name (fst kv).

(** [{ ...a, ...b }], a new object; an [undefined] operand spreads
    nothing. *)
Definition spread (a : Headers) (b : option Headers) : Headers :=
  fold_left (fun obj kv => assign obj (fst kv) (snd kv))
    (Object_entries a
     ++ match b with Some o => Object_entries o | None => [] end)
    [].

(** *** Options *)

(** [Partial<EncoderOptions>]: [None] is a property that is absent or
    [undefined].  The codec and the preset are the strings they are at
    run time. *)
Record Options : Type := {
  noTranscoding : option bool;
  width : option float;
  height : option float;
  frameRate : option float;
  videoCodec : option string;
  bitrateVideo : option float;
  bitrateVideoMax : option float;
  bitrateAudio : option float;
  includeAudio : option bool;
  hardwareAcceleratedDecoding : option bool;
  minimizeLatency : option bool;
  h26xPreset : option string;
  customHeaders : option Headers;
  seekTime : option float;
  customFfmpegFlags : option (list string)
}.

Record EncoderOptions : Type := {
  m_noTranscoding : bool;
  m_width : float;
  m_height : float;
  m_frameRate : option float;
  m_videoCodec : string;
  m_bitrateVideo : float;
  m_bitrateVideoMax : float;
  m_bitrateAudio : float;
  m_includeAudio : bool;
  m_hardwareAcceleratedDecoding : bool;
  m_minimizeLatency : bool;
  m_h26xPreset : string;
  m_customHeaders : Headers;
  m_seekTime : float;
  m_customFfmpegFlags : list string
}.

Definition defaultOptions : EncoderOptions :=
  {| m_noTranscoding := false;
     m_width := (-2)%float;
     m_height := (-2)%float;
     m_frameRate := None;
     m_videoCodec := "H264";
     m_bitrateVideo := 5000%float;
     m_bitrateVideoMax := 7000%float;
     m_bitrateAudio := 128%float;
     m_includeAudio := true;
     m_hardwareAcceleratedDecoding := false;
     m_minimizeLatency := false;
     m_h26xPreset := "ultrafast";
     m_customHeaders :=
       [("User-Agent"%string,
         "Mozilla/5.0 (Windows NT 10.0; Win64; x64) AppleWebKit/537.36 (KHTML, like Gecko) Chrome/107.0.0.0 Safari/537.3"%string);
        ("Connection"%string, "keep-alive"%string)];
     m_seekTime := 0%float;
     m_customFfmpegFlags := [] |}.

(** [a ?? b] *)
Definition orElse {A : Type} (a : option A) (b : A) : A :=
  match a with Some x => x | None => b end.

(** *** The calls made on the ffmpeg command *)

(** The methods of the command that [prepareStream] calls, in the
    order of the calls.  A method and its plural alias ([inputOption]
    and [inputOptions], ...) are one constructor: the arguments, or the
    elements of the array, are its list. *)
Inductive FfmpegCall : Type :=
| Ffmpeg (fromString : option string)   (* ffmpeg(input); [None] for a Readable *)
| AddOption (args : list string)
| InputOption (args : list string)
| Output
| OutputFormat (format : string)
| AddOutputOption (args : list string)
| OutputOption (args : list string)
| VideoCodec (codec : string)
| VideoFilter (filter : string)
| FpsOutput (fps : float)
| AudioChannels (channels : Z)
| AudioFrequency (hz : Z)
| AudioCodec (codec : string)
| AudioBitrate (bitrate : string)
| AudioFilters (filter : string)
| OnError
| OnEnd
| Run
| Kill (signal : string).

Section Helpers.

(** [isFiniteNonZero] comes from [utils.ts] and the conversion of a
    number to a string from the language: both stay abstract. *)
Variable isFiniteNonZero : option float -> bool.
Variable numberToString : float -> string.

Definition mergeOptions (opts : Options) : EncoderOptions :=
  {| m_noTranscoding := orElse (noTranscoding opts) (m_noTranscoding defaultOptions);
     m_width :=
       match width opts with
       | Some x => if isFiniteNonZero (Some x) then Math_round x else m_width defaultOptions
       | None => if isFiniteNonZero None then Math_round nan else m_width defaultOptions
       end;
     m_height :=
       match height opts with
       | Some x => if isFiniteNonZero (Some x) then Math_round x else m_height defaultOptions
       | None => if isFiniteNonZero None then Math_round nan else m_height defaultOptions
       end;
     m_frameRate :=
       match frameRate opts with
       | Some x =>
           if isFiniteNonZero (Some x) && (0 <? x)%float then Some x
           else m_frameRate defaultOptions
       | None => m_frameRate defaultOptions
       end;
     m_videoCodec := orElse (videoCodec opts) (m_videoCodec defaultOptions);
     m_bitrateVideo :=
       match bitrateVideo opts with
       | Some x =>
           if isFiniteNonZero (Some x) && (0 <? x)%float then Math_round x
           else m_bitrateVideo defaultOptions
       | None => m_bitrateVideo defaultOptions
       end;
     m_bitrateVideoMax :=
       match bitrateVideoMax opts with
       | Some x =>
           if isFiniteNonZero (Some x) && (0 <? x)%float then Math_round x
           else m_bitrateVideoMax defaultOptions
       | None => m_bitrateVideoMax defaultOptions
       end;
     m_bitrateAudio :=
       match bitrateAudio opts with
       | Some x =>
           if isFiniteNonZero (Some x) && (0 <? x)%float then Math_round x
           else m_bitrateAudio defaultOptions
       | None => m_bitrateAudio defaultOptions
       end;
     m_includeAudio := orElse (includeAudio opts) (m_includeAudio defaultOptions);
     m_hardwareAcceleratedDecoding :=
       orElse (hardwareAcceleratedDecoding opts)
         (m_hardwareAcceleratedDecoding defaultOptions);
     m_minimizeLatency := orElse (minimizeLatency opts) (m_minimizeLatency defaultOptions);
     m_h26xPreset := orElse (h26xPreset opts) (m_h26xPreset defaultOptions);
     m_customHeaders := spread (m_customHeaders defaultOptions) (customHeaders opts);
     m_seekTime := orElse (seekTime opts) (m_seekTime defaultOptions);
     m_customFfmpegFlags :=
       orElse (customFfmpegFlags opts) (m_customFfmpegFlags defaultOptions) |}.

(** *** The command *)

(** [Object.entries(customHeaders).map(([k, v]) => `${k}: ${v}`).join("\\r\\n")]:
    the separator is the four characters backslash, r, backslash, n. *)
Definition headerLines (headers : Headers) : string :=
  String.concat "\r\n"
    (map (fun kv => (fst kv ++ ": " ++ snd kv)%string) (Object_entries headers)).

Definition isHttpUrl (input : option string) : bool :=
  match input with
  | Some s => startsWith s "http" || startsWith s "https"
  | None => false
  end.

Definition isHls (input : option string) : bool :=
  match input with
  | Some s => includes s "m3u"
  | None => false
  end.

(** Seeking and the input options. *)
Definition inputSetup (input : option string) (m : EncoderOptions) : list FfmpegCall :=
  (if truthy (m_seekTime m) && (0 <? m_seekTime m)%float
   then [InputOption ["-ss"%string; numberToString (m_seekTime m)]] else [])
  ++ (if m_hardwareAcceleratedDecoding m
      then [InputOption ["-hwaccel"%string; "auto"%string]] else [])
  ++ (if m_minimizeLatency m
      then [AddOption ["-fflags nobuffer"%string; "-analyzeduration 0"%string]] else [])
  ++ (if isHttpUrl input
      then InputOption ["-headers"%string; headerLines (m_customHeaders m)]
           :: (if negb (isHls input)
               then [InputOption ["-reconnect 1"%string;
                                  "-reconnect_at_eof 1"%string;
                                  "-reconnect_streamed 1"%string;
                                  "-reconnect_delay_max 4294"%string]]
               else [])
      else []).

(** [switch (videoCodec)]: a string that is none of the five cases
    selects nothing. *)
Definition encoderSetup (m : EncoderOptions) : list FfmpegCall :=
  let codec := m_videoCodec m in
  if String.eqb codec "AV1" then [VideoCodec "libsvtav1"]
  else if String.eqb codec "VP8" then
    [VideoCodec "libvpx"; OutputOption ["-deadline"%string; "realtime"%string]]
  else if String.eqb codec "VP9" then
    [VideoCodec "libvpx-vp9"; OutputOption ["-deadline"%string; "realtime"%string]]
  else if String.eqb codec "H264" then
    [VideoCodec "libx264";
     OutputOption ["-tune zerolatency"%string;
                   ("-preset " ++ m_h26xPreset m)%string;
                   "-profile:v baseline"%string]]
  else if String.eqb codec "H265" then
    [VideoCodec "libx265";
     OutputOption ["-tune zerolatency"%string;
                   ("-preset " ++ m_h26xPreset m)%string;
                   "-profile:v main"%string]]
  else [].

Definition videoSetup (m : EncoderOptions) : list FfmpegCall :=
  AddOutputOption ["-map 0:v"%string]
  :: (if m_noTranscoding m then [VideoCodec "copy"]
      else
        [VideoFilter ("scale=" ++ numberToString (m_width m) ++ ":"
                      ++ numberToString (m_height m))%string]
        ++ (match m_frameRate m with
            | Some fps => if truthy fps then [FpsOutput fps] else []
            | None => []
            end)
        ++ [AddOutputOption
              ["-b:v"%string; (numberToString (m_bitrateVideo m) ++ "k")%string;
               "-maxrate:v"%string; (numberToString (m_bitrateVideoMax m) ++ "k")%string;
               "-bf"%string; "0"%string;
               "-pix_fmt"%string; "yuv420p"%string;
               "-force_key_frames"%string; "expr:gte(t,n_forced*1)"%string]]
        ++ encoderSetup m).

Definition audioSetup (m : EncoderOptions) : list FfmpegCall :=
  if m_includeAudio m then
    [AddOutputOption ["-map 0:a?"%string];
     AudioChannels 2;
     AddOutputOption ["-lfe_mix_level 1"%string];
     AudioFrequency 48000;
     AudioCodec "libopus";
     AudioBitrate (numberToString (m_bitrateAudio m) ++ "k")%string;
     AudioFilters "volume@internal_lib=1.0"]
  else [].

Definition customSetup (m : EncoderOptions) : list FfmpegCall :=
  if (0 <? List.length (m_customFfmpegFlags m))%nat
  then [AddOption (m_customFfmpegFlags m)] else [].

(** Everything [prepareStream] calls on the command, up to [run()]. *)
Definition command (input : option string) (m : EncoderOptions) : list FfmpegCall :=
  [Ffmpeg input; AddOption ["-loglevel"%string; "info"%string]]
  ++ inputSetup input m
  ++ [Output; OutputFormat "matroska"]
  ++ videoSetup m
  ++ audioSetup m
  ++ customSetup m
  ++ [OnError; OnEnd; Run].

(** *** The running command *)

(** What the closures of [prepareStream] capture. *)
Record Prepared : Type := {
  cancelSignal : option PlayStream.AbortSignal;
  onAbort : bool;                    (* the "abort" listener, { once: true } *)
  promise : PlayStream.Promise
}.

(** [prepareStream(input, options, cancelSignal)]: the input is the
    string it was given, or [None] for a Readable. *)
Definition prepareStream (input : option string) (options : Options)
    (signal : option PlayStream.AbortSignal)
  : PlayStream.Thrown + (Prepared * list FfmpegCall) :=
  if PlayStream.opt_aborted signal then
    inl (PlayStream.ThrowReason (PlayStream.opt_reason signal))
  else
    inr ({| cancelSignal := signal;
            onAbort := match signal with Some _ => true | None => false end;
            promise := PlayStream.Pending |},
         command input (mergeOptions options)).

End Helpers.

(** *** Events of the running command *)

Inductive Event : Type :=
| Abort (reason : PlayStream.Value)     (* the controller of [cancelSignal] aborts *)
| FfmpegError (err : PlayStream.Value)  (* the command emits "error" *)
| FfmpegEnd.                            (* the command emits "end" *)

Definition step (p : Prepared) (ev : Event) : Prepared * list FfmpegCall :=
  match ev with
  | Abort r =>
      match cancelSignal p with
      | Some sig =>
          if PlayStream.aborted sig then (p, [])
          else
            let sig' := Some (PlayStream.AbortedWith (PlayStream.abortReason r)) in
            if onAbort p
            then ({| cancelSignal := sig'; onAbort := false; promise := promise p |},
                  [Kill "SIGTERM"])
            else ({| cancelSignal := sig'; onAbort := onAbort p; promise := promise p |},
                  [])
      | None => (p, [])
      end
  | FfmpegError err =>
      ({| cancelSignal := cancelSignal p; onAbort := onAbort p;
          promise :=
            PlayStream.reject (promise p)
              (if PlayStream.opt_aborted (cancelSignal p)
               then PlayStream.opt_reason (cancelSignal p) else err) |},
       [])
  | FfmpegEnd =>
      ({| cancelSignal := cancelSignal p; onAbort := onAbort p;
          promise := PlayStream.resolve (promise p) |},
       [])
  end.

Fixpoint run (p : Prepared) (evs : list Event) : Prepared * list FfmpegCall :=
  match evs with
  | [] => (p, [])
  | ev :: rest =>
      let (p1, log1) := step p ev in
      let (p2, log2) := run p1 rest in
      (p2, log1 ++ log2)
  end.

Definition final (p : Prepared) (evs : list Event) : Prepared := fst (run p evs).
Definition calls (p : Prepared) (evs : list Event) : list FfmpegCall := snd (run p evs).

(** *** Vocabulary of the properties *)

(** Example inputs: [{}], the default of the parameter, and
    [{ noTranscoding: true }]. *)
Definition noOptions : Options :=
  {| noTranscoding := None; width := None; height := None; frameRate := None;
     videoCodec := None; bitrateVideo := None; bitrateVideoMax := None;
     bitrateAudio := None; includeAudio := None;
     hardwareAcceleratedDecoding := None; minimizeLatency := None;
     h26xPreset := None; customHeaders := None; seekTime := None;
     customFfmpegFlags := None |}.

Definition copyOptions : Options :=
  {| noTranscoding := Some true; width := None; height := None; frameRate := None;
     videoCodec := None; bitrateVideo := None; bitrateVideoMax := None;
     bitrateAudio := None; includeAudio := None;
     hardwareAcceleratedDecoding := None; minimizeLatency := None;
     h26xPreset := None; customHeaders := None; seekTime := None;
     customFfmpegFlags := None |}.

(** The options with other video settings. *)
Definition withVideoSettings (opts : Options)
    (w h fps : option float) (codec : option string)
    (rate rateMax : option float) (preset : option string) : Options :=
  {| noTranscoding := noTranscoding opts;
     width := w;
     height := h;
     frameRate := fps;
     videoCodec := codec;
     bitrateVideo := rate;
     bitrateVideoMax := rateMax;
     bitrateAudio := bitrateAudio opts;
     includeAudio := includeAudio opts;
     hardwareAcceleratedDecoding := hardwareAcceleratedDecoding opts;
     minimizeLatency := minimizeLatency opts;
     h26xPreset := preset;
     customHeaders := customHeaders opts;
     seekTime := seekTime opts;
     customFfmpegFlags := customFfmpegFlags opts |}.

Definition is_abort (ev : Event) : bool :=
  match ev with Abort _ => true | _ => false end.

Definition is_kill (c : FfmpegCall) : bool :=
  match c with Kill _ => true | _ => false end.

Definition is_videoCodec (c : FfmpegCall) : bool :=
  match c with VideoCodec _ => true | _ => false end.

Definition is_fpsOutput (c : FfmpegCall) : bool :=
  match c with FpsOutput _ => true | _ => false end.

Definition is_inputOption (c : FfmpegCall) : bool :=
  match c with InputOption _ => true | _ => false end.

(** The calls that add options or set a property of the output. *)
Definition is_setting (c : FfmpegCall) : bool :=
  match c with
  | Ffmpeg _ | OnError | OnEnd | Run | Kill _ => false
  | _ => true
  end.

(** Whether a call passes the string [flag] among its arguments. *)
Definition mentions (flag : string) (c : FfmpegCall) : bool :=
  match c with
  | AddOption args | InputOption args | AddOutputOption args | OutputOption args =>
      existsb (fun a => startsWith a flag) args
  | _ => false
  end.

(** The names that [switch (videoCodec)] knows, with their encoders. *)
Definition encoderOf (codec : string) : option string :=
  if String.eqb codec "AV1" then Some "libsvtav1"%string
  else if String.eqb codec "VP8" then Some "libvpx"%string
  else if String.eqb codec "VP9" then Some "libvpx-vp9"%string
  else if String.eqb codec "H264" then Some "libx264"%string
  else if String.eqb codec "H265" then Some "libx265"%string
  else None.

End PrepareStream.


(** * Facts about numbers and buffers *)

Section NumberFacts.

Lemma Prim2SF_32767 : Prim2SF 32767 = S754_finite false 9006924376834048 (-38).
Proof. now vm_compute. Qed.

Lemma Prim2SF_m32768 : Prim2SF (-32768) = S754_finite true 4503599627370496 (-37).
Proof. now vm_compute. Qed.

Lemma digits2_pos_bound (m : positive) : Zpos m < 2 ^ Zpos (digits2_pos m).
Proof.
  induction m as [m IH | m IH | ]; cbn [digits2_pos].
  - rewrite Pos2Z.inj_succ, Z.pow_succ_r by lia. lia.
  - rewrite Pos2Z.inj_succ, Z.pow_succ_r by lia. lia.
  - reflexivity.
Qed.

(** The mantissa of a binary64 value has at most 53 bits. *)
Lemma valid_mantissa_bound (s : bool) (m : positive) (e : Z) :
  valid_binary (S754_finite s m e) = true -> Zpos m < 2 ^ 53.
Proof.
  cbn [SpecFloat.valid_binary]. unfold bounded, canonical_mantissa, fexp.
  intros H. apply andb_prop in H. destruct H as [H _].
  apply Z.eqb_eq in H.
  assert (Zpos (digits2_pos m) <= 53) by (unfold prec in H; lia).
  eapply Z.lt_le_trans; [apply digits2_pos_bound|].
  apply Z.pow_le_mono_r; lia.
Qed.

Lemma shiftl_neg_bound (m e k b : Z) :
  0 <= m -> e <= - k -> 0 <= k -> m < 2 ^ k * (b + 1) -> 0 <= b ->
  0 <= Z.shiftl m e <= b.
Proof.
  intros Hm He Hk Hb Hb0.
  replace e with (- (- e)) by lia. rewrite Z.shiftl_opp_r, Z.shiftr_div_pow2 by lia.
  assert (0 < 2 ^ k) by (apply Z.pow_pos_nonneg; lia).
  assert (0 < 2 ^ (- e)) by (apply Z.pow_pos_nonneg; lia).
  assert (2 ^ k <= 2 ^ (- e)) by (apply Z.pow_le_mono_r; lia).
  split; [apply Z.div_pos; lia|].
  apply Z.lt_succ_r. apply Z.div_lt_upper_bound; [lia|]. nia.
Qed.

Lemma compare_cont_Z (p q : positive) :
  Pos.compare_cont Eq p q = (Zpos p ?= Zpos q).
Proof. reflexivity. Qed.

(** Order of two finite values of the same sign, read off the
    exponents and mantissas. *)
Lemma SFltb_pos_pos (m1 m2 : positive) (e1 e2 : Z) :
  SFltb (S754_finite false m1 e1) (S754_finite false m2 e2) = false ->
  e2 < e1 \/ (e1 = e2 /\ Zpos m2 <= Zpos m1).
Proof.
  unfold SFltb, SFcompare. rewrite compare_cont_Z.
  destruct (Z.compare_spec e1 e2); try discriminate; try lia.
  destruct (Z.compare_spec (Zpos m1) (Zpos m2)); try discriminate; lia.
Qed.

Lemma SFltb_neg_neg (m1 m2 : positive) (e1 e2 : Z) :
  SFltb (S754_finite true m1 e1) (S754_finite true m2 e2) = false ->
  e1 < e2 \/ (e1 = e2 /\ Zpos m1 <= Zpos m2).
Proof.
  unfold SFltb, SFcompare. rewrite compare_cont_Z.
  destruct (Z.compare_spec e1 e2); try discriminate; try lia.
  destruct (Z.compare_spec (Zpos m1) (Zpos m2)); cbn; try discriminate; lia.
Qed.

Lemma SF_int16_range (s : bool) (m : positive) (e : Z) :
  Zpos m < 2 ^ 53 ->
  SFltb (S754_finite false 9006924376834048 (-38)) (S754_finite s m e) = false ->
  SFltb (S754_finite s m e) (S754_finite true 4503599627370496 (-37)) = false ->
  -32768 <= cond_Zopp s (Z.shiftl (Zpos m) e) <= 32767.
Proof.
  intros V Hhi Hlo. destruct s; cbn [cond_Zopp].
  - apply SFltb_neg_neg in Hlo. clear Hhi.
    enough (0 <= Z.shiftl (Zpos m) e <= 32768) by lia.
    destruct Hlo as [He | [He Hm]].
    + apply (shiftl_neg_bound _ _ 38); lia.
    + apply (shiftl_neg_bound _ _ 37); lia.
  - apply SFltb_pos_pos in Hhi. clear Hlo.
    enough (0 <= Z.shiftl (Zpos m) e <= 32767) by lia.
    destruct Hhi as [He | [He Hm]].
    + apply (shiftl_neg_bound _ _ 39); lia.
    + apply (shiftl_neg_bound _ _ 38); lia.
Qed.

Lemma truncate_SF (x : float) :
  SFltb (S754_finite false 9006924376834048 (-38)) (Prim2SF x) = false ->
  SFltb (Prim2SF x) (S754_finite true 4503599627370496 (-37)) = false ->
  -32768 <= JS.truncate x <= 32767.
Proof.
  unfold JS.truncate.
  pose proof (Prim2SF_valid x) as V.
  destruct (Prim2SF x) as [s|s| |s m e].
  1: lia.
  2: lia.
  - destruct s; intros H1 H2; [now vm_compute in H2 | now vm_compute in H1].
  - apply valid_mantissa_bound in V. now apply SF_int16_range.
Qed.

(** A number that [checkInt] lets through as a 16-bit value has its
    integer part in the 16-bit range. *)
Lemma truncate_in_range (x : float) :
  (32767 <? x)%float = false -> (x <? -32768)%float = false ->
  -32768 <= JS.truncate x <= 32767.
Proof.
  rewrite !FloatAxioms.ltb_spec, Prim2SF_32767, Prim2SF_m32768.
  apply truncate_SF.
Qed.

Lemma clamp_cases (y : float) :
  JS.Clamped y (JS.Math_max (-32768)%float (JS.Math_min 32767%float y)).
Proof.
  assert (N1 : is_nan 32767 = false) by now vm_compute.
  assert (N2 : is_nan (-32768) = false) by now vm_compute.
  assert (S1 : get_sign 32767 = false) by now vm_compute.
  assert (S2 : get_sign (-32768) = true) by now vm_compute.
  assert (M1 : JS.Math_max (-32768) nan = nan) by now vm_compute.
  assert (M2 : JS.Math_max (-32768) 32767 = 32767%float) by now vm_compute.
  unfold JS.Math_min. rewrite N1. cbn [orb].
  destruct (is_nan y) eqn:Hnan.
  - rewrite M1. now constructor.
  - destruct (32767 <? y)%float eqn:Hhi.
    + rewrite M2. now constructor.
    + assert (Hmin : (if (y <? 32767)%float then y
                      else if get_sign 32767 then 32767%float else y) = y).
      { destruct (y <? 32767)%float; [reflexivity|]. now rewrite S1. }
      rewrite Hmin. unfold JS.Math_max.
      rewrite N2, Hnan. cbn [orb].
      destruct (y <? -32768)%float eqn:Hlo; [now constructor|].
      replace (if (-32768 <? y)%float then y
               else if get_sign (-32768) then y else (-32768)%float)
        with y; [now constructor|].
      destruct (-32768 <? y)%float; [reflexivity|]. now rewrite S2.
Qed.

(** The value written by the loop is always a 16-bit integer:
    saturation, never wrap-around. *)
Lemma clamped_in_range (y r : float) :
  JS.Clamped y r ->
  (32767 <? r)%float = false /\ (r <? -32768)%float = false /\
  -32768 <= JS.truncate r <= 32767.
Proof.
  intros [Hn | Hh | Hl | Hn Hh Hl].
  - repeat split; now vm_compute.
  - repeat split; now vm_compute.
  - repeat split; now vm_compute.
  - repeat split; try assumption; apply truncate_in_range; assumption.
Qed.

End NumberFacts.


Section BufferFacts.

Lemma get_app (pre post : Buffer) (x : byte) :
  Buf.get (pre ++ x :: post) (List.length pre) = Some x.
Proof.
  unfold Buf.get. rewrite nth_error_app2 by lia.
  rewrite Nat.sub_diag. reflexivity.
Qed.

Lemma set_app (pre post : Buffer) (x b : byte) :
  Buf.set (pre ++ x :: post) (List.length pre) b = pre ++ b :: post.
Proof. induction pre as [|p pre IH]; cbn; [reflexivity | now rewrite IH]. Qed.

Lemma set2_app (pre rest : Buffer) (a b x y : byte) :
  Buf.set (Buf.set (pre ++ a :: b :: rest) (List.length pre) x) (List.length pre + 1) y
  = pre ++ x :: y :: rest.
Proof.
  rewrite set_app.
  replace (pre ++ x :: b :: rest) with ((pre ++ [x]) ++ b :: rest)
    by (now rewrite <- app_assoc).
  replace (List.length pre + 1)%nat with (List.length (pre ++ [x]))
    by (rewrite length_app; reflexivity).
  now rewrite set_app, <- app_assoc.
Qed.

Lemma set_length (buf : Buffer) (i : nat) (b : byte) :
  List.length (Buf.set buf i b) = List.length buf.
Proof.
  revert i; induction buf as [|x buf IH]; intros [|i]; cbn; auto.
Qed.

(** Two's complement on 16 bits, byte by byte. *)
Lemma int16_bytes (t : Z) :
  -32768 <= t <= 32767 ->
  let val := (t mod 256) mod 256 + ((t mod 4294967296 / 256) mod 256) * 256 in
  val = t mod 65536 /\ (val / 32768) mod 2 = (if t <? 0 then 1 else 0).
Proof.
  intros Ht val.
  assert (Hlo : (t mod 256) mod 256 = t mod 256) by (apply Z.mod_mod; lia).
  assert (Hhi : (t mod 4294967296 / 256) mod 256 = (t / 256) mod 256).
  { change 4294967296 with (256 * 16777216).
    rewrite Z.rem_mul_r by lia.
    rewrite (Z.mul_comm 256 ((t / 256) mod 16777216)), Z.div_add by lia.
    rewrite (Z.div_small (t mod 256) 256) by (apply Z.mod_pos_bound; lia).
    rewrite Z.add_0_l.
    change 16777216 with (256 * 65536).
    rewrite Z.rem_mul_r by lia.
    rewrite (Z.mul_comm 256), Z.mod_add by lia.
    apply Z.mod_mod; lia. }
  assert (Hval : val = t mod 65536).
  { unfold val. rewrite Hlo, Hhi.
    change 65536 with (256 * 256). rewrite Z.rem_mul_r by lia. lia. }
  split; [exact Hval|]. rewrite Hval.
  destruct (Z.ltb_spec t 0).
  - rewrite <- (Z.mod_add t 1 65536) by lia.
    rewrite (Z.mod_small (t + 1 * 65536)) by lia.
    replace ((t + 1 * 65536) / 32768) with 1; [reflexivity|].
    apply Z.div_unique with (r := t + 32768); lia.
  - rewrite (Z.mod_small t) by lia.
    rewrite (Z.div_small t) by lia. reflexivity.
Qed.

(** Reading back what [writeInt16LE] stored gives the integer part of
    the value, when that is a 16-bit integer. *)
Lemma int16LE_of_stored (r : float) :
  -32768 <= JS.truncate r <= 32767 ->
  Buf.int16LE (byte.of_Z (JS.ToUint8 r)) (byte.of_Z (Z.shiftr (JS.ToUint32 r) 8))
  = JS.truncate r.
Proof.
  intros Hr. unfold Buf.int16LE, JS.ToUint8, JS.ToUint32.
  rewrite !byte.unsigned_of_Z. unfold byte.wrap.
  rewrite Z.shiftr_div_pow2 by lia.
  rewrite Z.testbit_eqb by lia.
  change (2 ^ 8) with 256. change (2 ^ 32) with 4294967296.
  change (2 ^ 15) with 32768. change (2 ^ 16) with 65536.
  destruct (int16_bytes (JS.truncate r) Hr) as [Hval Hbit].
  cbv zeta in Hval, Hbit. rewrite Hbit, Hval.
  destruct (Z.ltb_spec (JS.truncate r) 0); cbn [Z.eqb Pos.eqb].
  - rewrite <- (Z.mod_add (JS.truncate r) 1 65536) by lia.
    rewrite Z.mod_small; lia.
  - rewrite Z.mod_small; lia.
Qed.

End BufferFacts.


(** * The sample loop of [_sendFrame] *)

Section SampleLoop.

Import AudioStream.

Variable volume : float.

Lemma newSample_clamped (sample : Z) :
  JS.Clamped (JS.Math_floor (JS.of_Z sample * volume)%float) (newSample volume sample).
Proof. apply clamp_cases. Qed.

(** [checkInt] never refuses what the loop writes. *)
Lemma newSample_passes_checkInt (sample : Z) :
  ((32767 <? newSample volume sample)%float
   || (newSample volume sample <? -32768)%float) = false.
Proof.
  destruct (clamped_in_range _ _ (newSample_clamped sample)) as (H1 & H2 & _).
  now rewrite H1, H2.
Qed.

Lemma storedSample_range (sample : Z) :
  -32768 <= storedSample volume sample <= 32767.
Proof. apply (clamped_in_range _ _ (newSample_clamped sample)). Qed.

Lemma int16LE_scaled (first last : byte) :
  Buf.int16LE (lowByte volume first last) (highByte volume first last)
  = storedSample volume (Buf.int16LE first last).
Proof.
  unfold lowByte, highByte, storedSample.
  generalize (storedSample_range (Buf.int16LE first last)). unfold storedSample.
  generalize (newSample volume (Buf.int16LE first last)). intros r Hr.
  now apply int16LE_of_stored.
Qed.

Lemma scaleAt_app (pre rest : Buffer) (first last : byte) :
  scaleAt volume (pre ++ first :: last :: rest) (List.length pre)
  = inr (pre ++ lowByte volume first last :: highByte volume first last :: rest).
Proof.
  assert (G0 : forall x y tl, Buf.get (pre ++ x :: y :: tl) (List.length pre) = Some x)
    by (intros; apply get_app).
  assert (G1 : forall x y tl, Buf.get (pre ++ x :: y :: tl) (List.length pre + 1) = Some y).
  { intros x y tl. replace (pre ++ x :: y :: tl) with ((pre ++ [x]) ++ y :: tl)
      by (now rewrite <- app_assoc).
    replace (List.length pre + 1)%nat with (List.length (pre ++ [x]))
      by (rewrite length_app; reflexivity).
    apply get_app. }
  unfold scaleAt, Buf.readInt16LE. rewrite G0, G1.
  unfold Buf.writeInt16LE. rewrite newSample_passes_checkInt, G0, G1.
  cbv zeta. unfold lowByte, highByte. now rewrite set2_app.
Qed.

Lemma pairs_ind (P : Buffer -> Prop) :
  P [] -> (forall x, P [x]) ->
  (forall x y rest, P rest -> P (x :: y :: rest)) ->
  forall buf, P buf.
Proof.
  intros H0 H1 H2.
  fix IH 1. intros [|x [|y rest]]; [exact H0 | apply H1 | apply H2, IH].
Qed.

Lemma scaledPcm_length (pcm : Buffer) :
  List.length (scaledPcm volume pcm) = List.length pcm.
Proof.
  induction pcm as [|x|x y rest IH] using pairs_ind; cbn; [reflexivity..|].
  now rewrite IH.
Qed.

Lemma scaledPcm_samples (pcm : Buffer) :
  Buf.samples (scaledPcm volume pcm) = map (storedSample volume) (Buf.samples pcm).
Proof.
  induction pcm as [|x|x y rest IH] using pairs_ind; cbn [scaledPcm Buf.samples map];
    [reflexivity..|].
  rewrite IH, int16LE_scaled. reflexivity.
Qed.

Lemma loop_from (n : nat) :
  forall (k : nat) (pre todo : Buffer),
    List.length pre = (2 * k)%nat -> List.length todo = (2 * n)%nat ->
    fold_left
      (fun acc i => match acc with inl e => inl e | inr buf => scaleAt volume buf i end)
      (map (fun j => 2 * j)%nat (seq k n)) (inr (pre ++ todo))
    = inr (pre ++ scaledPcm volume todo).
Proof.
  induction n as [|n IH]; intros k pre todo Hpre Htodo.
  - destruct todo; [reflexivity | discriminate].
  - destruct todo as [|first [|last rest]]; try (cbn in Htodo; lia).
    cbn [seq map fold_left]. rewrite <- Hpre, scaleAt_app.
    replace (pre ++ lowByte volume first last :: highByte volume first last :: rest)
      with ((pre ++ [lowByte volume first last; highByte volume first last]) ++ rest)
      by (now rewrite <- app_assoc).
    rewrite (IH (S k)).
    + now rewrite <- app_assoc.
    + rewrite length_app, Hpre. cbn. lia.
    + cbn in Htodo. lia.
Qed.

(** On a buffer of whole samples the loop does not throw and rewrites
    every sample in place. *)
Lemma scaleSamples_even (pcm : Buffer) :
  Nat.even (List.length pcm) = true ->
  scaleSamples volume pcm = inr (scaledPcm volume pcm).
Proof.
  intros Heven. apply Nat.even_spec in Heven. destruct Heven as [n Hn].
  unfold scaleSamples, offsets. rewrite Hn.
  replace (Nat.div2 (S (2 * n))) with n.
  - apply (loop_from n 0 [] pcm); [reflexivity | exact Hn].
  - symmetry. apply Nat.div2_succ_double.
Qed.

End SampleLoop.


(** * Properties of [AudioStream] *)

Section AudioStreamProperties.

Import AudioStream.

Variable Opus : Type.
Variable opus_decode : Opus -> Buffer -> Opus * (JsError + Buffer).
Variable opus_encode : Opus -> Buffer -> Z -> Opus * (JsError + Buffer).
Variable Udp : Type.
Variable sendAudioFrame : Udp -> Buffer -> float -> Udp * option JsError.

Local Abbreviation sendFrame := (_sendFrame Opus opus_decode opus_encode Udp sendAudioFrame).
Local Abbreviation dispatchFrame := (dispatch Opus opus_decode opus_encode Udp sendAudioFrame).
Local Abbreviation Fault := (ProcessingFault Opus opus_decode opus_encode).
Local Abbreviation tryBlock := (processFrame Opus opus_decode opus_encode).

Lemma with_opus_same (this : t Opus) : with_opus this (_opusEncoder this) = this.
Proof. now destruct this. Qed.

Lemma is_nan_Prim2SF (y : float) : is_nan y = true -> Prim2SF y = S754_nan.
Proof.
  unfold is_nan. rewrite FloatAxioms.eqb_spec.
  destruct (Prim2SF y) as [s|s| |s m e]; try reflexivity; unfold SFeqb, SFcompare.
  - discriminate.
  - destruct s; discriminate.
  - rewrite Z.compare_refl, compare_cont_Z, Z.compare_refl.
    destruct s; discriminate.
Qed.

(** C5. Muting twice is muting once; a frame dispatched while the
    stream is muted reaches no collaborator (in particular
    [sendAudioFrame] is not called) and [_sendFrame] returns normally,
    so that the paced stream advances its virtual clock by the
    frametime. *)
Theorem muted_stream_is_silent_and_keeps_time
    (this0 this : t Opus) (udp : Udp) (frame : Buffer) (pts frametime clock : float) :
  isMuted this = true ->
  (mute (mute this0) = mute this0 /\ isMuted (mute this0) = true)
  /\ sendFrame this udp frame frametime
     = {| stream := this; transport := udp; calls := []; thrown := None |}
  /\ dispatchFrame {| state := Active; virtual_clock := clock; audio := this |}
       udp frame pts frametime
     = ({| state := Active; virtual_clock := (clock + frametime)%float; audio := this |},
        udp, [EmitPts pts]).
Proof.
  unfold isMuted. intros Hm. split; [split; reflexivity|].
  assert (Hs : sendFrame this udp frame frametime
               = {| stream := this; transport := udp; calls := []; thrown := None |})
    by (unfold _sendFrame; now rewrite Hm).
  split; [exact Hs|].
  unfold dispatch. cbn [state audio]. rewrite Hs. reflexivity.
Qed.

(** C6. The clamp does not hold for every number: after
    [setVolume(NaN)] the stored volume is neither at least 0 nor at
    most 2. *)
Theorem setVolume_NaN_escapes_the_clamp (this : t Opus) :
  let v := getVolume (setVolume this nan) in
  is_nan v = true /\ (0 <=? v)%float = false /\ (v <=? 2)%float = false.
Proof. repeat split. Qed.

Lemma Prim2SF_2 : Prim2SF 2 = S754_finite false 4503599627370496 (-51).
Proof. now vm_compute. Qed.

Lemma Prim2SF_0 : Prim2SF 0 = S754_zero false.
Proof. now vm_compute. Qed.

(** How a number that is not NaN compares with 2. *)
Lemma compare_with_2 (v : float) :
  is_nan v = false ->
  ((v <? 2)%float = true /\ (2 <? v)%float = false /\ (v <=? 2)%float = true)
  \/ ((v <? 2)%float = false /\ (2 <? v)%float = true /\ (v <=? 2)%float = false)
  \/ v = 2%float.
Proof.
  unfold is_nan.
  rewrite FloatAxioms.eqb_spec, !FloatAxioms.ltb_spec, FloatAxioms.leb_spec, Prim2SF_2.
  destruct (Prim2SF v) as [s|s| |s m e] eqn:E.
  - intros _. left. repeat split.
  - intros _. destruct s; [left | right; left]; repeat split.
  - discriminate.
  - intros _. destruct s; [left; repeat split|].
    unfold SFltb, SFleb, SFcompare. rewrite !compare_cont_Z.
    destruct (Z.compare_spec e (-51)) as [He|He|He];
      destruct (Z.compare_spec (-51) e); try lia; auto.
    destruct (Z.compare_spec (Zpos m) 4503599627370496) as [Hm|Hm|Hm];
      destruct (Z.compare_spec 4503599627370496 (Zpos m)); try lia; auto.
    right; right. apply Prim2SF_inj. rewrite E, Prim2SF_2.
    injection Hm as ->. now subst e.
Qed.

(** For every other number the clamp is as specified: the result lies
    in [0, 2]; a negative number gives 0, a number above 2 gives 2, a
    number in between is stored as it is. *)
Lemma setVolume_clamps (this : t Opus) (v : float) :
  is_nan v = false ->
  let r := getVolume (setVolume this v) in
  ((0 <=? r)%float = true /\ (r <=? 2)%float = true)
  /\ ((v <? 0)%float = true -> r = 0%float)
  /\ ((2 <? v)%float = true -> r = 2%float)
  /\ ((v <? 0)%float = false -> (2 <? v)%float = false -> r = v).
Proof.
  intros Hnan. cbn [getVolume setVolume _volume].
  assert (Hneg : (v <? 0)%float = true -> (2 <? v)%float = false).
  { rewrite !FloatAxioms.ltb_spec, Prim2SF_2, Prim2SF_0.
    destruct (Prim2SF v) as [[]|[]| |[] m e]; try discriminate; reflexivity. }
  assert (Hpos : (v <? 0)%float = false -> (0 <=? v)%float = true).
  { revert Hnan. unfold is_nan.
    rewrite FloatAxioms.eqb_spec, FloatAxioms.ltb_spec, FloatAxioms.leb_spec, Prim2SF_0.
    destruct (Prim2SF v) as [[]|[]| |[] m e]; try discriminate; reflexivity. }
  assert (Hmin : JS.Math_min v 2 = if (2 <? v)%float then 2%float else v).
  { unfold JS.Math_min. rewrite Hnan.
    replace (is_nan 2) with false by now vm_compute.
    cbn [orb].
    destruct (compare_with_2 v Hnan) as [(-> & -> & _) | [(-> & -> & _) | ->]];
      reflexivity. }
  destruct (v <? 0)%float eqn:H0.
  - rewrite (Hneg eq_refl). repeat split; discriminate.
  - rewrite Hmin.
    destruct (compare_with_2 v Hnan) as [(_ & -> & Hle) | [(_ & -> & _) | ->]].
    + repeat split; auto; discriminate.
    + repeat split; discriminate.
    + repeat split; discriminate.
Qed.

(** C7. At volume 1.0 an unmuted stream hands the frame to
    [sendAudioFrame] as it received it, with its frametime, and calls
    neither the decoder nor the encoder; [setVolume(1)] stores exactly
    1.0. *)
Theorem unity_volume_forwards_frame_untouched
    (this0 this : t Opus) (udp : Udp) (frame : Buffer) (frametime : float) :
  isMuted this = false ->
  getVolume this = 1%float ->
  getVolume (setVolume this0 1) = 1%float
  /\ sendFrame this udp frame frametime
     = {| stream := this;
          transport := fst (sendAudioFrame udp frame frametime);
          calls := [SendAudioFrame frame frametime];
          thrown := snd (sendAudioFrame udp frame frametime) |}
  /\ filter is_codec (calls (sendFrame this udp frame frametime)) = [].
Proof.
  unfold isMuted, getVolume. intros Hm Hv.
  assert (Hs : sendFrame this udp frame frametime
               = {| stream := this;
                    transport := fst (sendAudioFrame udp frame frametime);
                    calls := [SendAudioFrame frame frametime];
                    thrown := snd (sendAudioFrame udp frame frametime) |}).
  { unfold _sendFrame. rewrite Hm, Hv.
    replace (JS.strict_neq 1 1) with false by now vm_compute.
    now destruct (sendAudioFrame udp frame frametime). }
  split; [now vm_compute|]. split; [exact Hs|]. now rewrite Hs.
Qed.

(** The value of the [try] block in its three outcomes. *)
Lemma tryBlock_fault (this : t Opus) (frame : Buffer) (e : JsError) :
  Fault this frame e ->
  exists o log,
    tryBlock this frame = (o, log, inl e)
    /\ filter is_send log = [] /\ filter is_log log = [].
Proof.
  intros [o Hd | o pcm Hd Hs | o1 o2 pcm scaled Hd Hs He]; unfold processFrame;
    rewrite Hd; cbv iota beta; try rewrite Hs; try rewrite He; eauto 6.
Qed.

(** C8. With a volume other than 1.0, when the decoder succeeds and
    returns whole 16-bit samples: the loop replaces every sample by
    [storedSample], the integer part of the floor of sample times
    volume clamped by [Math.min] and [Math.max]; that integer always
    lies between -32768 and 32767, is 32767 when the floor is above
    and -32768 when it is below (saturation, no wrap-around); the
    scaled buffer, of the same length, is what the encoder gets, with
    frame size 960; and what the encoder returns is sent with the
    frametime of the original frame. *)
Theorem volume_scaling_saturates
    (this : t Opus) (udp : Udp) (frame : Buffer) (frametime : float)
    (o1 : Opus) (pcmData : Buffer) :
  isMuted this = false ->
  JS.strict_neq (getVolume this) 1 = true ->
  opus_decode (_opusEncoder this) frame = (o1, inr pcmData) ->
  Nat.even (List.length pcmData) = true ->
  let volume := getVolume this in
  let scaled := scaledPcm volume pcmData in
  let out := sendFrame this udp frame frametime in
  scaleSamples volume pcmData = inr scaled
  /\ List.length scaled = List.length pcmData
  /\ Buf.samples scaled = map (storedSample volume) (Buf.samples pcmData)
  /\ (forall sample : Z,
        let y := JS.Math_floor (JS.of_Z sample * volume)%float in
        -32768 <= storedSample volume sample <= 32767
        /\ ((32767 <? y)%float = true -> storedSample volume sample = 32767)
        /\ ((y <? -32768)%float = true -> storedSample volume sample = -32768)
        /\ ((32767 <? y)%float = false -> (y <? -32768)%float = false ->
            storedSample volume sample = JS.truncate y))
  /\ (exists rest, calls out = OpusDecode frame :: OpusEncode scaled 960 :: rest)
  /\ (forall o2 encoded,
        opus_encode o1 scaled 960 = (o2, inr encoded) ->
        calls out = [OpusDecode frame; OpusEncode scaled 960;
                     SendAudioFrame encoded frametime]).
Proof.
  intros Hm Hv Hd Heven volume scaled out.
  unfold isMuted in Hm. unfold getVolume in Hv, volume.
  assert (Hloop : scaleSamples volume pcmData = inr scaled)
    by now apply scaleSamples_even.
  split; [exact Hloop|].
  split; [apply scaledPcm_length|].
  split; [apply scaledPcm_samples|].
  split.
  { intros sample y. split; [apply storedSample_range|].
    unfold storedSample.
    pose proof (newSample_clamped volume sample) as Hc. fold y in Hc.
    assert (N : JS.truncate nan = 0) by now vm_compute.
    assert (Hi : JS.truncate 32767 = 32767) by now vm_compute.
    assert (Lo : JS.truncate (-32768) = -32768) by now vm_compute.
    assert (X : (32767 <? y)%float = true -> (y <? -32768)%float = true -> False).
    { rewrite !FloatAxioms.ltb_spec, Prim2SF_32767, Prim2SF_m32768.
      destruct (Prim2SF y) as [[]|[]| |[] m e]; discriminate. }
    assert (Y : is_nan y = true -> (32767 <? y)%float = false /\ (y <? -32768)%float = false).
    { intros Hn. rewrite !FloatAxioms.ltb_spec, (is_nan_Prim2SF y Hn). now split. }
    inversion Hc as [Hn Hr | Hh Hr | Hl Hr | Hn Hh Hl Hr].
    - destruct (Y Hn) as [Y1 Y2]. rewrite Y1, Y2, N.
      repeat split; try discriminate.
      intros _ _. unfold JS.truncate. now rewrite (is_nan_Prim2SF y Hn).
    - rewrite Hh, Hi. repeat split; try discriminate.
      intros Hl. destruct (X Hh Hl).
    - rewrite Hl, Lo. repeat split; try discriminate.
      intros Hh. destruct (X Hh Hl).
    - rewrite Hh, Hl. repeat split; discriminate. }
  assert (Hcalls : forall o2 r,
             opus_encode o1 scaled 960 = (o2, r) ->
             exists rest, calls out = OpusDecode frame :: OpusEncode scaled 960 :: rest
               /\ (forall encoded, r = inr encoded ->
                     rest = [SendAudioFrame encoded frametime])).
  { intros o2 r He. unfold out, _sendFrame, processFrame.
    rewrite Hm, Hv, Hd. cbv iota beta. fold volume. rewrite Hloop. cbv iota beta.
    fold scaled. rewrite He.
    destruct r as [e | encoded]; cbv iota beta.
    - destruct (sendAudioFrame udp frame frametime). cbn [calls app].
      eexists; split; [reflexivity | discriminate].
    - destruct (sendAudioFrame udp encoded frametime). cbn [calls app].
      eexists; split; [reflexivity|]. now intros ? [= <-]. }
  split.
  - destruct (opus_encode o1 scaled 960) as [o2 r] eqn:He.
    destruct (Hcalls o2 r eq_refl) as (rest & Hr & _). now exists rest.
  - intros o2 encoded He.
    destruct (Hcalls o2 _ He) as (rest & Hr & Hrest).
    now rewrite Hr, (Hrest encoded eq_refl).
Qed.

(** C9. When the [try] block throws (in the decoder, in the loop or
    in the encoder), the failure is logged with [console.error] and the
    frame that was received is sent, once, with its frametime; no other
    frame is sent and none is dropped; the fault itself does not come
    out of [_sendFrame]: the call fails exactly when that
    [sendAudioFrame] fails, with the same error. *)
Theorem processing_fault_falls_back_to_original_frame
    (this : t Opus) (udp : Udp) (frame : Buffer) (frametime : float) (e : JsError) :
  isMuted this = false ->
  JS.strict_neq (getVolume this) 1 = true ->
  Fault this frame e ->
  let out := sendFrame this udp frame frametime in
  let sent := sendAudioFrame udp frame frametime in
  (exists log,
      calls out
      = log ++ [ConsoleError "[AudioStream] Error processing audio frame:" e;
                SendAudioFrame frame frametime]
      /\ filter is_send log = [])
  /\ filter is_send (calls out) = [SendAudioFrame frame frametime]
  /\ filter is_log (calls out)
     = [ConsoleError "[AudioStream] Error processing audio frame:" e]
  /\ thrown out = snd sent
  /\ transport out = fst sent.
Proof.
  intros Hm Hv HF out sent.
  unfold isMuted in Hm. unfold getVolume in Hv.
  destruct (tryBlock_fault this frame e HF) as (o & log & Htry & Hsend & Hlog).
  assert (Hout : out = {| stream := with_opus this o;
                          transport := fst sent;
                          calls := (log ++ [ConsoleError
                                      "[AudioStream] Error processing audio frame:" e])
                                   ++ [SendAudioFrame frame frametime];
                          thrown := snd sent |}).
  { unfold out, sent, _sendFrame. rewrite Hm, Hv, Htry.
    now destruct (sendAudioFrame udp frame frametime). }
  split; [exists log; split; [now rewrite Hout, <- app_assoc | exact Hsend]|].
  split.
  { rewrite Hout. cbn [calls]. rewrite !filter_app, Hsend. reflexivity. }
  split.
  { rewrite Hout. cbn [calls]. rewrite !filter_app, Hlog. reflexivity. }
  split; now rewrite Hout.
Qed.

(** With the paced stream of the specification around it: after a
    processing fault the stream is [Errored] only if the transport
    refused the original frame. *)
Lemma processing_fault_is_not_fatal
    (this : t Opus) (udp : Udp) (frame : Buffer) (pts frametime clock : float)
    (e : JsError) :
  isMuted this = false ->
  JS.strict_neq (getVolume this) 1 = true ->
  Fault this frame e ->
  state (fst (fst (dispatchFrame
           {| state := Active; virtual_clock := clock; audio := this |}
           udp frame pts frametime)))
  = match snd (sendAudioFrame udp frame frametime) with
    | None => Active
    | Some _ => Errored
    end.
Proof.
  intros Hm Hv HF.
  unfold isMuted in Hm. unfold getVolume in Hv.
  destruct (tryBlock_fault this frame e HF) as (o & log & Htry & _).
  unfold dispatch. cbn [state audio].
  unfold _sendFrame. rewrite Hm, Hv, Htry.
  destruct (sendAudioFrame udp frame frametime) as [udp1 [err|]]; reflexivity.
Qed.

(** ** Silence *)

Import AudioController.

Lemma is_zero_Prim2SF (v : float) : is_zero v = true -> exists s, Prim2SF v = S754_zero s.
Proof.
  unfold is_zero. rewrite FloatAxioms.eqb_spec.
  replace (Prim2SF zero) with (S754_zero false) by now vm_compute.
  destruct (Prim2SF v) as [s|[]| |[] m e]; try discriminate; eauto.
Qed.

(** Whatever the sample, its product with a zero or with NaN is a
    zero or NaN. *)
Lemma product_zero_or_nan (x v : float) : zero_or_nan v -> zero_or_nan (x * v)%float.
Proof.
  unfold zero_or_nan. rewrite mul_spec. intros [-> | [s ->]].
  - left. now destruct (Prim2SF x).
  - destruct (Prim2SF x) as [sx|sx| |sx m e]; cbn; eauto.
Qed.

Lemma clamp_zero_or_nan (y : float) :
  zero_or_nan y ->
  JS.truncate (JS.Math_max (-32768) (JS.Math_min 32767 (JS.Math_floor y))) = 0.
Proof.
  intros Hy.
  assert (Hfloor : JS.Math_floor y = y).
  { unfold JS.Math_floor. now destruct Hy as [-> | [s ->]]. }
  rewrite Hfloor.
  assert (Htrunc : JS.truncate y = 0).
  { unfold JS.truncate. now destruct Hy as [-> | [s ->]]. }
  destruct (clamp_cases y) as [Hnan | Hhigh | Hlow | _ _ _].
  - reflexivity.
  - exfalso. revert Hhigh. rewrite FloatAxioms.ltb_spec, Prim2SF_32767.
    now destruct Hy as [-> | [s ->]].
  - exfalso. revert Hlow. rewrite FloatAxioms.ltb_spec, Prim2SF_m32768.
    now destruct Hy as [-> | [s ->]].
  - exact Htrunc.
Qed.

Lemma silent_sample (v : float) (sample : Z) :
  is_zero v || is_nan v = true -> storedSample v sample = 0.
Proof.
  intros Hv. unfold storedSample, newSample. apply clamp_zero_or_nan.
  apply product_zero_or_nan. apply orb_true_iff in Hv. destruct Hv as [Hz | Hn].
  - right. now apply is_zero_Prim2SF.
  - left. now apply is_nan_Prim2SF.
Qed.

Lemma zero_bytes (r : float) :
  JS.truncate r = 0 ->
  byte.of_Z (JS.ToUint8 r) = Byte.x00
  /\ byte.of_Z (Z.shiftr (JS.ToUint32 r) 8) = Byte.x00.
Proof.
  intros Hr. unfold JS.ToUint8, JS.ToUint32. rewrite Hr.
  rewrite !Z.mod_0_l by (apply Z.pow_nonzero; lia). rewrite Z.shiftr_0_l.
  now split.
Qed.

Lemma silent_pair (v : float) (first last : byte) :
  is_zero v || is_nan v = true ->
  lowByte v first last = Byte.x00 /\ highByte v first last = Byte.x00.
Proof.
  intros Hv. unfold lowByte, highByte.
  generalize (silent_sample v (Buf.int16LE first last) Hv). unfold storedSample.
  generalize (newSample v (Buf.int16LE first last)). intros r Hr.
  now apply zero_bytes.
Qed.

Lemma silent_pcm (v : float) (pcm : Buffer) :
  is_zero v || is_nan v = true ->
  Nat.even (List.length pcm) = true ->
  scaledPcm v pcm = repeat Byte.x00 (List.length pcm).
Proof.
  intros Hv.
  induction pcm as [|x|x y rest IH] using pairs_ind; intros Heven.
  - reflexivity.
  - discriminate.
  - cbn [scaledPcm List.length repeat]. rewrite IH by exact Heven.
    destruct (silent_pair v x y Hv) as [-> ->]. reflexivity.
Qed.

(** What an unmuted [_sendFrame] does when the volume is a zero or
    NaN and the decoder returns whole samples. *)
Lemma silent_outcome
    (this : t Opus) (udp : Udp) (frame : Buffer) (frametime : float)
    (o1 : Opus) (pcmData : Buffer) :
  isMuted this = false ->
  is_zero (getVolume this) || is_nan (getVolume this) = true ->
  opus_decode (_opusEncoder this) frame = (o1, inr pcmData) ->
  Nat.even (List.length pcmData) = true ->
  let silence := repeat Byte.x00 (List.length pcmData) in
  scaleSamples (getVolume this) pcmData = inr silence
  /\ sendFrame this udp frame frametime
     = match opus_encode o1 silence 960 with
       | (o2, inr encoded) =>
           {| stream := with_opus this o2;
              transport := fst (sendAudioFrame udp encoded frametime);
              calls := [OpusDecode frame; OpusEncode silence 960;
                        SendAudioFrame encoded frametime];
              thrown := snd (sendAudioFrame udp encoded frametime) |}
       | (o2, inl e) =>
           {| stream := with_opus this o2;
              transport := fst (sendAudioFrame udp frame frametime);
              calls := [OpusDecode frame; OpusEncode silence 960;
                        ConsoleError "[AudioStream] Error processing audio frame:" e;
                        SendAudioFrame frame frametime];
              thrown := snd (sendAudioFrame udp frame frametime) |}
       end.
Proof.
  intros Hm Hv Hd Heven silence. unfold isMuted, getVolume in *.
  assert (Hloop : scaleSamples (_volume this) pcmData = inr silence).
  { rewrite (scaleSamples_even _ _ Heven). unfold silence.
    now rewrite (silent_pcm _ _ Hv Heven). }
  split; [exact Hloop|].
  assert (Hne : JS.strict_neq (_volume this) 1 = true).
  { unfold JS.strict_neq. apply negb_true_iff.
    rewrite FloatAxioms.eqb_spec. apply orb_true_iff in Hv.
    replace (Prim2SF 1) with (S754_finite false 4503599627370496 (-52)) by now vm_compute.
    destruct Hv as [Hz | Hn].
    - destruct (is_zero_Prim2SF _ Hz) as [s ->]. reflexivity.
    - now rewrite (is_nan_Prim2SF _ Hn). }
  unfold _sendFrame, processFrame. rewrite Hm, Hne, Hd. cbv iota beta. rewrite Hloop.
  destruct (opus_encode o1 silence 960) as [o2 [e | encoded]].
  - now destruct (sendAudioFrame udp frame frametime).
  - now destruct (sendAudioFrame udp encoded frametime).
Qed.

(** C10. [setVolume(NaN)] stores NaN: the branch for negative numbers
    is not taken and [Math.min(NaN, 2.0)] is NaN.  Since NaN differs
    from 1.0, an unmuted [_sendFrame] on a stream whose volume is NaN
    takes the codec path and leaves the volume NaN for the frames that
    follow: it calls the decoder on the frame; when the decoder throws,
    the frame is sent as it came; when it returns whole samples, the
    loop rewrites every sample (to 0, the integer part of NaN), the
    encoder is called on the rewritten buffer with frame size 960, and
    what the encoder returns is sent with the frametime of the frame
    (or the frame itself when the encoder throws). *)
Theorem NaN_volume_is_stored_and_takes_the_codec_path
    (this0 this : t Opus) (udp : Udp) (frame : Buffer) (frametime : float) :
  isMuted this = false ->
  getVolume this = nan ->
  let out := sendFrame this udp frame frametime in
  getVolume (setVolume this0 nan) = nan
  /\ (nan <? 0)%float = false
  /\ JS.Math_min nan 2 = nan
  /\ JS.strict_neq nan 1 = true
  /\ (exists rest, calls out = OpusDecode frame :: rest)
  /\ getVolume (stream out) = nan
  /\ (forall (o1 : Opus) (e : JsError),
        opus_decode (_opusEncoder this) frame = (o1, inl e) ->
        out = {| stream := with_opus this o1;
                 transport := fst (sendAudioFrame udp frame frametime);
                 calls := [OpusDecode frame;
                           ConsoleError "[AudioStream] Error processing audio frame:" e;
                           SendAudioFrame frame frametime];
                 thrown := snd (sendAudioFrame udp frame frametime) |})
  /\ (forall (o1 : Opus) (pcmData : Buffer),
        opus_decode (_opusEncoder this) frame = (o1, inr pcmData) ->
        Nat.even (List.length pcmData) = true ->
        let scaled := repeat Byte.x00 (List.length pcmData) in
        scaleSamples nan pcmData = inr scaled
        /\ Buf.samples scaled = map (fun _ => 0) (Buf.samples pcmData)
        /\ out
           = match opus_encode o1 scaled 960 with
             | (o2, inr encoded) =>
                 {| stream := with_opus this o2;
                    transport := fst (sendAudioFrame udp encoded frametime);
                    calls := [OpusDecode frame; OpusEncode scaled 960;
                              SendAudioFrame encoded frametime];
                    thrown := snd (sendAudioFrame udp encoded frametime) |}
             | (o2, inl e) =>
                 {| stream := with_opus this o2;
                    transport := fst (sendAudioFrame udp frame frametime);
                    calls := [OpusDecode frame; OpusEncode scaled 960;
                              ConsoleError "[AudioStream] Error processing audio frame:" e;
                              SendAudioFrame frame frametime];
                    thrown := snd (sendAudioFrame udp frame frametime) |}
             end).
Proof.
  intros Hm Hv out.
  assert (Hsilent : is_zero (getVolume this) || is_nan (getVolume this) = true)
    by (rewrite Hv; reflexivity).
  assert (Hpath : forall (o1 : Opus) (pcmData : Buffer),
             opus_decode (_opusEncoder this) frame = (o1, inr pcmData) ->
             Nat.even (List.length pcmData) = true ->
             scaleSamples nan pcmData = inr (repeat Byte.x00 (List.length pcmData))
             /\ Buf.samples (repeat Byte.x00 (List.length pcmData))
                = map (fun _ => 0) (Buf.samples pcmData)
             /\ out
                = match opus_encode o1 (repeat Byte.x00 (List.length pcmData)) 960 with
                  | (o2, inr encoded) =>
                      {| stream := with_opus this o2;
                         transport := fst (sendAudioFrame udp encoded frametime);
                         calls := [OpusDecode frame;
                                   OpusEncode (repeat Byte.x00 (List.length pcmData)) 960;
                                   SendAudioFrame encoded frametime];
                         thrown := snd (sendAudioFrame udp encoded frametime) |}
                  | (o2, inl e) =>
                      {| stream := with_opus this o2;
                         transport := fst (sendAudioFrame udp frame frametime);
                         calls := [OpusDecode frame;
                                   OpusEncode (repeat Byte.x00 (List.length pcmData)) 960;
                                   ConsoleError
                                     "[AudioStream] Error processing audio frame:" e;
                                   SendAudioFrame frame frametime];
                         thrown := snd (sendAudioFrame udp frame frametime) |}
                  end).
  { intros o1 pcmData Hd Heven.
    destruct (silent_outcome this udp frame frametime o1 pcmData Hm Hsilent Hd Heven)
      as [Hloop Hout].
    rewrite Hv in Hloop. split; [exact Hloop|]. split; [|exact Hout].
    rewrite <- (silent_pcm nan pcmData eq_refl Heven), scaledPcm_samples.
    apply map_ext. intros sample. now apply silent_sample. }
  unfold isMuted in Hm. unfold getVolume in *.
  split; [now vm_compute|]. split; [now vm_compute|].
  split; [now vm_compute|]. split; [now vm_compute|].
  assert (Hfail : forall (o1 : Opus) (e : JsError),
             opus_decode (_opusEncoder this) frame = (o1, inl e) ->
             out = {| stream := with_opus this o1;
                      transport := fst (sendAudioFrame udp frame frametime);
                      calls := [OpusDecode frame;
                                ConsoleError
                                  "[AudioStream] Error processing audio frame:" e;
                                SendAudioFrame frame frametime];
                      thrown := snd (sendAudioFrame udp frame frametime) |}).
  { intros o1 e Hd. unfold out, _sendFrame, processFrame. rewrite Hm, Hv, Hd.
    replace (JS.strict_neq nan 1) with true by now vm_compute.
    now destruct (sendAudioFrame udp frame frametime). }
  split; [|split; [|split; [exact Hfail | exact Hpath]]].
  - unfold out, _sendFrame. rewrite Hm, Hv.
    replace (JS.strict_neq nan 1) with true by now vm_compute.
    unfold processFrame.
    destruct (opus_decode (_opusEncoder this) frame) as [o1 [e | pcm]].
    + destruct (sendAudioFrame udp frame frametime). cbn. eauto.
    + rewrite Hv. destruct (scaleSamples nan pcm) as [e | scaled].
      * destruct (sendAudioFrame udp frame frametime). cbn. eauto.
      * destruct (opus_encode o1 scaled 960) as [o2 [e | encoded]].
        -- destruct (sendAudioFrame udp frame frametime). cbn. eauto.
        -- destruct (sendAudioFrame udp encoded frametime). cbn. eauto.
  - unfold out, _sendFrame. rewrite Hm, Hv.
    replace (JS.strict_neq nan 1) with true by now vm_compute.
    unfold processFrame.
    destruct (opus_decode (_opusEncoder this) frame) as [o1 [e | pcm]].
    + now destruct (sendAudioFrame udp frame frametime).
    + rewrite Hv. destruct (scaleSamples nan pcm) as [e | scaled].
      * now destruct (sendAudioFrame udp frame frametime).
      * destruct (opus_encode o1 scaled 960) as [o2 [e | encoded]].
        -- now destruct (sendAudioFrame udp frame frametime).
        -- now destruct (sendAudioFrame udp encoded frametime).
Qed.

End AudioStreamProperties.


(** * Properties of the session of [playStream] *)

Section SessionFacts.

Import PlayStream.

(** ** Logs *)

Lemma run_app (s : Session) (a b : list Event) :
  run s (a ++ b)
  = (final (final s a) b, effects s a ++ effects (final s a) b).
Proof.
  unfold final, effects. revert s.
  induction a as [|ev a IH]; intros s; cbn [run app fst snd].
  - now destruct (run s b).
  - destruct (step s ev) as [s1 log1]. rewrite IH.
    destruct (run s1 a) as [s2 log2]. cbn [fst snd].
    now rewrite app_assoc.
Qed.

Lemma final_app (s : Session) (a b : list Event) :
  final s (a ++ b) = final (final s a) b.
Proof. unfold final at 1. now rewrite run_app. Qed.

Lemma effects_app (s : Session) (a b : list Event) :
  effects s (a ++ b) = effects s a ++ effects (final s a) b.
Proof. unfold effects at 1. now rewrite run_app. Qed.

Lemma final_cons (s : Session) (ev : Event) (evs : list Event) :
  final s (ev :: evs) = final (fst (step s ev)) evs.
Proof.
  unfold final. simpl run. destruct (step s ev) as [s1 l1]. cbn [fst].
  now destruct (run s1 evs).
Qed.

Lemma effects_cons (s : Session) (ev : Event) (evs : list Event) :
  effects s (ev :: evs) = snd (step s ev) ++ effects (fst (step s ev)) evs.
Proof.
  unfold effects. simpl run. destruct (step s ev) as [s1 l1]. cbn [fst snd].
  now destruct (run s1 evs).
Qed.

Lemma occurrences_app (e : Effect) (a b : list Effect) :
  occurrences e (a ++ b) = (occurrences e a + occurrences e b)%nat.
Proof. unfold occurrences. now rewrite filter_app, length_app. Qed.

Lemma teardown_app (a b : list Effect) : teardown (a ++ b) = teardown a ++ teardown b.
Proof. apply filter_app. Qed.

Lemma teardown_calls (fs : list CleanupFunc) :
  teardown (flat_map call fs) = flat_map call fs.
Proof.
  induction fs as [|f fs IH]; [reflexivity|].
  cbn [flat_map]. rewrite teardown_app, IH. now destruct f.
Qed.



(** ** One step *)

Lemma cleaned_stays (s : Session) (ev : Event) :
  cleanedUp s = true ->
  cleanedUp (fst (step s ev)) = true /\ teardown (snd (step s ev)) = [].
Proof.
  intros H. destruct ev; step_cases; cbn; auto; congruence.
Qed.


Lemma done_stays (s : Session) (ev : Event) :
  done s <> Pending -> done (fst (step s ev)) = done s.
Proof.
  intros H. destruct ev; step_cases; cbn; congruence.
Qed.

Lemma streamPromise_stays (s : Session) (ev : Event) :
  streamPromise s <> Pending -> streamPromise (fst (step s ev)) = streamPromise s.
Proof.
  intros H. destruct ev; step_cases; cbn; congruence.
Qed.

Lemma registered_step (s : Session) (ev : Event) :
  registered s -> registered (fst (step s ev)).
Proof.
  unfold registered. intros H. destruct ev; step_cases; cbn; try assumption;
    destruct H as [H | [H1 H]]; rewrite ?H; cbn; auto; congruence.
Qed.


(** ** Runs *)

Lemma cleaned_run (s : Session) (evs : list Event) :
  cleanedUp s = true ->
  cleanedUp (final s evs) = true /\ teardown (effects s evs) = [].
Proof.
  revert s. induction evs as [|ev evs IH]; intros s H; [now split|].
  rewrite final_cons, effects_cons, teardown_app.
  destruct (cleaned_stays s ev H) as [H1 ->].
  now apply IH.
Qed.

Lemma done_run (s : Session) (evs : list Event) :
  done s <> Pending -> done (final s evs) = done s.
Proof.
  revert s. induction evs as [|ev evs IH]; intros s H; [reflexivity|].
  rewrite final_cons, IH; rewrite done_stays; auto.
Qed.

Lemma streamPromise_run (s : Session) (evs : list Event) :
  streamPromise s <> Pending -> streamPromise (final s evs) = streamPromise s.
Proof.
  revert s. induction evs as [|ev evs IH]; intros s H; [reflexivity|].
  rewrite final_cons, IH; rewrite streamPromise_stays; auto.
Qed.

Lemma registered_run (s : Session) (evs : list Event) :
  registered s -> registered (final s evs).
Proof.
  revert s. induction evs as [|ev evs IH]; intros s H; [exact H|].
  rewrite final_cons. now apply IH, registered_step.
Qed.


(** ** Sessions made by [playStream] *)

Lemma fire_idle (g : option AbortSignal) (abort : option Value) :
  opt_aborted g = false -> opt_aborted (fire g abort) = false -> fire g abort = g.
Proof. destruct g as [[|why]|], abort; cbn; congruence. Qed.

(** What [playStream] returns, when it returns. *)
Lemma playStream_returns (env : Env) (opts : Options) (s : Session)
    (setup : list Effect) :
  playStream env opts = inr (s, setup) ->
  opt_aborted (signalAfterDemux env) = false
  /\ cancelSignal s = signalAtReturn env
  /\ cleanedUp s = false
  /\ listeners s = armed env
  /\ streamPromise s = Pending
  /\ done s = Pending
  /\ cleanupFuncs s = [StopTransport].
Proof.
  unfold playStream.
  destruct (opt_aborted (env_cancelSignal env)) eqn:Ha; [discriminate|].
  destruct (negb (voiceConnection env)); [discriminate|].
  destruct (opt_aborted (signalAfterDemux env)) eqn:Hd; [discriminate|].
  destruct (negb (video env)); [discriminate|].
  intros [= <- _]. cbn. auto 10.
Qed.

Lemma playStream_registered (env : Env) (opts : Options) (s : Session)
    (setup : list Effect) :
  playStream env opts = inr (s, setup) -> registered s.
Proof.
  intros H. left. apply (playStream_returns env opts s setup H).
Qed.

(** A trigger is one only for a session whose signal had not fired
    when its listeners were attached. *)
Lemma trigger_in_time (env : Env) (ev : Event) :
  trigger env ev = true -> opt_aborted (signalAtReturn env) = false.
Proof.
  unfold trigger. intros H. apply andb_prop in H. now apply negb_true_iff.
Qed.

Lemma playStream_pristine (env : Env) (opts : Options) (s : Session)
    (setup : list Effect) :
  playStream env opts = inr (s, setup) ->
  opt_aborted (signalAtReturn env) = false ->
  pristine env s /\ registered s.
Proof.
  intros Hplay Hlate. split; [|now apply (playStream_registered env opts s setup)].
  destruct (playStream_returns env opts s setup Hplay)
    as (Hd & Hsig & Hc & Hl & Hp & Hdone & _).
  unfold pristine. rewrite Hsig. repeat split; try assumption.
  unfold signalAtReturn in *. rewrite (fire_idle _ _ Hd Hlate).
  unfold signalAfterDemux in *. apply fire_idle; [|exact Hd].
  destruct (env_cancelSignal env) as [[|why]|]; try reflexivity.
  destruct (abortWhileDemuxing env); discriminate Hd.
Qed.

Lemma quiet_step (env : Env) (s : Session) (ev : Event) :
  pristine env s -> quiet ev = true ->
  pristine env (fst (step s ev)) /\ teardown (snd (step s ev)) = [].
Proof.
  unfold pristine. intros (H1 & H2 & H3 & H4 & H5 & H6) Hq.
  destruct ev; try discriminate Hq; step_cases; cbn; auto 10; congruence.
Qed.

Lemma quiet_run (env : Env) (s : Session) (pre : list Event) :
  pristine env s -> forallb quiet pre = true ->
  pristine env (final s pre) /\ teardown (effects s pre) = [].
Proof.
  revert s. induction pre as [|ev pre IH]; intros s Hp Hq; [now split|].
  cbn [forallb] in Hq. apply andb_prop in Hq. destruct Hq as [Hq Hpre].
  rewrite final_cons, effects_cons, teardown_app.
  destruct (quiet_step env s ev Hp Hq) as [Hp' ->].
  now apply IH.
Qed.

(** What the listeners of the first terminal trigger do to a pristine
    session: the teardown runs and the inner promise is settled; the
    returned promise waits for the end of the turn. *)
Lemma trigger_step (env : Env) (s : Session) (ev : Event) :
  pristine env s -> trigger env ev = true ->
  let s' := fst (step s ev) in
  cleanedUp s' = true
  /\ teardown (snd (step s ev)) = flat_map call (cleanupFuncs s)
  /\ done s' = Pending
  /\ match ev with
     | VideoFinish => streamPromise s' = Fulfilled /\ cancelSignal s' = cancelSignal s
     | Abort r =>
         streamPromise s' = Rejected (abortReason r)
         /\ cancelSignal s' = Some (AbortedWith (abortReason r))
     | VideoError e | AudioError e =>
         streamPromise s' = Rejected e /\ cancelSignal s' = cancelSignal s
     | _ => True
     end.
Proof.
  unfold pristine, armed. intros (H1 & H2 & H3 & H4 & H5 & H6) Ht.
  unfold trigger in Ht. apply andb_prop in Ht. destruct Ht as [_ Ht].
  destruct s as [sig vs aus sb pp fs cu ls sp dn].
  cbn [cancelSignal cleanedUp listeners streamPromise done] in *. subst.
  destruct (env_cancelSignal env) as [[|why]|] eqn:Hsig; try discriminate H2;
    destruct ev; try discriminate Ht; try rewrite Ht;
    unfold step, deliver, abortListener, finishListener, errorListener, cleanup;
    cbn [cancelSignal cleanedUp listeners streamPromise done cleanupFuncs
         with_cancelSignal with_listeners with_cleanedUp with_streamPromise with_done
         onAbort onFinish onVideoError onAudioError detach_abort detach_finish
         detach_videoError detach_audioError opt_aborted opt_reason aborted reason
         resolve reject negb fst snd];
    rewrite ?teardown_calls; repeat split.
Qed.

(** The whole run around the first terminal trigger. *)
Lemma first_trigger (env : Env) (opts : Options) (s : Session) (setup : list Effect)
    (pre post : list Event) (ev : Event) :
  playStream env opts = inr (s, setup) ->
  forallb quiet pre = true ->
  trigger env ev = true ->
  let s1 := fst (step (final s pre) ev) in
  pristine env (final s pre)
  /\ registered (final s pre)
  /\ teardown (effects s (pre ++ ev :: post)) = flat_map call (cleanupFuncs (final s pre))
  /\ (done s1 <> Pending -> done (final s (pre ++ ev :: post)) = done s1)
  /\ (streamPromise s1 <> Pending ->
      streamPromise (final s (pre ++ ev :: post)) = streamPromise s1).
Proof.
  intros Hplay Hpre Hev s1.
  destruct (playStream_pristine _ _ _ _ Hplay (trigger_in_time env ev Hev)) as [Hp Hr].
  destruct (quiet_run env s pre Hp Hpre) as [Hp' Ht].
  destruct (trigger_step env _ ev Hp' Hev) as (Hc & Hlog & _).
  split; [exact Hp'|]. split; [now apply registered_run|].
  rewrite final_app, final_cons, effects_app, effects_cons, !teardown_app, Ht, Hlog.
  destruct (cleaned_run _ post Hc) as [_ ->]. rewrite app_nil_r. cbn [app].
  split; [reflexivity|]. split; intros H.
  - now apply done_run.
  - now apply streamPromise_run.
Qed.

(** ** Turns *)

(** The signal changes only when its controller aborts. *)
Lemma signal_step (s : Session) (ev : Event) :
  cancelSignal (fst (step s ev)) = signalAfter (cancelSignal s) [ev].
Proof.
  destruct ev; unfold signalAfter; cbn [fold_left fire];
    try (step_cases; reflexivity).
  unfold step, deliver, abortListener, cleanup.
  destruct (cancelSignal s) as [[|why]|] eqn:Hsig; cbn [aborted fire fst];
    try exact Hsig.
  cbn [with_cancelSignal listeners].
  destruct (onAbort (listeners s));
    cbn [with_listeners with_cancelSignal cleanedUp];
    [destruct (cleanedUp s)|]; reflexivity.
Qed.

Lemma signalAfter_app (g : option AbortSignal) (a b : list Event) :
  signalAfter g (a ++ b) = signalAfter (signalAfter g a) b.
Proof. apply fold_left_app. Qed.

Lemma signal_run (s : Session) (evs : list Event) :
  cancelSignal (final s evs) = signalAfter (cancelSignal s) evs.
Proof.
  revert s. induction evs as [|ev evs IH]; intros s; [reflexivity|].
  rewrite final_cons, IH, signal_step. reflexivity.
Qed.

Lemma signalAfter_aborted (why : Value) (evs : list Event) :
  signalAfter (Some (AbortedWith why)) evs = Some (AbortedWith why).
Proof.
  induction evs as [|ev evs IH]; [reflexivity|]. now destruct ev.
Qed.

Lemma signalAfter_none (evs : list Event) : signalAfter None evs = None.
Proof.
  induction evs as [|ev evs IH]; [reflexivity|]. now destruct ev.
Qed.


(** Within a turn the returned promise keeps its state. *)
Lemma turn_step (s : Session) (ev : Event) :
  sameTurn ev = true -> done (fst (step s ev)) = done s.
Proof.
  intros H. destruct ev; try discriminate H; step_cases; reflexivity.
Qed.

Lemma turn_run (s : Session) (turn : list Event) :
  forallb sameTurn turn = true -> done (final s turn) = done s.
Proof.
  revert s. induction turn as [|ev turn IH]; intros s H; [reflexivity|].
  cbn [forallb] in H. apply andb_prop in H. destruct H as [Hev Hturn].
  rewrite final_cons, (IH _ Hturn). now apply turn_step.
Qed.

(** The reaction at the end of the turn: the [catch] handler reads the
    signal as it is then. *)
Lemma end_of_turn (s : Session) :
  done s = Pending ->
  done (fst (step s EndOfTurn))
  = match streamPromise s with
    | Pending => Pending
    | Fulfilled => Fulfilled
    | Rejected err =>
        if strict_eq err (opt_reason (cancelSignal s)) then Fulfilled else Rejected err
    end.
Proof.
  intros H. unfold step, microtask, catchHandler. rewrite H.
  destruct (streamPromise s) as [| |err]; try (cbn; congruence).
  cbn [fst snd done with_done]. now destruct (strict_eq err (opt_reason (cancelSignal s))).
Qed.

(** The turn of the first terminal trigger, from its listeners to the
    reaction of the returned promise. *)
Lemma trigger_turn (env : Env) (opts : Options) (s : Session) (setup : list Effect)
    (pre turn post : list Event) (ev : Event) :
  playStream env opts = inr (s, setup) ->
  forallb quiet pre = true ->
  forallb sameTurn turn = true ->
  trigger env ev = true ->
  let s1 := fst (step (final s pre) ev) in
  cancelSignal (final s pre) = cancelSignal s
  /\ opt_aborted (cancelSignal s) = false
  /\ done (final s (pre ++ ev :: turn)) = Pending
  /\ streamPromise (final s (pre ++ ev :: turn)) = streamPromise s1
  /\ cancelSignal (final s (pre ++ ev :: turn)) = signalAfter (cancelSignal s1) turn
  /\ done (final s (pre ++ ev :: turn ++ EndOfTurn :: post))
     = match streamPromise s1 with
       | Pending => Pending
       | Fulfilled => Fulfilled
       | Rejected err =>
           if strict_eq err (opt_reason (signalAfter (cancelSignal s1) turn))
           then Fulfilled else Rejected err
       end
  /\ streamPromise (final s (pre ++ ev :: turn ++ EndOfTurn :: post)) = streamPromise s1
  /\ streamPromise s1 <> Pending.
Proof.
  intros Hplay Hpre Hturn Hev s1.
  destruct (playStream_pristine _ _ _ _ Hplay (trigger_in_time env ev Hev)) as [Hp _].
  destruct (quiet_run env s pre Hp Hpre) as [Hp' _].
  destruct (trigger_step env _ ev Hp' Hev) as (_ & _ & Hdone & Hev').
  fold s1 in Hdone, Hev'.
  assert (Hsettled : streamPromise s1 <> Pending).
  { unfold trigger in Hev. apply andb_prop in Hev. destruct Hev as [_ Hev].
    destruct ev; try discriminate Hev; destruct Hev' as [-> _]; discriminate. }
  assert (Hs2 : final s (pre ++ ev :: turn) = final s1 turn)
    by (rewrite final_app, final_cons; reflexivity).
  assert (Hd2 : done (final s1 turn) = Pending) by (rewrite turn_run; assumption).
  assert (Hp2 : streamPromise (final s1 turn) = streamPromise s1)
    by (now apply streamPromise_run).
  split; [destruct Hp as (-> & _); destruct Hp' as (-> & _); reflexivity|].
  split; [apply Hp|].
  rewrite Hs2. split; [exact Hd2|]. split; [exact Hp2|].
  split; [apply signal_run|].
  replace (pre ++ ev :: turn ++ EndOfTurn :: post)
    with ((pre ++ ev :: turn) ++ EndOfTurn :: post)
    by (rewrite <- app_assoc; reflexivity).
  rewrite (final_app s (pre ++ ev :: turn)), Hs2, final_cons.
  pose proof (end_of_turn (final s1 turn) Hd2) as Hend.
  rewrite Hp2, signal_run in Hend.
  split; [|split; [|exact Hsettled]].
  - rewrite done_run; [exact Hend|]. rewrite Hend.
    destruct (streamPromise s1) as [| |err]; try congruence; try discriminate.
    destruct (strict_eq err _); discriminate.
  - rewrite streamPromise_run; rewrite streamPromise_stays; rewrite ?Hp2; auto.
Qed.

(** A session whose signal fired during its setup never reacts: no
    listener tears anything down or settles a promise. *)
Lemma late_step (s : Session) (ev : Event) :
  opt_aborted (cancelSignal s) = true -> cleanedUp s = false ->
  streamPromise s = Pending -> done s = Pending ->
  (opt_aborted (cancelSignal (fst (step s ev))) = true
   /\ cleanedUp (fst (step s ev)) = false
   /\ streamPromise (fst (step s ev)) = Pending
   /\ done (fst (step s ev)) = Pending)
  /\ teardown (snd (step s ev)) = [].
Proof.
  intros H1 H2 H3 H4.
  destruct s as [sig vs aus sb pp fs cu ls sp dn].
  cbn [cancelSignal cleanedUp streamPromise done] in *. subst.
  destruct sig as [[|why]|]; try discriminate H1.
  destruct ev; step_cases; cbn; auto 10.
Qed.

Lemma late_run (s : Session) (evs : list Event) :
  opt_aborted (cancelSignal s) = true -> cleanedUp s = false ->
  streamPromise s = Pending -> done s = Pending ->
  streamPromise (final s evs) = Pending
  /\ done (final s evs) = Pending
  /\ cleanedUp (final s evs) = false
  /\ teardown (effects s evs) = [].
Proof.
  revert s. induction evs as [|ev evs IH]; intros s H1 H2 H3 H4; [now repeat split|].
  destruct (late_step s ev H1 H2 H3 H4) as [(H1' & H2' & H3' & H4') Hlog].
  rewrite final_cons, effects_cons, teardown_app, Hlog.
  now apply IH.
Qed.







(** ** The burst *)

Lemma no_OffPts_in_calls (fs : list CleanupFunc) :
  occurrences OffPts (flat_map call fs) = 0%nat.
Proof.
  induction fs as [|f fs IH]; [reflexivity|].
  cbn [flat_map]. rewrite occurrences_app, IH. now destruct f.
Qed.

(** While [stopBurst] is subscribed, an event other than a "pts"
    notification at or past the threshold changes neither the switches
    nor the subscription. *)
Lemma burst_holds_step (s : Session) (T : float) (ev : Event) :
  stopBurst s = Some T -> below T ev = true ->
  burstView (fst (step s ev)) = burstView s
  /\ occurrences OffPts (snd (step s ev)) = 0%nat.
Proof.
  intros H Hb. unfold burstView.
  destruct ev; cbn [below] in Hb; step_cases;
    cbn [fst snd vStream audioStreamInstance stopBurst with_done with_streamPromise
         with_cleanedUp with_listeners with_cancelSignal with_preview with_burst];
    rewrite ?occurrences_app, ?no_OffPts_in_calls; split; try reflexivity; congruence.
Qed.

(** Once [stopBurst] is unsubscribed nothing touches the switches. *)
Lemma burst_over_step (s : Session) (ev : Event) :
  stopBurst s = None ->
  burstView (fst (step s ev)) = burstView s
  /\ occurrences OffPts (snd (step s ev)) = 0%nat.
Proof.
  intros H. unfold burstView.
  destruct ev; step_cases;
    cbn [fst snd vStream audioStreamInstance stopBurst with_done with_streamPromise
         with_cleanedUp with_listeners with_cancelSignal with_preview with_burst];
    rewrite ?occurrences_app, ?no_OffPts_in_calls; split; try reflexivity; congruence.
Qed.

Lemma burst_holds (s : Session) (T : float) (evs : list Event) :
  stopBurst s = Some T -> forallb (below T) evs = true ->
  burstView (final s evs) = burstView s
  /\ occurrences OffPts (effects s evs) = 0%nat.
Proof.
  revert s. induction evs as [|ev evs IH]; intros s H Hb; [now split|].
  cbn [forallb] in Hb. apply andb_prop in Hb. destruct Hb as [Hev Hevs].
  destruct (burst_holds_step s T ev H Hev) as [Hv Ho].
  rewrite final_cons, effects_cons, occurrences_app, Ho.
  assert (H' : stopBurst (fst (step s ev)) = Some T)
    by (unfold burstView in Hv; congruence).
  destruct (IH _ H' Hevs) as [Hv' Ho']. rewrite Hv', Ho'. now split.
Qed.

Lemma burst_over (s : Session) (evs : list Event) :
  stopBurst s = None ->
  burstView (final s evs) = burstView s
  /\ occurrences OffPts (effects s evs) = 0%nat.
Proof.
  revert s. induction evs as [|ev evs IH]; intros s H; [now split|].
  destruct (burst_over_step s ev H) as [Hv Ho].
  rewrite final_cons, effects_cons, occurrences_app, Ho.
  assert (H' : stopBurst (fst (step s ev)) = None)
    by (unfold burstView in Hv; congruence).
  destruct (IH _ H') as [Hv' Ho']. rewrite Hv', Ho'. now split.
Qed.

(** The notification that ends the burst. *)
Lemma burst_ends_step (s : Session) (T pts : float) (a : StreamFlags) :
  stopBurst s = Some T -> audioStreamInstance s = Some a ->
  (pts <? T * 1000)%float = false ->
  burstView (fst (step s (Pts pts)))
  = ({| sync := true; noSleep := false |},
     Some {| sync := sync a; noSleep := false |}, None)
  /\ occurrences OffPts (snd (step s (Pts pts))) = 1%nat.
Proof.
  intros H Ha Hp. unfold burstView.
  step_cases;
    cbn [fst snd vStream audioStreamInstance stopBurst with_done with_burst];
    split; try reflexivity; congruence.
Qed.

(** The burst duration that [mergeOptions] keeps. *)
Lemma merged_burst (opts : Options) (T : float) :
  readrateInitialBurst opts = Some T ->
  is_finite T = true -> (0 <? T)%float = true ->
  m_readrateInitialBurst (mergeOptions opts) = Some T.
Proof.
  intros H Hf Hpos. unfold mergeOptions. cbn [m_readrateInitialBurst].
  rewrite H. unfold isFiniteNonZero. rewrite Hf, Hpos.
  replace (is_zero T) with false; [reflexivity|].
  unfold is_zero. revert Hpos.
  rewrite FloatAxioms.ltb_spec, FloatAxioms.eqb_spec.
  replace (Prim2SF 0) with (S754_zero false) by now vm_compute.
  destruct (Prim2SF T) as [[]|[]| |[] m e]; try discriminate; reflexivity.
Qed.

(** A timestamp at or past a threshold is not below it. *)
Lemma at_or_past_not_below (x y : float) :
  (x <=? y)%float = true -> (y <? x)%float = false.
Proof.
  rewrite FloatAxioms.leb_spec, FloatAxioms.ltb_spec.
  unfold SFleb, SFltb, SFcompare.
  destruct (Prim2SF x) as [[]|[]| |[] m1 e1];
    destruct (Prim2SF y) as [[]|[]| |[] m2 e2]; try discriminate; try reflexivity;
    rewrite !(compare_cont_Z);
    destruct (Z.compare_spec e1 e2); destruct (Z.compare_spec e2 e1);
      try discriminate; try reflexivity; try lia;
    destruct (Z.compare_spec (Zpos m1) (Zpos m2));
      destruct (Z.compare_spec (Zpos m2) (Zpos m1));
      cbn; try discriminate; try reflexivity; lia.
Qed.

(** C3 (as the code has it). With an audio stream in the input and a
    finite positive initial burst [T]: the session starts with
    [noSleep] set on both streams, [sync] cleared on the video stream
    and [stopBurst] subscribed; nothing changes as long as the "pts"
    notifications stay below [T * 1000]; at the first notification at
    or past it, [sync] is restored on the video stream, [noSleep] is
    cleared on both streams and [stopBurst] unsubscribes; whatever
    follows leaves the switches as they are, and [stopBurst] has
    unsubscribed exactly once in the whole run. *)
Theorem burst_ends_once_at_the_threshold
    (env : Env) (opts : Options) (s : Session) (setup : list Effect)
    (T pts : float) (pre post : list Event) :
  playStream env opts = inr (s, setup) ->
  audio env = true ->
  readrateInitialBurst opts = Some T ->
  is_finite T = true -> (0 <? T)%float = true ->
  forallb (below T) pre = true ->
  (T * 1000 <=? pts)%float = true ->
  let burst := ({| sync := false; noSleep := true |},
                Some {| sync := sync (new_AudioStream env); noSleep := true |},
                Some T) in
  let normal := ({| sync := true; noSleep := false |},
                 Some {| sync := sync (new_AudioStream env); noSleep := false |},
                 None) in
  burstView s = burst
  /\ (burstView (final s pre) = burst /\ occurrences OffPts (effects s pre) = 0%nat)
  /\ burstView (final s (pre ++ [Pts pts])) = normal
  /\ burstView (final s (pre ++ Pts pts :: post)) = normal
  /\ occurrences OffPts (effects s (pre ++ Pts pts :: post)) = 1%nat.
Proof.
  intros Hplay Ha HT Hfin Hpos Hpre Hpts burst normal.
  apply at_or_past_not_below in Hpts.
  assert (Hs : burstView s = burst).
  { revert Hplay. unfold playStream.
    destruct (opt_aborted (env_cancelSignal env)); [discriminate|].
    destruct (negb (voiceConnection env)); [discriminate|].
    destruct (opt_aborted (signalAfterDemux env)); [discriminate|].
    destruct (negb (video env)); [discriminate|].
    rewrite Ha, (merged_burst opts T HT Hfin Hpos). now intros [= <- _]. }
  assert (Hsub : stopBurst s = Some T) by (unfold burstView, burst in Hs; congruence).
  destruct (burst_holds s T pre Hsub Hpre) as [Hv Ho].
  rewrite Hs in Hv.
  assert (Hsub' : stopBurst (final s pre) = Some T)
    by (unfold burstView, burst in Hv; congruence).
  assert (Haud : audioStreamInstance (final s pre)
                 = Some {| sync := sync (new_AudioStream env); noSleep := true |})
    by (unfold burstView, burst in Hv; congruence).
  destruct (burst_ends_step (final s pre) T pts _ Hsub' Haud Hpts) as [Hflip Hoff].
  cbn [sync] in Hflip.
  assert (Hnone : stopBurst (fst (step (final s pre) (Pts pts))) = None)
    by (unfold burstView in Hflip; congruence).
  destruct (burst_over _ post Hnone) as [Hkeep Hquiet].
  split; [exact Hs|]. split; [now split|].
  split; [rewrite final_app, final_cons; exact Hflip|].
  split.
  - rewrite final_app, final_cons, Hkeep. exact Hflip.
  - rewrite effects_app, effects_cons, !occurrences_app, Ho, Hoff, Hquiet. reflexivity.
Qed.

End SessionFacts.


(** * The properties on examples *)

Section Examples.

Import AudioStream PlayStream SessionLog.
Local Open Scope float_scope.

Example setVolume_examples :
  getVolume (setVolume (Demo.stream false 1) (-1)) = 0
  /\ getVolume (setVolume (Demo.stream false 1) 5) = 2
  /\ getVolume (setVolume (Demo.stream false 1) 0.5) = 0.5
  /\ getVolume (setVolume (Demo.stream false 1) infinity) = 2
  /\ getVolume (setVolume (Demo.stream false 1) neg_infinity) = 0.
Proof. repeat split. Qed.

Example scaled_frame_example :
  Buf.samples Demo.frame = [20000; -32768; -1]%Z
  /\ Buf.samples (scaledPcm 2 Demo.frame) = [32767; -32768; -2]%Z
  /\ Buf.samples (scaledPcm 0.5 Demo.frame) = [10000; -16384; -1]%Z
  /\ Buf.samples (scaledPcm nan Demo.frame) = [0; 0; 0]%Z
  /\ calls (Demo.sendFrame (Demo.stream false 2) [] Demo.frame 20)
     = [OpusDecode Demo.frame;
        OpusEncode (scaledPcm 2 Demo.frame) 960;
        SendAudioFrame (scaledPcm 2 Demo.frame) 20].
Proof. repeat split; now vm_compute. Qed.

(** A frame with a byte left over: the loop throws at the last byte
    and the frame is sent as it came. *)
Example odd_length_example :
  scaleSamples 2 [Byte.x01; Byte.x00; Byte.x07] = inl ERR_OUT_OF_RANGE
  /\ filter is_send
       (calls (Demo.sendFrame (Demo.stream false 2) [] [Byte.x01; Byte.x00; Byte.x07] 20))
     = [SendAudioFrame [Byte.x01; Byte.x00; Byte.x07] 20]
  /\ scaleSamples 2 [Byte.x01] = inl ERR_BUFFER_OUT_OF_BOUNDS.
Proof. repeat split; now vm_compute. Qed.

(** A cleanup function registered once the teardown has run is never
    called: the preview task pushes its two functions when its decoder
    is ready, whether or not the session is over. *)
Example late_registration_example :
  let evs := [VideoFinish; DecoderReady true] in
  In FreeDecoder (cleanupFuncs (final (demoSession true) evs))
  /\ occurrences (Invoke FreeDecoder) (effects (demoSession true) evs) = 0%nat.
Proof. split; [right; left; reflexivity | reflexivity]. Qed.

(** A cancellation whose reason is NaN is not swallowed, since NaN is
    not equal to itself. *)
Example NaN_reason_example :
  done (final (demoSession true) [Abort (VNumber nan); EndOfTurn])
  = Rejected (VNumber nan).
Proof. reflexivity. Qed.

(** The [catch] handler runs when the turn ends and reads the signal
    then.  An error of the video stream alone rejects [done] and is
    logged; when the controller aborts with the same value before the
    turn ends, the handler finds the signal aborted and the error equal
    to its reason: nothing is logged and [done] is fulfilled.  When the
    abort comes a turn later, it changes nothing any more. *)
Example same_turn_example :
  run (demoSession true) [VideoError (VObject 3); EndOfTurn]
  = (final (demoSession true) [VideoError (VObject 3); EndOfTurn],
     [Invoke StopTransport; ConsoleLog "Aborted"; SetSpeaking false;
      SetVideoAttributes false; LoggerError (VObject 3)])
  /\ done (final (demoSession true) [VideoError (VObject 3); EndOfTurn])
     = Rejected (VObject 3)
  /\ effects (demoSession true) [VideoError (VObject 3); Abort (VObject 3); EndOfTurn]
     = [Invoke StopTransport; ConsoleLog "Aborted"; SetSpeaking false;
        SetVideoAttributes false]
  /\ done (final (demoSession true)
             [VideoError (VObject 3); Abort (VObject 3); EndOfTurn])
     = Fulfilled
  /\ done (final (demoSession true)
             [VideoError (VObject 3); Abort (VObject 4); EndOfTurn])
     = Rejected (VObject 3)
  /\ done (final (demoSession true)
             [VideoError (VObject 3); EndOfTurn; Abort (VObject 3); EndOfTurn])
     = Rejected (VObject 3).
Proof. repeat split. Qed.

(** A signal that fires while [playStream] awaits [demux] makes the
    second [throwIfAborted] throw its reason.  One that fires while
    [playStream] awaits the transport does not stop the setup: the
    session is returned with speaking and video set, and then neither a
    finish, nor an error, nor a further abort tears it down or settles
    [done]. *)
Example late_abort_example :
  playStream
    {| env_cancelSignal := Some Idle; voiceConnection := true; video := true;
       audio := true; existingUdp := false; new_VideoStream := freshFlags;
       new_AudioStream := freshFlags; abortWhileDemuxing := Some (VObject 1);
       abortWhileConnecting := None |} demoOptions
  = inl (ThrowReason (VObject 1))
  /\ playStream (lateEnv (VObject 1)) demoOptions
     = inr (lateSession (VObject 1), demoSetup true)
  /\ speaking (demoSetup true) = Some true
  /\ effects (lateSession (VObject 1))
       [VideoFinish; EndOfTurn; VideoError (VObject 3); EndOfTurn;
        Abort (VObject 1); EndOfTurn]
     = []
  /\ done (final (lateSession (VObject 1))
             [VideoFinish; EndOfTurn; VideoError (VObject 3); EndOfTurn;
              Abort (VObject 1); EndOfTurn])
     = Pending.
Proof. repeat split. Qed.

End Examples.

(** * Witnesses and counterexamples *)

Section Witnesses.

Import AudioStream PlayStream.
Local Open Scope float_scope.





Lemma burst_witness :
  playStream (demoEnv true) demoOptions = inr (demoSession true, demoSetup true)
  /\ forallb (below 5) [Pts 0; Pts 4999; VideoError (VObject 1)] = true
  /\ (5 * 1000 <=? 5000) = true
  /\ burstView (final (demoSession true)
                  ([Pts 0; Pts 4999; VideoError (VObject 1)] ++ Pts 5000 :: [Pts 6000]))
     = ({| sync := true; noSleep := false |},
        Some {| sync := true; noSleep := false |}, None)
  /\ occurrences OffPts
       (effects (demoSession true)
          ([Pts 0; Pts 4999; VideoError (VObject 1)] ++ Pts 5000 :: [Pts 6000]))
     = 1%nat.
Proof.
  split; [reflexivity|]. split; [reflexivity|]. split; [reflexivity|].
  exact (proj2 (proj2 (proj2 (burst_ends_once_at_the_threshold
           (demoEnv true) demoOptions (demoSession true) (demoSetup true)
           5 5000 [Pts 0; Pts 4999; VideoError (VObject 1)] [Pts 6000]
           eq_refl eq_refl eq_refl eq_refl eq_refl eq_refl eq_refl)))).
Defined.

(** C3, as stated, fails: with a finite positive burst duration but no
    audio stream in the input, [playStream] makes no second stream,
    leaves the switches of the video stream as its constructor set them
    ([noSleep] is not set, [sync] is not cleared), subscribes nothing,
    and a "pts" notification past the threshold changes nothing. *)
Lemma burst_needs_an_audio_stream :
  playStream (demoEnv false) demoOptions = inr (demoSession false, demoSetup false)
  /\ readrateInitialBurst demoOptions = Some 5
  /\ is_finite 5 = true /\ (0 <? 5) = true
  /\ audioStreamInstance (demoSession false) = None
  /\ vStream (demoSession false) = new_VideoStream (demoEnv false)
  /\ noSleep (vStream (demoSession false)) = false
  /\ sync (vStream (demoSession false)) = true
  /\ stopBurst (demoSession false) = None
  /\ occurrences OnPts (demoSetup false) = 0%nat
  /\ (5 * 1000 <=? 6000) = true
  /\ burstView (final (demoSession false) [Pts 6000]) = burstView (demoSession false)
  /\ occurrences OffPts (effects (demoSession false) [Pts 6000]) = 0%nat.
Proof. repeat split. Qed.



Lemma muted_witness :
  isMuted (Demo.stream true 1) = true
  /\ Demo.sendFrame (Demo.stream true 1) [] Demo.frame 20
     = {| stream := Demo.stream true 1; transport := []; calls := []; thrown := None |}.
Proof.
  split; [reflexivity|].
  exact (proj1 (proj2 (muted_stream_is_silent_and_keeps_time
           nat Demo.decode Demo.encode (list Buffer) Demo.send
           (Demo.stream false 1) (Demo.stream true 1) [] Demo.frame 0 20 0 eq_refl))).
Defined.

Lemma unity_witness :
  isMuted (Demo.stream false 1) = false
  /\ getVolume (Demo.stream false 1) = 1
  /\ filter is_codec (calls (Demo.sendFrame (Demo.stream false 1) [] Demo.frame 20)) = [].
Proof.
  split; [reflexivity|]. split; [reflexivity|].
  exact (proj2 (proj2 (unity_volume_forwards_frame_untouched
           nat Demo.decode Demo.encode (list Buffer) Demo.send
           (Demo.stream false 1) (Demo.stream false 1) [] Demo.frame 20
           eq_refl eq_refl))).
Defined.

Lemma scaling_witness :
  isMuted (Demo.stream false 2) = false
  /\ JS.strict_neq (getVolume (Demo.stream false 2)) 1 = true
  /\ Demo.decode 0 Demo.frame = (1%nat, inr Demo.frame)
  /\ Nat.even (List.length Demo.frame) = true
  /\ Buf.samples (scaledPcm 2 Demo.frame) = map (storedSample 2) (Buf.samples Demo.frame).
Proof.
  split; [reflexivity|]. split; [reflexivity|]. split; [reflexivity|].
  split; [reflexivity|].
  exact (proj1 (proj2 (proj2 (volume_scaling_saturates
           nat Demo.decode Demo.encode (list Buffer) Demo.send
           (Demo.stream false 2) [] Demo.frame 20 1%nat Demo.frame
           eq_refl eq_refl eq_refl eq_refl)))).
Defined.

Lemma fallback_witness :
  isMuted (Demo.stream false 2) = false
  /\ JS.strict_neq (getVolume (Demo.stream false 2)) 1 = true
  /\ ProcessingFault nat Demo.broken_decode Demo.encode (Demo.stream false 2) Demo.frame
       (ExternalError "corrupted stream")
  /\ filter is_send (calls (Demo.sendFrame_broken (Demo.stream false 2) [] Demo.frame 20))
     = [SendAudioFrame Demo.frame 20].
Proof.
  assert (F : ProcessingFault nat Demo.broken_decode Demo.encode (Demo.stream false 2)
                Demo.frame (ExternalError "corrupted stream"))
    by (apply (decode_throws _ _ _ _ _ _ 1%nat); reflexivity).
  split; [reflexivity|]. split; [reflexivity|]. split; [exact F|].
  exact (proj1 (proj2 (processing_fault_falls_back_to_original_frame
           nat Demo.broken_decode Demo.encode (list Buffer) Demo.send
           (Demo.stream false 2) [] Demo.frame 20 (ExternalError "corrupted stream")
           eq_refl eq_refl F))).
Defined.

Lemma NaN_volume_witness :
  isMuted (setVolume (Demo.stream false 1) nan) = false
  /\ getVolume (setVolume (Demo.stream false 1) nan) = nan
  /\ (exists rest,
         calls (Demo.sendFrame (setVolume (Demo.stream false 1) nan) [] Demo.frame 20)
         = OpusDecode Demo.frame :: rest)
  /\ Demo.decode 0 Demo.frame = (1%nat, inr Demo.frame)
  /\ Nat.even (List.length Demo.frame) = true
  /\ Demo.sendFrame (setVolume (Demo.stream false 1) nan) [] Demo.frame 20
     = {| AudioStream.stream := AudioStream.mk false nan 2%nat;
          transport := [repeat Byte.x00 6];
          calls := [OpusDecode Demo.frame;
                    OpusEncode (repeat Byte.x00 6) 960;
                    SendAudioFrame (repeat Byte.x00 6) 20];
          thrown := None |}.
Proof.
  split; [reflexivity|]. split; [reflexivity|].
  pose proof (NaN_volume_is_stored_and_takes_the_codec_path
                nat Demo.decode Demo.encode (list Buffer) Demo.send
                (Demo.stream false 1) (setVolume (Demo.stream false 1) nan)
                [] Demo.frame 20 eq_refl eq_refl)
    as (_ & _ & _ & _ & Hdecode & _ & _ & Hpath).
  split; [exact Hdecode|]. split; [reflexivity|]. split; [reflexivity|].
  exact (proj2 (proj2 (Hpath 1%nat Demo.frame eq_refl eq_refl))).
Defined.

End Witnesses.

(** * Further properties of [AudioStream] *)

Section VolumeControl.

Import AudioStream AudioController.

Variable Opus : Type.

Lemma nan_unique (v : float) : is_nan v = true -> v = nan.
Proof.
  intros H. apply Prim2SF_inj. rewrite (is_nan_Prim2SF v H). reflexivity.
Qed.

(** What [setVolume] stores, by the position of its argument. *)
Lemma stored_volume (this : t Opus) (v : float) :
  getVolume (setVolume this v) = nan /\ is_nan v = true
  \/ (is_nan v = false
      /\ (getVolume (setVolume this v) = 0%float
          \/ getVolume (setVolume this v) = 2%float
          \/ (getVolume (setVolume this v) = v
              /\ (v <? 0)%float = false /\ (2 <? v)%float = false))).
Proof.
  destruct (is_nan v) eqn:Hnan.
  - left. split; [|reflexivity]. rewrite (nan_unique v Hnan). reflexivity.
  - right. split; [reflexivity|].
    destruct (setVolume_clamps Opus this v Hnan) as (_ & Hlow & Hhigh & Hmid).
    destruct (v <? 0)%float eqn:H0; [left; now apply Hlow|].
    destruct (2 <? v)%float eqn:H2; [right; left; now apply Hhigh|].
    right; right. repeat split. now apply Hmid.
Qed.

(** X1. The volume of a stream stays between 0 and 2 over any history
    of controller calls that passes no NaN to [setVolume]: a stream
    starts at 1.0, and each call either leaves the volume alone or
    stores a clamped number; the mute flag never changes the volume. *)
Theorem volume_stays_within_0_and_2
    (opus : Opus) (initialMuted : bool) (history : list Request) :
  forallb is_number history = true ->
  let v := getVolume (handleAll (create opus initialMuted) history) in
  (0 <=? v)%float = true /\ (v <=? 2)%float = true.
Proof.
  intros Hnum. cbv zeta. unfold handleAll.
  assert (Hinit : (0 <=? getVolume (create opus initialMuted))%float = true
                  /\ (getVolume (create opus initialMuted) <=? 2)%float = true)
    by (split; now vm_compute).
  revert Hnum Hinit. generalize (create opus initialMuted).
  induction history as [|r rest IH]; intros this Hnum Hinit; [exact Hinit|].
  cbn [forallb] in Hnum. apply andb_prop in Hnum. destruct Hnum as [Hr Hrest].
  cbn [fold_left]. apply IH; [exact Hrest|].
  destruct r as [| |volume]; cbn [handle]; try exact Hinit.
  cbn [is_number] in Hr. apply negb_true_iff in Hr.
  apply (setVolume_clamps Opus this volume Hr).
Qed.

(** X2. Storing a volume twice changes nothing: [setVolume] applied to
    the value that [getVolume] returns leaves the stream as it is, for
    every argument of the first call (NaN included). *)
Theorem setVolume_of_the_stored_volume_is_identity (this : t Opus) (v : float) :
  let stored := setVolume this v in
  setVolume stored (getVolume stored) = stored.
Proof.
  cbv zeta.
  assert (Hfix : forall w : float,
             w = nan \/ w = 0%float \/ w = 2%float
             \/ (is_nan w = false /\ (w <? 0)%float = false /\ (2 <? w)%float = false) ->
             forall that : t Opus, getVolume (setVolume that w) = w).
  { intros w [-> | [-> | [-> | (Hn & H0 & H2)]]] that; try (now vm_compute).
    destruct (setVolume_clamps Opus that w Hn) as (_ & _ & _ & Hmid).
    now apply Hmid. }
  assert (Hw : getVolume (setVolume (setVolume this v) (getVolume (setVolume this v)))
               = getVolume (setVolume this v)).
  { apply Hfix.
    destruct (stored_volume this v) as [[-> _] | [Hn [-> | [-> | (-> & H0 & H2)]]]]; auto 10. }
  unfold getVolume, setVolume in *. cbn [_volume _isMuted _opusEncoder] in *.
  f_equal. exact Hw.
Qed.

End VolumeControl.

Section FrameDispatch.

Import AudioStream AudioController.

Variable Opus : Type.
Variable opus_decode : Opus -> Buffer -> Opus * (JsError + Buffer).
Variable opus_encode : Opus -> Buffer -> Z -> Opus * (JsError + Buffer).
Variable Udp : Type.
Variable sendAudioFrame : Udp -> Buffer -> float -> Udp * option JsError.

Local Abbreviation sendFrame := (_sendFrame Opus opus_decode opus_encode Udp sendAudioFrame).

(** X3. However the volume stands and whatever the codec does, an
    unmuted [_sendFrame] ends with exactly one call of
    [sendAudioFrame], with the frametime it was given; the payload is
    the frame received or what the encoder returned; the call fails
    exactly when that send fails; [console.error] is called at most
    once; and neither the mute flag nor the volume is changed. *)
Theorem unmuted_frame_is_sent_exactly_once
    (this : t Opus) (udp : Udp) (frame : Buffer) (frametime : float) :
  isMuted this = false ->
  let out := sendFrame this udp frame frametime in
  (exists payload log,
      calls out = log ++ [SendAudioFrame payload frametime]
      /\ filter is_send log = []
      /\ (List.length (filter is_log log) <= 1)%nat
      /\ transport out = fst (sendAudioFrame udp payload frametime)
      /\ thrown out = snd (sendAudioFrame udp payload frametime)
      /\ (payload = frame
          \/ exists o pcm, opus_encode o pcm 960 = (_opusEncoder (stream out), inr payload)))
  /\ isMuted (stream out) = false
  /\ getVolume (stream out) = getVolume this.
Proof.
  unfold isMuted, getVolume. intros Hm. cbv zeta.
  unfold _sendFrame, processFrame. rewrite Hm.
  destruct (JS.strict_neq (_volume this) 1).
  - destruct (opus_decode (_opusEncoder this) frame) as [o1 [e | pcm]].
    + destruct (sendAudioFrame udp frame frametime) eqn:Hs. cbn.
      split; [|now split].
      exists frame, [OpusDecode frame; ConsoleError "[AudioStream] Error processing audio frame:" e].
      rewrite Hs. cbn. repeat split; auto.
    + destruct (scaleSamples (_volume this) pcm) as [e | scaled].
      * destruct (sendAudioFrame udp frame frametime) eqn:Hs. cbn.
        split; [|now split].
        exists frame, [OpusDecode frame; ConsoleError "[AudioStream] Error processing audio frame:" e].
        rewrite Hs. cbn. repeat split; auto.
      * destruct (opus_encode o1 scaled 960) as [o2 [e | encoded]] eqn:He.
        -- destruct (sendAudioFrame udp frame frametime) eqn:Hs. cbn.
           split; [|now split].
           exists frame, [OpusDecode frame; OpusEncode scaled 960;
                          ConsoleError "[AudioStream] Error processing audio frame:" e].
           rewrite Hs. cbn. repeat split; auto.
        -- destruct (sendAudioFrame udp encoded frametime) eqn:Hs. cbn.
           split; [|now split].
           exists encoded, [OpusDecode frame; OpusEncode scaled 960].
           rewrite Hs. cbn. repeat split; eauto.
  - destruct (sendAudioFrame udp frame frametime) eqn:Hs. cbn.
    split; [|now split].
    exists frame, []. rewrite Hs. cbn. repeat split; auto.
Qed.

(** The loop stops at a byte that has no partner. *)
Lemma loop_with_tail (volume : float) (n : nat) :
  forall (k : nat) (pre todo tail : Buffer),
    List.length pre = (2 * k)%nat -> List.length todo = (2 * n)%nat ->
    fold_left
      (fun acc i => match acc with inl e => inl e | inr buf => scaleAt volume buf i end)
      (map (fun j => 2 * j)%nat (seq k n)) (inr (pre ++ todo ++ tail))
    = inr (pre ++ scaledPcm volume todo ++ tail).
Proof.
  induction n as [|n IH]; intros k pre todo tail Hpre Htodo.
  - destruct todo; [reflexivity | discriminate].
  - destruct todo as [|first [|last rest]]; try (cbn in Htodo; lia).
    cbn [seq map fold_left app]. rewrite <- Hpre, scaleAt_app.
    replace (pre ++ lowByte volume first last :: highByte volume first last :: rest ++ tail)
      with ((pre ++ [lowByte volume first last; highByte volume first last]) ++ rest ++ tail)
      by (now rewrite <- app_assoc).
    rewrite (IH (S k)).
    + cbn [scaledPcm]. now rewrite <- app_assoc.
    + rewrite length_app, Hpre. cbn. lia.
    + cbn in Htodo. lia.
Qed.

Lemma scaleSamples_odd (volume : float) (pcm : Buffer) :
  Nat.odd (List.length pcm) = true ->
  exists e, scaleSamples volume pcm = inl e.
Proof.
  intros Hodd. apply Nat.odd_spec in Hodd. destruct Hodd as [n Hn].
  assert (Hsplit : exists todo x, pcm = todo ++ [x] /\ List.length todo = (2 * n)%nat).
  { destruct (exists_last (l := pcm)) as (todo & x & ->).
    - intros ->. cbn in Hn. lia.
    - exists todo, x. split; [reflexivity|].
      rewrite length_app in Hn. cbn in Hn. lia. }
  destruct Hsplit as (todo & x & -> & Htodo).
  unfold scaleSamples, offsets. rewrite Hn.
  replace (Nat.div2 (S (2 * n + 1))) with (n + 1)%nat.
  2:{ replace (S (2 * n + 1)) with (2 * (n + 1))%nat by lia.
      symmetry. apply Nat.div2_double. }
  rewrite seq_app, map_app, fold_left_app.
  pose proof (loop_with_tail volume n 0 [] todo [x] eq_refl Htodo) as Hloop.
  cbn [app] in Hloop. exists (Buf.boundsError (scaledPcm volume todo ++ [x])).
  match goal with
  | |- fold_left ?f ?l ?a = _ =>
      replace a with (@inr JsError Buffer (scaledPcm volume todo ++ [x]))
        by (symmetry; exact Hloop)
  end.
  cbn [seq map fold_left app Nat.add].
  unfold scaleAt, Buf.readInt16LE, Buf.get.
  assert (Hlen : List.length (scaledPcm volume todo) = (2 * n)%nat)
    by now rewrite scaledPcm_length.
  replace (nth_error (scaledPcm volume todo ++ [x]) (2 * n + 1)) with (@None byte).
  - now destruct (nth_error (scaledPcm volume todo ++ [x]) (2 * n)).
  - symmetry. apply nth_error_None. rewrite length_app, Hlen. cbn. lia.
Qed.

(** X4. When the decoder returns an odd number of bytes (with a volume
    other than 1.0), the loop throws at the byte that has no partner:
    the encoder is not called, the failure is logged, and the frame
    that was received is sent. *)
Theorem odd_length_pcm_falls_back_to_the_frame
    (this : t Opus) (udp : Udp) (frame : Buffer) (frametime : float)
    (o1 : Opus) (pcmData : Buffer) :
  isMuted this = false ->
  JS.strict_neq (getVolume this) 1 = true ->
  opus_decode (_opusEncoder this) frame = (o1, inr pcmData) ->
  Nat.odd (List.length pcmData) = true ->
  exists e,
    scaleSamples (getVolume this) pcmData = inl e
    /\ sendFrame this udp frame frametime
       = {| stream := with_opus this o1;
            transport := fst (sendAudioFrame udp frame frametime);
            calls := [OpusDecode frame;
                      ConsoleError "[AudioStream] Error processing audio frame:" e;
                      SendAudioFrame frame frametime];
            thrown := snd (sendAudioFrame udp frame frametime) |}.
Proof.
  unfold isMuted, getVolume. intros Hm Hv Hd Hodd.
  destruct (scaleSamples_odd (_volume this) pcmData Hodd) as [e He].
  exists e. split; [exact He|].
  unfold _sendFrame, processFrame. rewrite Hm, Hv, Hd. cbv iota beta. rewrite He.
  now destruct (sendAudioFrame udp frame frametime).
Qed.

End FrameDispatch.

Section Silence.

Import AudioStream AudioController.

Variable Opus : Type.
Variable opus_decode : Opus -> Buffer -> Opus * (JsError + Buffer).
Variable opus_encode : Opus -> Buffer -> Z -> Opus * (JsError + Buffer).
Variable Udp : Type.
Variable sendAudioFrame : Udp -> Buffer -> float -> Udp * option JsError.

Local Abbreviation sendFrame := (_sendFrame Opus opus_decode opus_encode Udp sendAudioFrame).

(** X5. A volume of zero, and the NaN that [setVolume(NaN)] stores,
    both silence the stream without muting it: whatever the decoder
    returns (in whole samples), every sample is rewritten to 0 and the
    encoder is given a buffer of zero bytes of the same length, with
    frame size 960; what the encoder returns is the one frame sent,
    with the frametime of the frame received; when the encoder throws,
    the failure is logged and the frame received is sent as it came. *)
Theorem zero_and_NaN_volume_send_silence
    (this : t Opus) (udp : Udp) (frame : Buffer) (frametime : float)
    (o1 : Opus) (pcmData : Buffer) :
  isMuted this = false ->
  is_zero (getVolume this) || is_nan (getVolume this) = true ->
  opus_decode (_opusEncoder this) frame = (o1, inr pcmData) ->
  Nat.even (List.length pcmData) = true ->
  let silence := repeat Byte.x00 (List.length pcmData) in
  (forall sample : Z, storedSample (getVolume this) sample = 0)
  /\ scaleSamples (getVolume this) pcmData = inr silence
  /\ filter is_codec (calls (sendFrame this udp frame frametime))
     = [OpusDecode frame; OpusEncode silence 960]
  /\ sendFrame this udp frame frametime
     = match opus_encode o1 silence 960 with
       | (o2, inr encoded) =>
           {| stream := with_opus this o2;
              transport := fst (sendAudioFrame udp encoded frametime);
              calls := [OpusDecode frame; OpusEncode silence 960;
                        SendAudioFrame encoded frametime];
              thrown := snd (sendAudioFrame udp encoded frametime) |}
       | (o2, inl e) =>
           {| stream := with_opus this o2;
              transport := fst (sendAudioFrame udp frame frametime);
              calls := [OpusDecode frame; OpusEncode silence 960;
                        ConsoleError "[AudioStream] Error processing audio frame:" e;
                        SendAudioFrame frame frametime];
              thrown := snd (sendAudioFrame udp frame frametime) |}
       end.
Proof.
  intros Hm Hv Hd Heven silence.
  destruct (silent_outcome Opus opus_decode opus_encode Udp sendAudioFrame
              this udp frame frametime o1 pcmData Hm Hv Hd Heven) as [Hloop Hout].
  fold silence in Hloop, Hout.
  split; [intros sample; now apply silent_sample|].
  split; [exact Hloop|].
  split; [|exact Hout].
  rewrite Hout. now destruct (opus_encode o1 silence 960) as [o2 [e | encoded]].
Qed.

(** X6. Until [setVolume] is called, a stream never touches the codec:
    after any history of [mute] and [unmute] calls on a new stream the
    volume is still the initial 1.0, so that a frame is either dropped
    (muted) or handed to [sendAudioFrame] exactly as it was received,
    and the encoder state is the one the constructor made. *)
Theorem codec_is_idle_until_setVolume
    (opus : Opus) (initialMuted : bool) (history : list Request)
    (udp : Udp) (frame : Buffer) (frametime : float) :
  forallb (fun r => negb (is_setVolume r)) history = true ->
  let this := handleAll (create opus initialMuted) history in
  let out := sendFrame this udp frame frametime in
  getVolume this = 1%float
  /\ calls out = (if isMuted this then [] else [SendAudioFrame frame frametime])
  /\ _opusEncoder (stream out) = opus.
Proof.
  intros Hhist this out.
  assert (Hinv : _volume this = 1%float /\ _opusEncoder this = opus).
  { unfold this, handleAll. clear out this.
    assert (Hinit : _volume (create opus initialMuted) = 1%float
                    /\ _opusEncoder (create opus initialMuted) = opus) by now split.
    revert Hhist Hinit. generalize (create opus initialMuted).
    induction history as [|r rest IH]; intros s Hhist Hinit; [exact Hinit|].
    cbn [forallb] in Hhist. apply andb_prop in Hhist. destruct Hhist as [Hr Hrest].
    cbn [fold_left]. apply IH; [exact Hrest|].
    destruct r; [exact Hinit | exact Hinit | discriminate]. }
  destruct Hinv as [Hv Ho]. split; [exact Hv|].
  unfold out, _sendFrame, isMuted. rewrite Hv.
  replace (JS.strict_neq 1 1) with false by now vm_compute.
  destruct (_isMuted this); [now split|].
  now destruct (sendAudioFrame udp frame frametime).
Qed.

End Silence.


(** * Further properties of [playStream] *)

Section SessionProperties.

Import PlayStream SessionLog.

(** ** The burst *)

(** X7. Without an audio stream, or with a burst duration that is
    absent or not greater than zero (zero, negative, NaN), [playStream]
    arms no burst: the streams keep the switches their constructors
    gave them through every event, and [stopBurst] is never subscribed
    nor unsubscribed. *)
Theorem no_burst_without_audio_or_duration
    (env : Env) (opts : Options) (s : Session) (setup : list Effect)
    (evs : list Event) :
  playStream env opts = inr (s, setup) ->
  burstRequested env opts = false ->
  burstView (final s evs)
  = (new_VideoStream env,
     (if audio env then Some (new_AudioStream env) else None),
     None)
  /\ occurrences OnPts setup = 0%nat
  /\ occurrences OffPts (effects s evs) = 0%nat.
Proof.
  intros Hplay Hreq.
  assert (Hburst : (if audio env then m_readrateInitialBurst (mergeOptions opts) else None)
                   = None).
  { unfold burstRequested in Hreq. destruct (audio env); [|reflexivity].
    cbn [andb] in Hreq. unfold mergeOptions. cbn [m_readrateInitialBurst].
    destruct (readrateInitialBurst opts) as [T|]; [|reflexivity].
    rewrite Hreq. now rewrite andb_false_r. }
  revert Hplay. unfold playStream.
  destruct (opt_aborted (env_cancelSignal env)); [discriminate|].
  destruct (negb (voiceConnection env)); [discriminate|].
  destruct (opt_aborted (signalAfterDemux env)); [discriminate|].
  destruct (negb (video env)); [discriminate|].
  cbv zeta. rewrite Hburst. intros [= <- <-].
  match goal with
  | |- burstView (final ?s0 _) = _ /\ _ /\ occurrences _ (effects ?s0 _) = _ =>
      destruct (burst_over s0 evs eq_refl) as [Hview Hoff]
  end.
  rewrite Hview, Hoff. unfold burstView. cbn [vStream audioStreamInstance stopBurst].
  repeat split. rewrite occurrences_app. now destruct (existingUdp env).
Qed.

(** ** The preview task *)






(** ** The error log *)

Lemma no_LoggerError_in_calls (fs : list CleanupFunc) :
  filter is_LoggerError (flat_map call fs) = [].
Proof.
  induction fs as [|f fs IH]; [reflexivity|].
  cbn [flat_map]. rewrite filter_app, IH. now destruct f.
Qed.

(** Only the reaction at the end of a turn writes to the error log. *)
Lemma listeners_log_nothing (s : Session) (ev : Event) :
  sameTurn ev = true -> filter is_LoggerError (snd (step s ev)) = [].
Proof.
  intros H. destruct ev; try discriminate H; step_cases; cbn [fst snd];
    rewrite ?filter_app, ?no_LoggerError_in_calls; reflexivity.
Qed.

Lemma turn_logs_nothing (s : Session) (turn : list Event) :
  forallb sameTurn turn = true -> filter is_LoggerError (effects s turn) = [].
Proof.
  revert s. induction turn as [|ev turn IH]; intros s H; [reflexivity|].
  cbn [forallb] in H. apply andb_prop in H. destruct H as [Hev Hturn].
  rewrite effects_cons, filter_app, (listeners_log_nothing s ev Hev).
  now apply IH.
Qed.

Lemma settled_logs_nothing (s : Session) (ev : Event) :
  done s <> Pending -> filter is_LoggerError (snd (step s ev)) = [].
Proof.
  intros H. destruct (sameTurn ev) eqn:Hev; [now apply listeners_log_nothing|].
  destruct ev; try discriminate Hev. unfold step, microtask.
  destruct (done s); [now contradiction H | reflexivity | reflexivity].
Qed.

Lemma settled_run_logs_nothing (s : Session) (evs : list Event) :
  done s <> Pending -> filter is_LoggerError (effects s evs) = [].
Proof.
  revert s. induction evs as [|ev evs IH]; intros s H; [reflexivity|].
  rewrite effects_cons, filter_app, (settled_logs_nothing s ev H).
  apply IH. now rewrite (done_stays s ev H).
Qed.

Lemma pending_logs_nothing (s : Session) (ev : Event) :
  streamPromise s = Pending -> filter is_LoggerError (snd (step s ev)) = [].
Proof.
  intros H. destruct (sameTurn ev) eqn:Hev; [now apply listeners_log_nothing|].
  destruct ev; try discriminate Hev. unfold step, microtask. rewrite H.
  now destruct (done s).
Qed.

Lemma quiet_run_logs_nothing (env : Env) (s : Session) (pre : list Event) :
  pristine env s -> forallb quiet pre = true ->
  filter is_LoggerError (effects s pre) = [].
Proof.
  revert s. induction pre as [|ev pre IH]; intros s Hp Hq; [reflexivity|].
  cbn [forallb] in Hq. apply andb_prop in Hq. destruct Hq as [Hq Hpre].
  rewrite effects_cons, filter_app.
  rewrite (pending_logs_nothing s ev) by apply Hp.
  apply IH; [|exact Hpre]. now apply (quiet_step env s ev).
Qed.

Lemma late_run_logs_nothing (s : Session) (evs : list Event) :
  opt_aborted (cancelSignal s) = true -> cleanedUp s = false ->
  streamPromise s = Pending -> done s = Pending ->
  filter is_LoggerError (effects s evs) = [].
Proof.
  revert s. induction evs as [|ev evs IH]; intros s H1 H2 H3 H4; [reflexivity|].
  destruct (late_step s ev H1 H2 H3 H4) as [(H1' & H2' & H3' & H4') _].
  rewrite effects_cons, filter_app, (pending_logs_nothing s ev H3).
  now apply IH.
Qed.

(** What the reaction writes when the turn ends. *)
Lemma end_of_turn_logs (s : Session) :
  done s = Pending ->
  filter is_LoggerError (snd (step s EndOfTurn))
  = match streamPromise s with
    | Rejected err => if opt_aborted (cancelSignal s) then [] else [LoggerError err]
    | _ => []
    end.
Proof.
  intros H. unfold step, microtask, catchHandler. rewrite H.
  destruct (streamPromise s) as [| |err]; try reflexivity.
  cbn [snd]. now destruct (opt_aborted (cancelSignal s)).
Qed.

(** X9. [logger.error] is called by the reaction that runs at the end
    of the turn of the first terminal trigger, and by nothing else:
    once, with the error, when the session ends on an error of the
    video stream or of the audio source and the signal has not fired
    by the end of that turn (even when that error is [undefined] and
    the returned promise is fulfilled); not at all when the signal has
    fired by then, nor when the session ends on a cancellation or on
    the normal finish.  Whatever happens afterwards logs nothing more,
    and a session whose signal fired while [playStream] was still
    waiting for the transport never logs. *)
Theorem error_is_logged_once_unless_cancelled
    (env : Env) (opts : Options) (s : Session) (setup : list Effect)
    (pre turn post : list Event) (ev : Event) :
  playStream env opts = inr (s, setup) ->
  forallb quiet pre = true ->
  forallb sameTurn turn = true ->
  (trigger env ev = true ->
   filter is_LoggerError (effects s (pre ++ ev :: turn)) = []
   /\ filter is_LoggerError (effects s (pre ++ ev :: turn ++ EndOfTurn :: post))
      = match ev with
        | VideoError err | AudioError err =>
            if opt_aborted (signalAfter (cancelSignal s) turn) then []
            else [LoggerError err]
        | _ => []
        end)
  /\ (opt_aborted (cancelSignal s) = true ->
      forall evs : list Event, filter is_LoggerError (effects s evs) = []).
Proof.
  intros Hplay Hpre Hturn. split.
  - intros Hev.
    destruct (trigger_turn env opts s setup pre turn post ev Hplay Hpre Hturn Hev)
      as (Hsame & _ & Hd2 & Hp2 & Hsig2 & Hdone & _ & Hsettled).
    destruct (playStream_pristine _ _ _ _ Hplay (trigger_in_time env ev Hev)) as [Hp _].
    destruct (quiet_run env s pre Hp Hpre) as [Hp' _].
    pose proof (trigger_step env _ ev Hp' Hev) as (_ & _ & _ & Hcase).
    set (s1 := fst (step (final s pre) ev)) in *.
    assert (Hturn_ev : sameTurn ev = true).
    { unfold trigger in Hev. apply andb_prop in Hev. destruct Hev as [_ Hev].
      now destruct ev. }
    assert (Hbefore : filter is_LoggerError (effects s (pre ++ ev :: turn)) = []).
    { rewrite effects_app, effects_cons, !filter_app.
      rewrite (quiet_run_logs_nothing env s pre Hp Hpre).
      rewrite (listeners_log_nothing _ ev Hturn_ev).
      now rewrite (turn_logs_nothing _ turn Hturn). }
    split; [exact Hbefore|].
    replace (pre ++ ev :: turn ++ EndOfTurn :: post)
      with ((pre ++ ev :: turn) ++ EndOfTurn :: post)
      by (rewrite <- app_assoc; reflexivity).
    rewrite effects_app, effects_cons, !filter_app, Hbefore.
    set (s2 := final s (pre ++ ev :: turn)) in *.
    rewrite (end_of_turn_logs s2 Hd2), Hp2, Hsig2.
    assert (Hafter : done (fst (step s2 EndOfTurn)) <> Pending).
    { rewrite (end_of_turn s2 Hd2), Hp2.
      destruct (streamPromise s1) as [| |err]; try congruence; try discriminate.
      match goal with
      | |- (if ?c then _ else _) <> _ => destruct c; discriminate
      end. }
    rewrite (settled_run_logs_nothing _ post Hafter), app_nil_r. cbn [app].
    unfold trigger in Hev. apply andb_prop in Hev. destruct Hev as [_ Hev].
    destruct ev; try discriminate Hev; destruct Hcase as [-> Hsig1]; try reflexivity.
    + rewrite Hsig1, signalAfter_aborted. reflexivity.
    + now rewrite Hsig1, Hsame.
    + now rewrite Hsig1, Hsame.
  - intros Hlate evs.
    destruct (playStream_returns env opts s setup Hplay) as (_ & _ & Hc & _ & Hp & Hd & _).
    now apply late_run_logs_nothing.
Qed.

(** ** The flags of the connection *)

Lemma lastFlag_app (select : Effect -> option bool) (a b : list Effect) :
  lastFlag select (a ++ b)
  = match lastFlag select b with
    | Some on => Some on
    | None => lastFlag select a
    end.
Proof.
  unfold lastFlag. rewrite fold_left_app.
  generalize (fold_left
                (fun flag e => match select e with Some on => Some on | None => flag end)
                a None).
  induction b as [|e b IH] using rev_ind; intros acc; [reflexivity|].
  rewrite !fold_left_app. cbn [fold_left].
  destruct (select e); [reflexivity | apply IH].
Qed.

Lemma lastFlag_flags (select : Effect -> option bool) (log : list Effect) :
  (forall e, is_flag e = false -> select e = None) ->
  lastFlag select log = lastFlag select (filter is_flag log).
Proof.
  intros Hsel. induction log as [|e log IH] using rev_ind; [reflexivity|].
  rewrite filter_app, !lastFlag_app, IH. cbn [filter].
  destruct (is_flag e) eqn:He; [reflexivity|].
  unfold lastFlag at 1 3. cbn [fold_left]. now rewrite (Hsel e He).
Qed.

Lemma flags_in_calls (fs : list CleanupFunc) (log : list Effect) :
  filter is_flag (teardown (flat_map call fs ++ log))
  = filter is_flag (flat_map call fs) ++ filter is_flag (teardown log).
Proof. now rewrite teardown_app, teardown_calls, filter_app. Qed.

(** Only cleanup functions touch the flags after the setup. *)
Lemma flags_step (s : Session) (ev : Event) :
  filter is_flag (snd (step s ev)) = filter is_flag (teardown (snd (step s ev))).
Proof.
  destruct ev; step_cases; cbn [fst snd];
    rewrite ?flags_in_calls, ?teardown_calls, ?filter_app; reflexivity.
Qed.

Lemma flags_run (s : Session) (evs : list Event) :
  filter is_flag (effects s evs) = filter is_flag (teardown (effects s evs)).
Proof.
  revert s. induction evs as [|ev evs IH]; intros s; [reflexivity|].
  rewrite effects_cons, teardown_app, !filter_app, flags_step, IH. reflexivity.
Qed.

(** X10. From its setup on, a session leaves the connection marked
    as speaking and sending video as long as no terminal trigger comes.
    For a session whose signal had not fired when its listeners were
    attached, from the first terminal trigger on, whatever follows, the
    last [setSpeaking] and the last [setVideoAttributes] were both made
    with [false].  For a session whose signal fired while [playStream]
    was still waiting for the transport, the connection stays marked as
    speaking and sending video whatever happens. *)
Theorem connection_flags_follow_the_session
    (env : Env) (opts : Options) (s : Session) (setup : list Effect)
    (pre post : list Event) (ev : Event) :
  playStream env opts = inr (s, setup) ->
  forallb quiet pre = true ->
  (speaking (setup ++ effects s pre) = Some true
   /\ videoAttributes (setup ++ effects s pre) = Some true)
  /\ (trigger env ev = true ->
      speaking (setup ++ effects s (pre ++ ev :: post)) = Some false
      /\ videoAttributes (setup ++ effects s (pre ++ ev :: post)) = Some false)
  /\ (opt_aborted (cancelSignal s) = true ->
      forall evs : list Event,
        speaking (setup ++ effects s evs) = Some true
        /\ videoAttributes (setup ++ effects s evs) = Some true).
Proof.
  intros Hplay Hpre.
  destruct (playStream_returns env opts s setup Hplay) as (_ & Hsig & Hc & _ & Hsp & Hd & _).
  assert (Hsetup : speaking setup = Some true /\ videoAttributes setup = Some true).
  { revert Hplay. unfold playStream.
    destruct (opt_aborted (env_cancelSignal env)); [discriminate|].
    destruct (negb (voiceConnection env)); [discriminate|].
    destruct (opt_aborted (signalAfterDemux env)); [discriminate|].
    destruct (negb (video env)); [discriminate|].
    cbv zeta. intros [= _ <-].
    destruct (existingUdp env);
      match goal with
      | |- context [if ?c then [OnPts] else []] => destruct c
      end; now split. }
  destruct Hsetup as [Hs Hv].
  assert (Hkeep : forall log : list Effect,
             filter is_flag log = [] ->
             speaking (setup ++ log) = Some true
             /\ videoAttributes (setup ++ log) = Some true).
  { intros log Hlog. unfold speaking, videoAttributes in *.
    rewrite !lastFlag_app.
    rewrite (lastFlag_flags _ log) by (intros [] He; try reflexivity; discriminate He).
    rewrite (lastFlag_flags _ log)
      by (intros [] He; try reflexivity; discriminate He).
    rewrite Hlog, Hs, Hv. now split. }
  assert (Hquiet : filter is_flag (effects s pre) = []).
  { rewrite flags_run.
    destruct (opt_aborted (cancelSignal s)) eqn:Hlate.
    - now destruct (late_run s pre Hlate Hc Hsp Hd) as (_ & _ & _ & ->).
    - rewrite Hsig in Hlate.
      destruct (playStream_pristine _ _ _ _ Hplay Hlate) as [Hp _].
      now destruct (quiet_run env s pre Hp Hpre) as [_ ->]. }
  split; [now apply Hkeep|]. split.
  - intros Hev.
    destruct (first_trigger env opts s setup pre post ev Hplay Hpre Hev)
      as (_ & Hreg & Htear & _).
    assert (Hafter : filter is_flag (effects s (pre ++ ev :: post))
                     = [SetSpeaking false; SetVideoAttributes false]).
    { rewrite flags_run, Htear. destruct Hreg as [-> | [_ ->]]; reflexivity. }
    unfold speaking, videoAttributes in *.
    rewrite !lastFlag_app.
    rewrite (lastFlag_flags _ (effects s (pre ++ ev :: post)))
      by (intros [] He; try reflexivity; discriminate He).
    rewrite (lastFlag_flags _ (effects s (pre ++ ev :: post)))
      by (intros [] He; try reflexivity; discriminate He).
    rewrite Hafter. now split.
  - intros Hlate evs. apply Hkeep. rewrite flags_run.
    now destruct (late_run s evs Hlate Hc Hsp Hd) as (_ & _ & _ & ->).
Qed.

End SessionProperties.


(** * Properties of [prepareStream] *)

Section PrepareStreamProperties.

Import PrepareStream.

Variable isFiniteNonZero : option float -> bool.
Variable numberToString : float -> string.

Local Abbreviation merge := (mergeOptions isFiniteNonZero).
Local Abbreviation build := (command numberToString).
Local Abbreviation prepare := (prepareStream isFiniteNonZero numberToString).

(** ** The exit promise *)

Lemma prepared_run_app (p : Prepared) (a b : list Event) :
  run p (a ++ b) = (final (final p a) b, (calls p a ++ calls (final p a) b)%list).
Proof.
  unfold final, calls. revert p.
  induction a as [|ev a IH]; intros p; cbn [run app fst snd].
  - now destruct (run p b).
  - destruct (step p ev) as [p1 log1]. rewrite IH.
    destruct (run p1 a) as [p2 log2]. cbn [fst snd].
    now rewrite app_assoc.
Qed.

Lemma prepared_app (p : Prepared) (a b : list Event) :
  final p (a ++ b) = final (final p a) b
  /\ calls p (a ++ b) = (calls p a ++ calls (final p a) b)%list.
Proof. unfold final at 1, calls at 1. now rewrite prepared_run_app. Qed.

Lemma prepared_cons (p : Prepared) (ev : Event) (evs : list Event) :
  final p (ev :: evs) = final (fst (step p ev)) evs
  /\ calls p (ev :: evs) = (snd (step p ev) ++ calls (fst (step p ev)) evs)%list.
Proof.
  unfold final, calls. simpl run. destruct (step p ev) as [p1 log1]. cbn [fst snd].
  now destruct (run p1 evs).
Qed.

Lemma settled_stays (p : Prepared) (evs : list Event) :
  promise p <> PlayStream.Pending -> promise (final p evs) = promise p.
Proof.
  revert p. induction evs as [|ev evs IH]; intros p H; [reflexivity|].
  destruct (prepared_cons p ev evs) as [-> _].
  assert (Hstep : promise (fst (step p ev)) = promise p).
  { destruct ev; cbn [step]; [| |];
      repeat match goal with
             | |- context [match ?x with _ => _ end] => destruct x
             end; cbn; try reflexivity;
      destruct (promise p); try reflexivity; now contradiction H. }
  rewrite IH; [exact Hstep | now rewrite Hstep].
Qed.

(** After the abort, nothing else that aborts changes anything. *)
Lemma aborted_stays (p : Prepared) (why : PlayStream.Value) (evs : list Event) :
  cancelSignal p = Some (PlayStream.AbortedWith why) ->
  forallb is_abort evs = true ->
  final p evs = p /\ calls p evs = [].
Proof.
  intros Hsig. induction evs as [|ev evs IH]; intros Hevs; [now split|].
  cbn [forallb] in Hevs. apply andb_prop in Hevs. destruct Hevs as [Hev Hevs].
  destruct (prepared_cons p ev evs) as [-> ->].
  destruct ev; try discriminate Hev. cbn [step]. rewrite Hsig. cbn [PlayStream.aborted fst snd].
  now apply IH.
Qed.

(** The state after a run of aborts, by the first of them. *)
Lemma after_aborts (p : Prepared) (aborts : list Event) :
  promise p = PlayStream.Pending ->
  cancelSignal p = None \/ (cancelSignal p = Some PlayStream.Idle /\ onAbort p = true) ->
  forallb is_abort aborts = true ->
  promise (final p aborts) = PlayStream.Pending
  /\ match cancelSignal p, aborts with
     | Some _, Abort r :: _ =>
         cancelSignal (final p aborts)
         = Some (PlayStream.AbortedWith (PlayStream.abortReason r))
         /\ calls p aborts = [Kill "SIGTERM"]
     | _, _ => cancelSignal (final p aborts) = cancelSignal p /\ calls p aborts = []
     end.
Proof.
  intros Hp Hsig Habort.
  destruct aborts as [|ev rest].
  { unfold final, calls. cbn [run fst snd].
    split; [exact Hp|]. destruct (cancelSignal p); now split. }
  cbn [forallb] in Habort. apply andb_prop in Habort. destruct Habort as [Hev Hrest].
  destruct ev as [r| |]; try discriminate Hev.
  destruct (prepared_cons p (Abort r) rest) as [-> ->].
  destruct Hsig as [Hnone | [Hidle Hon]].
  - rewrite Hnone. cbn [step]. rewrite Hnone. cbn [fst snd]. clear Hev.
    revert Hrest. induction rest as [|ev rest IH]; intros Hrest; [now repeat split|].
    cbn [forallb] in Hrest. apply andb_prop in Hrest. destruct Hrest as [Hev Hrest].
    destruct ev as [r'| |]; try discriminate Hev.
    destruct (prepared_cons p (Abort r') rest) as [-> ->].
    cbn [step]. rewrite Hnone. cbn [fst snd]. now apply IH.
  - rewrite Hidle. cbn [step]. rewrite Hidle, Hon. cbn [PlayStream.aborted fst snd].
    match goal with
    | |- context [final ?q rest] =>
        destruct (aborted_stays q (PlayStream.abortReason r) rest eq_refl Hrest)
          as [-> ->]
    end.
    cbn [promise cancelSignal]. now repeat split.
Qed.

(** Whatever happens, the command is sent at most one signal, and
    nothing else is called on it once it runs. *)
Lemma at_most_one_call (p : Prepared) (evs : list Event) :
  (List.length (calls p evs) <= 1)%nat
  /\ (onAbort p = false -> calls p evs = []).
Proof.
  revert p. induction evs as [|ev evs IH]; intros p; [cbn; split; [lia | reflexivity]|].
  destruct (prepared_cons p ev evs) as [_ ->].
  destruct (IH (fst (step p ev))) as [IH1 IH2].
  destruct ev; cbn [step] in *.
  - destruct (cancelSignal p) as [sig|]; [destruct (PlayStream.aborted sig)|];
      try (cbn [fst snd app] in *; split; [exact IH1 | exact IH2]).
    destruct (onAbort p) eqn:Hon; cbn [fst snd app onAbort] in *.
    + rewrite (IH2 eq_refl). cbn. split; [lia | discriminate].
    + split; [exact IH1 | intros _; now apply IH2].
  - cbn [fst snd app onAbort] in *. now split.
  - cbn [fst snd app onAbort] in *. now split.
Qed.

(** X11. The promise of [prepareStream] is settled by ffmpeg, not by
    the signal.  Called with a signal that is already aborted,
    [prepareStream] throws its reason and builds nothing.  Otherwise an
    abort only sends SIGTERM to the command, once, and leaves the
    promise pending; the first "end" fulfils the promise; the first
    "error" rejects it, with the reason of the signal when the abort
    came first and with the error of ffmpeg otherwise; what follows
    changes nothing. *)
Theorem exit_promise_is_settled_by_ffmpeg
    (input : option string) (opts : Options) (signal : option PlayStream.AbortSignal) :
  (PlayStream.opt_aborted signal = true ->
   prepare input opts signal
   = inl (PlayStream.ThrowReason (PlayStream.opt_reason signal)))
  /\ forall (p : Prepared) (cmd : list FfmpegCall),
       prepare input opts signal = inr (p, cmd) ->
       (forall evs : list Event, (List.length (calls p evs) <= 1)%nat)
       /\ forall (aborts post : list Event) (err : PlayStream.Value),
         forallb is_abort aborts = true ->
         promise (final p aborts) = PlayStream.Pending
         /\ calls p aborts
            = match signal, aborts with
              | Some _, _ :: _ => [Kill "SIGTERM"]
              | _, _ => []
              end
         /\ promise (final p (aborts ++ FfmpegEnd :: post)) = PlayStream.Fulfilled
         /\ promise (final p (aborts ++ FfmpegError err :: post))
            = PlayStream.Rejected
                match signal, aborts with
                | Some _, Abort r :: _ => PlayStream.abortReason r
                | _, _ => err
                end.
Proof.
  split.
  { intros Ha. unfold prepareStream. now rewrite Ha. }
  intros p cmd. unfold prepareStream.
  destruct (PlayStream.opt_aborted signal) eqn:Ha; [discriminate|].
  intros [= <- _].
  split; [intros evs; apply at_most_one_call|].
  intros aborts post err Habort.
  set (p := {| cancelSignal := signal;
               onAbort := match signal with Some _ => true | None => false end;
               promise := PlayStream.Pending |}).
  assert (Hsig : cancelSignal p = None
                 \/ (cancelSignal p = Some PlayStream.Idle /\ onAbort p = true)).
  { subst p. cbn. destruct signal as [[|why]|]; auto; discriminate Ha. }
  destruct (after_aborts p aborts eq_refl Hsig Habort) as [Hpend Hstate].
  change (cancelSignal p) with signal in Hstate.
  split; [exact Hpend|].
  split.
  { destruct signal as [sig|]; [|apply Hstate].
    destruct aborts as [|[r| |] rest]; try apply Hstate; discriminate Habort. }
  destruct (prepared_app p aborts (FfmpegEnd :: post)) as [-> _].
  destruct (prepared_app p aborts (FfmpegError err :: post)) as [-> _].
  destruct (prepared_cons (final p aborts) FfmpegEnd post) as [-> _].
  destruct (prepared_cons (final p aborts) (FfmpegError err) post) as [-> _].
  cbn [step fst snd].
  rewrite (settled_stays _ post)
    by (cbn [promise]; rewrite Hpend; discriminate).
  rewrite (settled_stays _ post)
    by (cbn [promise]; rewrite Hpend; discriminate).
  cbn [promise]. rewrite Hpend.
  split; [reflexivity|].
  cbn [PlayStream.reject]. f_equal.
  destruct signal as [sig|].
  - destruct aborts as [|[r| |] rest]; try discriminate Habort.
    + destruct Hstate as [-> _]. destruct sig; [reflexivity | discriminate Ha].
    + destruct Hstate as [-> _]. reflexivity.
  - destruct Hstate as [-> _]. reflexivity.
Qed.

(** ** The command *)

(** X12. With [noTranscoding] the video settings have no effect: the
    width, the height, the frame rate, the codec, the two bitrates and
    the preset can be replaced by anything without changing a single
    call made on the command, nor the result of [prepareStream]. *)
Theorem video_settings_are_ignored_without_transcoding
    (input : option string) (opts : Options) (signal : option PlayStream.AbortSignal)
    (w h fps : option float) (codec : option string)
    (rate rateMax : option float) (preset : option string) :
  noTranscoding opts = Some true ->
  prepare input (withVideoSettings opts w h fps codec rate rateMax preset) signal
  = prepare input opts signal.
Proof.
  intros Hno. unfold prepareStream.
  destruct (PlayStream.opt_aborted signal); [reflexivity|].
  do 2 f_equal.
  unfold command, inputSetup, videoSetup, audioSetup, customSetup, mergeOptions,
    withVideoSettings.
  cbn [noTranscoding bitrateAudio includeAudio hardwareAcceleratedDecoding
       minimizeLatency customHeaders seekTime customFfmpegFlags
       m_noTranscoding m_bitrateAudio m_includeAudio m_hardwareAcceleratedDecoding
       m_minimizeLatency m_customHeaders m_seekTime m_customFfmpegFlags].
  rewrite Hno. reflexivity.
Qed.

Lemma no_videoCodec_in_inputSetup (input : option string) (m : EncoderOptions) :
  filter is_videoCodec (inputSetup numberToString input m) = [].
Proof.
  unfold inputSetup. rewrite !filter_app.
  destruct (truthy (m_seekTime m) && (0 <? m_seekTime m)%float),
    (m_hardwareAcceleratedDecoding m), (m_minimizeLatency m), (isHttpUrl input),
    (negb (isHls input)); reflexivity.
Qed.

Lemma videoCodec_of_encoderSetup (m : EncoderOptions) :
  filter is_videoCodec (encoderSetup m)
  = match encoderOf (m_videoCodec m) with Some enc => [VideoCodec enc] | None => [] end.
Proof.
  unfold encoderSetup, encoderOf. cbv zeta.
  repeat match goal with
         | |- context [String.eqb ?a ?b] => destruct (String.eqb a b); [reflexivity|]
         end.
  reflexivity.
Qed.

(** X13. The command selects its video codec once: [copy] with
    [noTranscoding]; otherwise the encoder of the codec named in the
    options (libsvtav1, libvpx, libvpx-vp9, libx264, libx265), and none
    at all when the name is not one of the five that the [switch]
    knows.  The output frame rate is set only to the frame rate of the
    options, only when transcoding, and only when it is greater than
    zero. *)
Theorem video_codec_is_selected_once (input : option string) (opts : Options) :
  let m := merge opts in
  filter is_videoCodec (build input m)
  = (if m_noTranscoding m then [VideoCodec "copy"]
     else match encoderOf (m_videoCodec m) with
          | Some enc => [VideoCodec enc]
          | None => []
          end)
  /\ forall fps : float,
       In (FpsOutput fps) (build input m) ->
       frameRate opts = Some fps /\ (0 <? fps)%float = true /\ m_noTranscoding m = false.
Proof.
  intros m.
  assert (Haudio : forall keep : FfmpegCall -> bool,
             (forall c, In c (audioSetup numberToString m) -> keep c = false) ->
             filter keep (audioSetup numberToString m) = []).
  { intros keep Hkeep. induction (audioSetup numberToString m) as [|c l IH];
      [reflexivity|].
    cbn [filter]. rewrite (Hkeep c (or_introl eq_refl)). apply IH.
    intros c' Hc'. apply Hkeep. now right. }
  assert (Hin_audio : forall c, In c (audioSetup numberToString m) ->
                                is_videoCodec c = false /\ is_fpsOutput c = false).
  { intros c. unfold audioSetup. destruct (m_includeAudio m); [|intros []].
    cbn [In]. intros [<- | [<- | [<- | [<- | [<- | [<- | [<- | []]]]]]]]; now split. }
  assert (Hcustom : filter is_videoCodec (customSetup m) = []
                    /\ filter is_fpsOutput (customSetup m) = []).
  { unfold customSetup.
    now destruct (0 <? List.length (m_customFfmpegFlags m))%nat. }
  assert (Hinput : filter is_fpsOutput (inputSetup numberToString input m) = []).
  { unfold inputSetup. rewrite !filter_app.
    destruct (truthy (m_seekTime m) && (0 <? m_seekTime m)%float),
      (m_hardwareAcceleratedDecoding m), (m_minimizeLatency m), (isHttpUrl input),
      (negb (isHls input)); reflexivity. }
  assert (Hencoder : filter is_fpsOutput (encoderSetup m) = []).
  { unfold encoderSetup. cbv zeta.
    repeat match goal with
           | |- context [String.eqb ?a ?b] => destruct (String.eqb a b); [reflexivity|]
           end.
    reflexivity. }
  split.
  - unfold command. rewrite !filter_app, no_videoCodec_in_inputSetup.
    rewrite (Haudio is_videoCodec) by (intros c Hc; now apply Hin_audio).
    destruct Hcustom as [-> _]. cbn [filter app is_videoCodec]. rewrite app_nil_r.
    unfold videoSetup. cbn [filter is_videoCodec].
    destruct (m_noTranscoding m); [reflexivity|].
    rewrite !filter_app, videoCodec_of_encoderSetup.
    destruct (m_frameRate m) as [f|]; [destruct (truthy f)|]; reflexivity.
  - intros fps Hin.
    assert (Hfilter : In (FpsOutput fps) (filter is_fpsOutput (build input m)))
      by (apply filter_In; now split).
    revert Hfilter. unfold command. rewrite !filter_app, Hinput.
    rewrite (Haudio is_fpsOutput) by (intros c Hc; now apply Hin_audio).
    destruct Hcustom as [_ ->]. cbn [filter app is_fpsOutput]. rewrite app_nil_r.
    unfold videoSetup. cbn [filter is_fpsOutput].
    destruct (m_noTranscoding m); [intros []|].
    rewrite !filter_app, Hencoder. cbn [filter app is_fpsOutput].
    destruct (m_frameRate m) as [f|] eqn:Hrate; [|intros []].
    destruct (truthy f); [|intros []].
    cbn [filter app is_fpsOutput In]. intros [[= ->] | []].
    revert Hrate. unfold m, mergeOptions. cbn [m_frameRate defaultOptions].
    destruct (frameRate opts) as [x|]; [|discriminate].
    destruct (isFiniteNonZero (Some x)); cbn [andb]; [|discriminate].
    destruct (0 <? x)%float eqn:Hpos; [|discriminate].
    intros [= ->]. now repeat split.
Qed.

Lemma https_starts_with_http (s : string) :
  startsWith s "https" = true -> startsWith s "http" = true.
Proof.
  unfold startsWith.
  do 4 (destruct s as [|? s]; cbn [prefix]; [discriminate|];
        destruct (Ascii.ascii_dec _ _); [|discriminate]).
  intros _. now destruct s.
Qed.

Lemma isHttpUrl_http (input : option string) :
  isHttpUrl input
  = match input with Some s => startsWith s "http" | None => false end.
Proof.
  destruct input as [s|]; [|reflexivity]. cbn [isHttpUrl].
  destruct (startsWith s "http") eqn:H; [reflexivity|]. cbn [orb].
  destruct (startsWith s "https") eqn:H'; [|reflexivity].
  now rewrite (https_starts_with_http s H') in H.
Qed.

Lemma positive_is_truthy (t : float) : (0 <? t)%float = true -> truthy t = true.
Proof.
  unfold truthy, is_zero, is_nan.
  rewrite FloatAxioms.ltb_spec, !FloatAxioms.eqb_spec, Prim2SF_0.
  replace (Prim2SF zero) with (S754_zero false) by now vm_compute.
  destruct (Prim2SF t) as [[]|[]| |[] m e]; try discriminate; intros _.
  - reflexivity.
  - unfold SFeqb, SFcompare. rewrite Z.compare_refl, compare_cont_Z, Z.compare_refl.
    reflexivity.
Qed.

(** X14. The input options of the command: [-ss] exactly when the seek
    time is greater than zero (the test for a truthy value adds
    nothing); [-hwaccel auto] on request; [-headers] exactly when the
    input is a string that starts with "http" (the test for "https"
    adds nothing), followed by the four reconnect options unless the
    string contains "m3u"; a Readable gets neither.  No other part of
    [prepareStream] adds an input option. *)
Theorem input_options_of_the_command (input : option string) (opts : Options) :
  let m := merge opts in
  filter is_inputOption (build input m)
  = ((if (0 <? m_seekTime m)%float
      then [InputOption ["-ss"%string; numberToString (m_seekTime m)]] else [])
     ++ (if m_hardwareAcceleratedDecoding m
         then [InputOption ["-hwaccel"%string; "auto"%string]] else [])
     ++ match input with
        | Some s =>
            if startsWith s "http"
            then InputOption ["-headers"%string; headerLines (m_customHeaders m)]
                 :: (if includes s "m3u" then []
                     else [InputOption ["-reconnect 1"%string;
                                        "-reconnect_at_eof 1"%string;
                                        "-reconnect_streamed 1"%string;
                                        "-reconnect_delay_max 4294"%string]])
            else []
        | None => []
        end)%list.
Proof.
  intros m. unfold command. rewrite !filter_app.
  assert (Hvideo : filter is_inputOption (videoSetup numberToString m) = []).
  { unfold videoSetup, encoderSetup. cbv zeta. cbn [filter is_inputOption].
    destruct (m_noTranscoding m); [reflexivity|].
    rewrite !filter_app.
    destruct (m_frameRate m) as [f|]; [destruct (truthy f)|];
      repeat match goal with
             | |- context [String.eqb ?a ?b] => destruct (String.eqb a b); [reflexivity|]
             end; reflexivity. }
  assert (Haudio : filter is_inputOption (audioSetup numberToString m) = [])
    by (unfold audioSetup; now destruct (m_includeAudio m)).
  assert (Hcustom : filter is_inputOption (customSetup m) = [])
    by (unfold customSetup; now destruct (0 <? List.length (m_customFfmpegFlags m))%nat).
  rewrite Hvideo, Haudio, Hcustom. cbn [filter app is_inputOption]. rewrite app_nil_r.
  unfold inputSetup. rewrite isHttpUrl_http, !filter_app.
  assert (Hseek : truthy (m_seekTime m) && (0 <? m_seekTime m)%float
                  = (0 <? m_seekTime m)%float).
  { destruct (0 <? m_seekTime m)%float eqn:Hpos; [|apply andb_false_r].
    now rewrite (positive_is_truthy _ Hpos). }
  rewrite Hseek.
  destruct (0 <? m_seekTime m)%float, (m_hardwareAcceleratedDecoding m),
    (m_minimizeLatency m); cbn [filter app is_inputOption];
    (destruct input as [s|]; [|reflexivity]);
    (destruct (startsWith s "http"); [|reflexivity]);
    cbn [isHls filter is_inputOption]; now destruct (includes s "m3u").
Qed.

(** ** The headers *)

Lemma assign_keys (obj : Headers) (k v : string) :
  map fst (assign obj k v)
  = (map fst obj ++ (if existsb (String.eqb k) (map fst obj) then [] else [k]))%list.
Proof.
  induction obj as [|[k' v'] rest IH]; [reflexivity|].
  cbn [assign map fst existsb]. destruct (String.eqb k k'); cbn [orb map fst app].
  - now rewrite app_nil_r.
  - now rewrite IH.
Qed.

Lemma existsb_eqb (k : string) (keys : list string) :
  existsb (String.eqb k) keys = false -> ~ In k keys.
Proof.
  intros H Hin. assert (existsb (String.eqb k) keys = true); [|congruence].
  apply existsb_exists. exists k. split; [exact Hin | apply String.eqb_refl].
Qed.

Lemma valueOf_assign (obj : Headers) (k v name : string) :
  valueOf (assign obj k v) name
  = if String.eqb name k then Some v else valueOf obj name.
Proof.
  induction obj as [|[k' v'] rest IH]; [reflexivity|].
  cbn [assign]. destruct (String.eqb_spec k k') as [<- | Hne]; cbn [valueOf].
  - now destruct (String.eqb name k).
  - rewrite IH. destruct (String.eqb_spec name k') as [-> | _]; [|reflexivity].
    destruct (String.eqb_spec k' k) as [-> | _]; [now contradiction Hne | reflexivity].
Qed.

Lemma assigned_keys (a props : Headers) :
  exists extra,
    map fst (fold_left (fun obj kv => assign obj (fst kv) (snd kv)) props a)
    = (map fst a ++ extra)%list
    /\ (forall k, In k extra -> In k (map fst props))
    /\ (NoDup (map fst a) -> NoDup (map fst a ++ extra)).
Proof.
  induction props as [|[k v] props (extra & IH1 & IH2 & IH3)] using rev_ind.
  - exists []. rewrite app_nil_r. now repeat split.
  - rewrite fold_left_app. cbn [fold_left fst snd]. rewrite assign_keys, IH1.
    rewrite map_app. cbn [map fst].
    destruct (existsb (String.eqb k) (map fst a ++ extra)) eqn:Hk.
    + exists extra. rewrite app_nil_r. repeat split; [|exact IH3].
      intros k' Hin. apply in_or_app. left. now apply IH2.
    + exists (extra ++ [k])%list. split; [now rewrite app_assoc|]. split.
      * intros k' Hin. apply in_app_or in Hin. apply in_or_app.
        destruct Hin as [Hin | Hin]; [left; now apply IH2 | now right].
      * intros Hnd. rewrite app_assoc.
        apply (Permutation_NoDup (Permutation_cons_append _ k)).
        constructor; [now apply existsb_eqb | now apply IH3].
Qed.

Lemma assigned_values (a props : Headers) (name : string) :
  valueOf (fold_left (fun obj kv => assign obj (fst kv) (snd kv)) props a) name
  = match valueOf (rev props) name with
    | Some v => Some v
    | None => valueOf a name
    end.
Proof.
  induction props as [|[k v] props IH] using rev_ind; [reflexivity|].
  rewrite fold_left_app. cbn [fold_left fst snd].
  rewrite valueOf_assign, rev_app_distr. cbn [rev app valueOf].
  destruct (String.eqb name k); [reflexivity | apply IH].
Qed.

Lemma valueOf_hasKey (obj : Headers) (name : string) :
  valueOf obj name
  = match filter (hasKey name) obj with
    | [] => None
    | kv :: _ => Some (snd kv)
    end.
Proof.
  induction obj as [|[k v] rest IH]; [reflexivity|].
  cbn [valueOf filter]. unfold hasKey at 1. cbn [fst].
  now destruct (String.eqb name k).
Qed.

Lemma filter_rev {A : Type} (f : A -> bool) (l : list A) :
  filter f (rev l) = rev (filter f l).
Proof.
  induction l as [|x l IH]; [reflexivity|].
  cbn [rev filter]. rewrite filter_app, IH. cbn [filter].
  destruct (f x); [reflexivity | now rewrite app_nil_r].
Qed.

Lemma same_properties_same_value (obj obj' : Headers) (name : string) :
  filter (hasKey name) obj = filter (hasKey name) obj' ->
  valueOf obj name = valueOf obj' name
  /\ valueOf (rev obj) name = valueOf (rev obj') name.
Proof.
  intros H. rewrite !valueOf_hasKey, !filter_rev, H. now split.
Qed.

Lemma place_hasKey (i : N) (kv : string * string) (sorted : Headers) (name : string) :
  arrayIndex (fst kv) = Some i ->
  filter (hasKey name) (place i kv sorted) = filter (hasKey name) (kv :: sorted).
Proof.
  intros Hi. induction sorted as [|kv' rest IH]; [reflexivity|].
  cbn [place]. destruct (arrayIndex (fst kv')) as [j|] eqn:Hj; [|reflexivity].
  destruct (N.leb_spec i j) as [_ | Hlt]; [reflexivity|].
  cbn [filter] in *. rewrite IH.
  destruct (hasKey name kv) eqn:H1, (hasKey name kv') eqn:H2; try reflexivity.
  unfold hasKey in H1, H2. apply String.eqb_eq in H1, H2.
  rewrite <- H1, H2 in Hi. rewrite Hi in Hj. injection Hj as ->. lia.
Qed.

Lemma indexProperties_hasKey (obj : Headers) (name : string) :
  filter (hasKey name) (indexProperties obj)
  = filter (hasKey name) (filter (fun kv => isArrayIndex (fst kv)) obj).
Proof.
  induction obj as [|kv rest IH]; [reflexivity|].
  cbn [indexProperties filter]. unfold isArrayIndex at 1.
  destruct (arrayIndex (fst kv)) as [i|] eqn:Hi; [|exact IH].
  rewrite (place_hasKey _ _ _ _ Hi). cbn [filter]. now rewrite IH.
Qed.

Lemma Object_entries_hasKey (obj : Headers) (name : string) :
  filter (hasKey name) (Object_entries obj) = filter (hasKey name) obj.
Proof.
  unfold Object_entries, namedProperties.
  rewrite filter_app, indexProperties_hasKey.
  destruct (isArrayIndex name) eqn:Hname.
  - replace (filter (hasKey name) (filter (fun kv => negb (isArrayIndex (fst kv))) obj))
      with (@nil (string * string)).
    + rewrite app_nil_r. induction obj as [|kv rest IH]; [reflexivity|].
      cbn [filter]. destruct (hasKey name kv) eqn:Hk.
      * unfold hasKey in Hk. apply String.eqb_eq in Hk. rewrite <- Hk, Hname.
        cbn [filter]. unfold hasKey at 1. rewrite <- Hk, String.eqb_refl. now rewrite IH.
      * destruct (isArrayIndex (fst kv)); [|exact IH].
        cbn [filter]. now rewrite Hk.
    + induction obj as [|kv rest IH]; [reflexivity|].
      cbn [filter]. destruct (isArrayIndex (fst kv)) eqn:Hkv; cbn [negb]; [exact IH|].
      cbn [filter]. destruct (hasKey name kv) eqn:Hk; [|exact IH].
      unfold hasKey in Hk. apply String.eqb_eq in Hk. congruence.
  - replace (filter (hasKey name) (filter (fun kv => isArrayIndex (fst kv)) obj))
      with (@nil (string * string)).
    + cbn [app]. induction obj as [|kv rest IH]; [reflexivity|].
      cbn [filter]. destruct (hasKey name kv) eqn:Hk.
      * unfold hasKey in Hk. apply String.eqb_eq in Hk. rewrite <- Hk, Hname.
        cbn [negb filter]. unfold hasKey at 1. rewrite <- Hk, String.eqb_refl. now rewrite IH.
      * destruct (negb (isArrayIndex (fst kv))); [|exact IH].
        cbn [filter]. now rewrite Hk.
    + induction obj as [|kv rest IH]; [reflexivity|].
      cbn [filter]. destruct (isArrayIndex (fst kv)) eqn:Hkv; [|exact IH].
      cbn [filter]. destruct (hasKey name kv) eqn:Hk; [|exact IH].
      unfold hasKey in Hk. apply String.eqb_eq in Hk. congruence.
Qed.

Lemma place_permutation (i : N) (kv : string * string) (sorted : Headers) :
  Permutation (place i kv sorted) (kv :: sorted).
Proof.
  induction sorted as [|kv' rest IH]; [reflexivity|].
  cbn [place]. destruct (arrayIndex (fst kv')) as [j|]; [|reflexivity].
  destruct (i <=? j)%N; [reflexivity|].
  rewrite IH. apply perm_swap.
Qed.

Lemma indexProperties_permutation (obj : Headers) :
  Permutation (indexProperties obj) (filter (fun kv => isArrayIndex (fst kv)) obj).
Proof.
  induction obj as [|kv rest IH]; [reflexivity|].
  cbn [indexProperties filter]. unfold isArrayIndex at 1.
  destruct (arrayIndex (fst kv)); [|exact IH].
  rewrite place_permutation. now constructor.
Qed.

Lemma filter_partition {A : Type} (f : A -> bool) (l : list A) :
  Permutation (filter f l ++ filter (fun x => negb (f x)) l) l.
Proof.
  induction l as [|x l IH]; [reflexivity|].
  cbn [filter]. destruct (f x); cbn [negb app].
  - now constructor.
  - rewrite <- Permutation_middle. now constructor.
Qed.

Lemma Object_entries_permutation (obj : Headers) :
  Permutation (Object_entries obj) obj.
Proof.
  unfold Object_entries, namedProperties.
  rewrite indexProperties_permutation.
  apply (filter_partition (fun kv => isArrayIndex (fst kv))).
Qed.

Lemma indexProperties_keys (obj : Headers) :
  Forall (fun k => isArrayIndex k = true) (map fst (indexProperties obj)).
Proof.
  apply Forall_forall. intros k Hin. apply in_map_iff in Hin as [kv [<- Hin]].
  apply (Permutation_in _ (indexProperties_permutation obj)) in Hin.
  now apply filter_In in Hin.
Qed.

Lemma place_sorted (i : N) (kv : string * string) (sorted : Headers) :
  arrayIndex (fst kv) = Some i ->
  Forall (fun k => isArrayIndex k = true) (map fst sorted) ->
  StronglySorted indexOrder (map fst sorted) ->
  StronglySorted indexOrder (map fst (place i kv sorted)).
Proof.
  intros Hi Hall Hsorted. induction sorted as [|kv' rest IH].
  - cbn. constructor; constructor.
  - cbn [place]. inversion Hall as [|? ? Hkv' Hrest]; subst.
    inversion Hsorted as [|? ? Hsr Hle]; subst.
    unfold isArrayIndex in Hkv'.
    destruct (arrayIndex (fst kv')) as [j|] eqn:Hj; [|discriminate].
    destruct (N.leb_spec i j) as [Hij | Hji].
    + cbn [map]. constructor; [exact Hsorted|].
      constructor.
      * unfold indexOrder. now rewrite Hi, Hj.
      * revert Hle. apply Forall_impl. intros k. unfold indexOrder.
        rewrite Hi, Hj. destruct (arrayIndex k); [lia | tauto].
    + cbn [map]. constructor; [now apply IH|].
      apply Forall_forall. intros k Hin.
      apply (Permutation_in _ (Permutation_map fst (place_permutation i kv rest))) in Hin.
      destruct Hin as [<- | Hin].
      * unfold indexOrder. rewrite Hi, Hj. lia.
      * revert k Hin. now apply Forall_forall.
Qed.

Lemma indexProperties_sorted (obj : Headers) :
  StronglySorted indexOrder (map fst (indexProperties obj)).
Proof.
  induction obj as [|kv rest IH]; [constructor|].
  cbn [indexProperties]. destruct (arrayIndex (fst kv)) as [i|] eqn:Hi; [|exact IH].
  apply place_sorted; [exact Hi | apply indexProperties_keys | exact IH].
Qed.

Lemma namedProperties_keys (obj : Headers) :
  map fst (namedProperties obj) = filter (fun k => negb (isArrayIndex k)) (map fst obj).
Proof.
  unfold namedProperties. induction obj as [|kv rest IH]; [reflexivity|].
  cbn [filter map]. destruct (negb (isArrayIndex (fst kv))); cbn [map]; now rewrite IH.
Qed.

Lemma spread_defaults (b : option Headers) :
  spread (m_customHeaders defaultOptions) b
  = fold_left (fun obj kv => assign obj (fst kv) (snd kv))
      match b with Some o => Object_entries o | None => [] end
      (m_customHeaders defaultOptions).
Proof. unfold spread. now rewrite fold_left_app. Qed.

(** X15. The two default headers cannot be removed.  The header lines
    are written in the order of [Object.entries]: first the custom
    headers whose name is an array index, by ascending index, then
    [User-Agent] and [Connection], in this order, then the custom
    headers of other names; no name is listed twice and every listed
    name other than the two defaults is a custom one.  A custom header
    overrides the default of the same name, the last entry of a name
    winning, and every other default keeps its value. *)
Theorem default_headers_are_kept (opts : Options) :
  let merged := m_customHeaders (merge opts) in
  let custom := match customHeaders opts with Some o => o | None => [] end in
  (exists indices extra,
      map fst (Object_entries merged)
      = (indices ++ "User-Agent"%string :: "Connection"%string :: extra)%list
      /\ Forall (fun k => isArrayIndex k = true) indices
      /\ StronglySorted indexOrder indices
      /\ Forall (fun k => isArrayIndex k = false) extra
      /\ (forall k, In k (indices ++ extra) -> In k (map fst custom)))
  /\ NoDup (map fst (Object_entries merged))
  /\ (forall name : string,
        valueOf (Object_entries merged) name = valueOf merged name
        /\ valueOf merged name
           = match valueOf (rev custom) name with
             | Some v => Some v
             | None => valueOf (m_customHeaders defaultOptions) name
             end).
Proof.
  cbv zeta. unfold mergeOptions. cbn [m_customHeaders]. rewrite spread_defaults.
  set (defaults := m_customHeaders defaultOptions).
  generalize (customHeaders opts) as b. intros b.
  set (custom := match b with Some o => o | None => [] end).
  match goal with
  | |- context [fold_left ?f ?p defaults] =>
      set (props := p); set (merged := fold_left f props defaults)
  end.
  assert (Hperm : Permutation props custom).
  { subst props custom. destruct b; [apply Object_entries_permutation | reflexivity]. }
  assert (Hsame : forall name, filter (hasKey name) props = filter (hasKey name) custom).
  { intros name. subst props custom. destruct b; [apply Object_entries_hasKey | reflexivity]. }
  destruct (assigned_keys defaults props) as (extra & Hkeys & Hfrom & Hnd).
  change (map fst merged = (map fst defaults ++ extra)%list) in Hkeys.
  assert (Hnodup : NoDup (map fst merged)).
  { rewrite Hkeys. apply Hnd. cbn. repeat constructor; cbn; intuition discriminate. }
  assert (Hvalues : forall name,
             valueOf merged name
             = match valueOf (rev custom) name with
               | Some v => Some v
               | None => valueOf defaults name
               end).
  { intros name. subst merged. rewrite assigned_values.
    now rewrite (proj2 (same_properties_same_value _ _ _ (Hsame name))). }
  clearbody merged props custom.
  split; [|split].
  - exists (map fst (indexProperties merged)), (filter (fun k => negb (isArrayIndex k)) extra).
    split; [|split; [|split; [|split]]].
    + unfold Object_entries. rewrite map_app, namedProperties_keys, Hkeys. reflexivity.
    + apply indexProperties_keys.
    + apply indexProperties_sorted.
    + apply Forall_forall. intros k Hin. apply filter_In in Hin as [_ Hk].
      now destruct (isArrayIndex k).
    + intros k Hin.
      assert (Hextra : In k extra).
      { apply in_app_or in Hin as [Hin | Hin]; [|now apply filter_In in Hin].
        pose proof (indexProperties_keys merged) as Hall.
        rewrite Forall_forall in Hall. pose proof (Hall k Hin) as Hidx.
        apply in_map_iff in Hin as [kv [<- Hin]].
        apply (Permutation_in _ (indexProperties_permutation merged)) in Hin.
        apply filter_In in Hin as [Hin _].
        apply (in_map fst) in Hin. rewrite Hkeys in Hin.
        apply in_app_or in Hin as [Hin | Hin]; [exfalso | exact Hin].
        destruct Hin as [Hk | [Hk | []]]; rewrite <- Hk in Hidx; discriminate Hidx. }
      apply (Permutation_in _ (Permutation_map fst Hperm)). now apply Hfrom.
  - apply (Permutation_NoDup
             (Permutation_sym (Permutation_map fst (Object_entries_permutation merged)))).
    exact Hnodup.
  - intros name. split.
    + apply same_properties_same_value, Object_entries_hasKey.
    + apply Hvalues.
Qed.

End PrepareStreamProperties.

(** ** Examples *)

Section PrepareStreamExamples.

Import PrepareStream.
Local Open Scope float_scope.

Example Math_round_examples :
  map Math_round [2.5; -2.5; 0.25; 0.5; 1.5; -1.5; 1280.75; 3]
  = [3; -2; 0; 1; 2; -1; 1281; 3]
  /\ map (fun x => Prim2SF (Math_round x)) [-0.25; -0.5; 0.25]
     = [S754_zero true; S754_zero true; S754_zero false]
  /\ is_nan (Math_round nan) = true.
Proof. repeat split; now vm_compute. Qed.

Example input_tests_examples :
  isHttpUrl (Some "https://example.org/live.m3u8"%string) = true
  /\ isHls (Some "https://example.org/live.m3u8"%string) = true
  /\ isHttpUrl (Some "httpd.log"%string) = true
  /\ isHttpUrl (Some "/srv/http/video.mkv"%string) = false
  /\ isHls (Some "/music/m3u/video.mkv"%string) = true
  /\ isHttpUrl None = false.
Proof. repeat split. Qed.

Example header_order_example :
  map arrayIndex ["0"; "7"; "07"; "4294967294"; "4294967295"; "-0"; "1.5"; "";
                  "User-Agent"]%string
  = [Some 0; Some 7; None; Some 4294967294; None; None; None; None; None]%N
  /\ headerLines
       (spread (m_customHeaders defaultOptions)
          (Some [("Referer", "x"); ("7", "y"); ("User-Agent", "z");
                 ("10", "a"); ("2", "b")]%string))
     = "2: b\r\n7: y\r\n10: a\r\nUser-Agent: z\r\nConnection: keep-alive\r\nReferer: x"%string
  /\ headerLines (spread (m_customHeaders defaultOptions) None)
     = headerLines (m_customHeaders defaultOptions).
Proof. repeat split. Qed.

End PrepareStreamExamples.


(** * Witnesses of the further properties *)

Section FurtherWitnesses.

Import AudioStream AudioController PlayStream SessionLog.
Local Open Scope float_scope.

Lemma volume_history_witness :
  forallb is_number [SetVolume 5; Mute; SetVolume (-3); Unmute; SetVolume 1.5] = true
  /\ (0 <=? getVolume (handleAll (create O false)
                        [SetVolume 5; Mute; SetVolume (-3); Unmute; SetVolume 1.5]))
     = true
  /\ (getVolume (handleAll (create O false)
                   [SetVolume 5; Mute; SetVolume (-3); Unmute; SetVolume 1.5]) <=? 2)
     = true.
Proof.
  split; [reflexivity|].
  exact (volume_stays_within_0_and_2 nat O false
           [SetVolume 5; Mute; SetVolume (-3); Unmute; SetVolume 1.5] eq_refl).
Defined.

Lemma single_send_witness :
  isMuted (Demo.stream false 2) = false
  /\ getVolume (AudioStream.stream (Demo.sendFrame (Demo.stream false 2) [] Demo.frame 20))
     = getVolume (Demo.stream false 2).
Proof.
  split; [reflexivity|].
  exact (proj2 (proj2 (unmuted_frame_is_sent_exactly_once
           nat Demo.decode Demo.encode (list Buffer) Demo.send
           (Demo.stream false 2) [] Demo.frame 20 eq_refl))).
Defined.

Lemma odd_length_witness :
  isMuted (Demo.stream false 2) = false
  /\ JS.strict_neq (getVolume (Demo.stream false 2)) 1 = true
  /\ Demo.decode 0 [Byte.x01; Byte.x02; Byte.x03] = (1%nat, inr [Byte.x01; Byte.x02; Byte.x03])
  /\ Nat.odd (List.length [Byte.x01; Byte.x02; Byte.x03]) = true
  /\ exists e,
       scaleSamples (getVolume (Demo.stream false 2)) [Byte.x01; Byte.x02; Byte.x03] = inl e
       /\ Demo.sendFrame (Demo.stream false 2) [] [Byte.x01; Byte.x02; Byte.x03] 20
          = {| AudioStream.stream := with_opus (Demo.stream false 2) 1%nat;
               transport := fst (Demo.send [] [Byte.x01; Byte.x02; Byte.x03] 20);
               calls := [OpusDecode [Byte.x01; Byte.x02; Byte.x03];
                         ConsoleError "[AudioStream] Error processing audio frame:" e;
                         SendAudioFrame [Byte.x01; Byte.x02; Byte.x03] 20];
               thrown := snd (Demo.send [] [Byte.x01; Byte.x02; Byte.x03] 20) |}.
Proof.
  split; [reflexivity|]. split; [reflexivity|]. split; [reflexivity|].
  split; [reflexivity|].
  exact (odd_length_pcm_falls_back_to_the_frame
           nat Demo.decode Demo.encode (list Buffer) Demo.send
           (Demo.stream false 2) [] [Byte.x01; Byte.x02; Byte.x03] 20 1%nat
           [Byte.x01; Byte.x02; Byte.x03] eq_refl eq_refl eq_refl eq_refl).
Defined.

Lemma silence_witness :
  isMuted (setVolume (Demo.stream false 1) 0) = false
  /\ is_zero (getVolume (setVolume (Demo.stream false 1) 0))
     || is_nan (getVolume (setVolume (Demo.stream false 1) 0)) = true
  /\ Demo.decode 0 Demo.frame = (1%nat, inr Demo.frame)
  /\ Nat.even (List.length Demo.frame) = true
  /\ Demo.sendFrame (setVolume (Demo.stream false 1) 0) [] Demo.frame 20
     = {| AudioStream.stream := AudioStream.mk false 0 2%nat;
          transport := [repeat Byte.x00 6];
          calls := [OpusDecode Demo.frame;
                    OpusEncode (repeat Byte.x00 6) 960;
                    SendAudioFrame (repeat Byte.x00 6) 20];
          thrown := None |}.
Proof.
  split; [reflexivity|]. split; [reflexivity|]. split; [reflexivity|].
  split; [reflexivity|].
  exact (proj2 (proj2 (proj2 (zero_and_NaN_volume_send_silence
           nat Demo.decode Demo.encode (list Buffer) Demo.send
           (setVolume (Demo.stream false 1) 0) [] Demo.frame 20 1%nat Demo.frame
           eq_refl eq_refl eq_refl eq_refl)))).
Defined.

Lemma idle_codec_witness :
  forallb (fun r => negb (is_setVolume r)) [Mute; Unmute; Mute; Unmute] = true
  /\ calls (Demo.sendFrame (handleAll (create O true) [Mute; Unmute; Mute; Unmute])
              [] Demo.frame 20)
     = [SendAudioFrame Demo.frame 20].
Proof.
  split; [reflexivity|].
  exact (proj1 (proj2 (codec_is_idle_until_setVolume
           nat Demo.decode Demo.encode (list Buffer) Demo.send
           O true [Mute; Unmute; Mute; Unmute] [] Demo.frame 20 eq_refl))).
Defined.

Lemma no_burst_witness :
  playStream (demoEnv false) demoOptions = inr (demoSession false, demoSetup false)
  /\ burstRequested (demoEnv false) demoOptions = false
  /\ burstView (final (demoSession false) [Pts 0; Pts 9000; VideoFinish])
     = (freshFlags, None, None)
  /\ occurrences OffPts (effects (demoSession false) [Pts 0; Pts 9000; VideoFinish])
     = 0%nat.
Proof.
  split; [reflexivity|]. split; [reflexivity|].
  pose proof (no_burst_without_audio_or_duration
                (demoEnv false) demoOptions (demoSession false) (demoSetup false)
                [Pts 0; Pts 9000; VideoFinish] eq_refl eq_refl) as (H1 & _ & H3).
  split; [exact H1 | exact H3].
Defined.


Lemma error_log_witness :
  playStream (demoEnv true) demoOptions = inr (demoSession true, demoSetup true)
  /\ forallb quiet [Pts 100; EndOfTurn] = true
  /\ forallb sameTurn [Pts 200] = true
  /\ trigger (demoEnv true) (AudioError (VObject 2)) = true
  /\ filter is_LoggerError
       (effects (demoSession true)
          ([Pts 100; EndOfTurn] ++ AudioError (VObject 2) :: [Pts 200] ++ EndOfTurn
             :: [VideoError (VObject 3); EndOfTurn]))
     = [LoggerError (VObject 2)]
  /\ forallb sameTurn [Abort (VObject 1)] = true
  /\ filter is_LoggerError
       (effects (demoSession true)
          ([Pts 100; EndOfTurn] ++ AudioError (VObject 2) :: [Abort (VObject 1)]
             ++ EndOfTurn :: [VideoError (VObject 3); EndOfTurn]))
     = [].
Proof.
  split; [reflexivity|]. split; [reflexivity|]. split; [reflexivity|].
  split; [reflexivity|].
  split.
  - exact (proj2 (proj1 (error_is_logged_once_unless_cancelled
             (demoEnv true) demoOptions (demoSession true) (demoSetup true)
             [Pts 100; EndOfTurn] [Pts 200] [VideoError (VObject 3); EndOfTurn]
             (AudioError (VObject 2)) eq_refl eq_refl eq_refl) eq_refl)).
  - split; [reflexivity|].
    exact (proj2 (proj1 (error_is_logged_once_unless_cancelled
             (demoEnv true) demoOptions (demoSession true) (demoSetup true)
             [Pts 100; EndOfTurn] [Abort (VObject 1)] [VideoError (VObject 3); EndOfTurn]
             (AudioError (VObject 2)) eq_refl eq_refl eq_refl) eq_refl)).
Defined.

Lemma connection_flags_witness :
  playStream (demoEnv true) demoOptions = inr (demoSession true, demoSetup true)
  /\ forallb quiet [Pts 100] = true
  /\ trigger (demoEnv true) VideoFinish = true
  /\ speaking (demoSetup true ++ effects (demoSession true) [Pts 100]) = Some true
  /\ speaking (demoSetup true
               ++ effects (demoSession true) ([Pts 100] ++ VideoFinish :: [DecoderReady true]))
     = Some false
  /\ playStream (lateEnv (VObject 1)) demoOptions
     = inr (lateSession (VObject 1), demoSetup true)
  /\ opt_aborted (cancelSignal (lateSession (VObject 1))) = true
  /\ speaking (demoSetup true
               ++ effects (lateSession (VObject 1)) [VideoFinish; EndOfTurn])
     = Some true.
Proof.
  split; [reflexivity|]. split; [reflexivity|]. split; [reflexivity|].
  pose proof (connection_flags_follow_the_session
                (demoEnv true) demoOptions (demoSession true) (demoSetup true)
                [Pts 100] [DecoderReady true] VideoFinish eq_refl eq_refl)
    as ([H1 _] & H2 & _).
  split; [exact H1|]. split; [exact (proj1 (H2 eq_refl))|].
  split; [reflexivity|]. split; [reflexivity|].
  exact (proj1 (proj2 (proj2 (connection_flags_follow_the_session
           (lateEnv (VObject 1)) demoOptions (lateSession (VObject 1)) (demoSetup true)
           [] [] VideoFinish eq_refl eq_refl)) eq_refl [VideoFinish; EndOfTurn])).
Defined.

Lemma copy_witness :
  PrepareStream.noTranscoding PrepareStream.copyOptions = Some true
  /\ PrepareStream.prepareStream isFiniteNonZero (fun _ => "720"%string)
       (Some "http://example.org/a.mkv"%string)
       (PrepareStream.withVideoSettings PrepareStream.copyOptions
          (Some 1280) (Some 720) (Some 30) (Some "VP9"%string)
          (Some 2500) (Some 4000) (Some "slow"%string))
       None
     = PrepareStream.prepareStream isFiniteNonZero (fun _ => "720"%string)
         (Some "http://example.org/a.mkv"%string) PrepareStream.copyOptions None.
Proof.
  split; [reflexivity|].
  exact (video_settings_are_ignored_without_transcoding
           isFiniteNonZero (fun _ => "720"%string)
           (Some "http://example.org/a.mkv"%string) PrepareStream.copyOptions None
           (Some 1280) (Some 720) (Some 30) (Some "VP9"%string)
           (Some 2500) (Some 4000) (Some "slow"%string) eq_refl).
Defined.

End FurtherWitnesses.
